(** * Grimp (EpiGrimp): layers, undo/redo, selection clipboard and coordinate
    mapping of [src/src/mainwindow.cpp] and [src/include/mainwindow.h].

    The program is a Qt application.  The embedding keeps the program's own
    functions ([MainWindow::undo], [Canvas::widgetToImage], ...) as functions
    on an explicit state, and puts the few Qt value classes and painter
    primitives they call ([QRect], [QImage], [QPainter::drawImage], ...) in
    the module [Qt], written after Qt's documented behaviour.

    [mainwindow.cpp] holds two revisions of the program.  The development
    follows the later one (the one [include/mainwindow.h] declares, with
    selections, clipboard and per-layer opacity); the earlier revision's
    [Canvas::mouseReleaseEvent] is embedded in the module [Early]. *)

From Stdlib Require Import ZArith Floats Lia Ascii.
From stdpp Require Import base list strings pretty.

#[local] Open Scope Z_scope.

(** ** Doubles

    [double] values are IEEE binary64 numbers: Rocq's primitive floats. *)
Module Dbl.

Definition double := float.

(** [double(n)] for an [int] n (exact: |n| < 2^31). *)
Definition of_int (n : Z) : double :=
  if n <? 0 then PrimFloat.opp (PrimFloat.of_uint63 (Uint63.of_Z (- n)))
  else PrimFloat.of_uint63 (Uint63.of_Z n).

(** [int(d)]: C++ conversion, truncation toward zero. *)
Definition to_int (d : double) : Z :=
  match Prim2SF d with
  | S754_finite s m e =>
      let mag := if 0 <=? e then Z.shiftl (Z.pos m) e
                 else Z.shiftr (Z.pos m) (- e) in
      if s then - mag else mag
  | _ => 0
  end.

(** [std::isfinite]. *)
Definition isfinite (d : double) : bool :=
  negb (PrimFloat.is_nan d || PrimFloat.is_infinity d).

Definition lt (a b : double) : bool := PrimFloat.ltb a b.
Definition ge (a b : double) : bool := PrimFloat.leb b a.
Definition le (a b : double) : bool := PrimFloat.leb a b.

End Dbl.

(** ** The Qt classes the program uses *)
Module Qt.

(** *** QPoint, QSize, QRect *)

Record QPoint := mkQPoint { px : Z; py : Z }.

#[global] Instance QPoint_eq_dec : EqDecision QPoint.
Proof. solve_decision. Defined.

Definition point_sub (p q : QPoint) : QPoint :=
  mkQPoint (px p - px q) (py p - py q).

Record QSize := mkQSize { sw : Z; sh : Z }.

(** A [QRect] stores its corners inclusively: [width = x2 - x1 + 1]. *)
Record QRect := mkQRect { x1 : Z; y1 : Z; x2 : Z; y2 : Z }.

#[global] Instance QRect_eq_dec : EqDecision QRect.
Proof. solve_decision. Defined.

(** [QRect()]: the null rectangle. *)
Definition nullRect : QRect := mkQRect 0 0 (-1) (-1).

(** [QRect(topLeft, bottomRight)]. *)
Definition rectOfPoints (tl br : QPoint) : QRect :=
  mkQRect (px tl) (py tl) (px br) (py br).

Definition rwidth (r : QRect) : Z := x2 r - x1 r + 1.
Definition rheight (r : QRect) : Z := y2 r - y1 r + 1.
Definition rsize (r : QRect) : QSize := mkQSize (rwidth r) (rheight r).
Definition topLeft (r : QRect) : QPoint := mkQPoint (x1 r) (y1 r).

Definition setBottomRight (r : QRect) (p : QPoint) : QRect :=
  mkQRect (x1 r) (y1 r) (px p) (py p).

(** [isNull]: width and height are both 0. *)
Definition rectIsNull (r : QRect) : bool :=
  (x2 r =? x1 r - 1) && (y2 r =? y1 r - 1).

(** [isEmpty]: no pixel inside. *)
Definition rectIsEmpty (r : QRect) : bool :=
  (x2 r <? x1 r) || (y2 r <? y1 r).

(** [normalized]: corners swapped where the extent is negative. *)
Definition normalized (r : QRect) : QRect :=
  let '(a1, a2) := if x2 r <? x1 r then (x2 r + 1, x1 r - 1)
                   else (x1 r, x2 r) in
  let '(b1, b2) := if y2 r <? y1 r then (y2 r + 1, y1 r - 1)
                   else (y1 r, y2 r) in
  mkQRect a1 b1 a2 b2.

(** [contains(p)] on a rectangle with non-negative extent. *)
Definition rectContains (r : QRect) (x y : Z) : bool :=
  (x1 r <=? x) && (x <=? x2 r) && (y1 r <=? y) && (y <=? y2 r).

(** *** Pixels: [QRgb] is a 32-bit [0xAARRGGBB] word *)

Definition QRgb := Z.

Definition u32 (z : Z) : Z := Z.land z 0xFFFFFFFF.
Definition qAlpha (c : QRgb) : Z := Z.land (Z.shiftr c 24) 0xff.
Definition qRed (c : QRgb) : Z := Z.land (Z.shiftr c 16) 0xff.
Definition qGreen (c : QRgb) : Z := Z.land (Z.shiftr c 8) 0xff.
Definition qBlue (c : QRgb) : Z := Z.land c 0xff.
Definition qRgba (r g b a : Z) : QRgb :=
  Z.lor (Z.lor (Z.shiftl (Z.land a 0xff) 24) (Z.shiftl (Z.land r 0xff) 16))
        (Z.lor (Z.shiftl (Z.land g 0xff) 8) (Z.land b 0xff)).

(** [Qt::transparent] as a premultiplied pixel. *)
Definition transparent : QRgb := 0.

(** [~c] on 32 bits. *)
Definition not32 (c : QRgb) : Z := u32 (Z.lnot c).

(** [BYTE_MUL(x, a)]: every channel of [x] times [a/255], rounded. *)
Definition BYTE_MUL (x a : Z) : Z :=
  let t := u32 (Z.land x 0xff00ff * a) in
  let t := Z.shiftr (u32 (t + Z.land (Z.shiftr t 8) 0xff00ff + 0x800080)) 8 in
  let t := Z.land t 0xff00ff in
  let x := u32 (Z.land (Z.shiftr x 8) 0xff00ff * a) in
  let x := u32 (x + Z.land (Z.shiftr x 8) 0xff00ff + 0x800080) in
  let x := Z.land x 0xff00ff00 in
  Z.lor x t.

(** Source-over of one premultiplied pixel [s] on [d] at full opacity. *)
Definition sourceOver (s d : QRgb) : QRgb :=
  if 0xff000000 <=? s then s
  else if s =? 0 then d
  else u32 (s + BYTE_MUL d (qAlpha (not32 s))).

(** [QPainter::setOpacity] keeps [qMin(1.0, qMax(0.0, opacity))]. *)
Definition clampOpacity (opacity : Dbl.double) : Dbl.double :=
  let o := if Dbl.lt 0%float opacity then opacity else 0%float in
  if Dbl.lt 1%float o then 1%float else o.

(** The painter's integer opacity, [(int)(opacity * 256)], of the opacity
    it keeps. *)
Definition intOpacity (opacity : Dbl.double) : Z :=
  Dbl.to_int (PrimFloat.mul (clampOpacity opacity) (Dbl.of_int 256)).

(** Source-over with the painter's opacity applied to the source. *)
Definition blendPixel (opacity : Dbl.double) (s d : QRgb) : QRgb :=
  let ca := intOpacity opacity in
  if ca =? 256 then sourceOver s d
  else if ca =? 0 then d
  else
    let s' := BYTE_MUL s (Z.shiftr (ca * 255) 8) in
    u32 (s' + BYTE_MUL d (qAlpha (not32 s'))).

(** *** QImage: a format and the scan lines, top to bottom *)

Inductive Format :=
| Format_RGB32
| Format_ARGB32
| Format_ARGB32_Premultiplied.

#[global] Instance Format_eq_dec : EqDecision Format.
Proof. solve_decision. Defined.

Record QImage := mkQImage { format : Format; scanLines : list (list QRgb) }.

#[global] Instance QImage_eq_dec : EqDecision QImage.
Proof. solve_decision. Defined.

(** [QImage()]: the null image. *)
Definition nullImage : QImage := mkQImage Format_ARGB32_Premultiplied [].

Definition height (i : QImage) : Z := Z.of_nat (length (scanLines i)).
Definition width (i : QImage) : Z :=
  Z.of_nat (length (hd [] (scanLines i))).
Definition size (i : QImage) : QSize := mkQSize (width i) (height i).
Definition isNull (i : QImage) : bool :=
  (width i <=? 0) || (height i <=? 0).

Definition valid (i : QImage) (x y : Z) : bool :=
  (0 <=? x) && (x <? width i) && (0 <=? y) && (y <? height i).

(** [pixel(x, y)]; Qt leaves it unspecified outside the image, and the
    model reads 0 there. *)
Definition pixel (i : QImage) (x y : Z) : QRgb :=
  if (0 <=? x) && (0 <=? y)
  then nth (Z.to_nat x) (nth (Z.to_nat y) (scanLines i) []) 0
  else 0.

(** The list [f 0; f 1; ...; f (n-1)]. *)
Definition tabulate {A} (n : Z) (f : Z -> A) : list A :=
  map (fun k => f (Z.of_nat k)) (seq 0 (Z.to_nat n)).

(** An image of [w] x [h] pixels given pixel by pixel; null when a
    dimension is not positive, as [QImage(w, h, format)] is. *)
Definition generate (fmt : Format) (w h : Z) (f : Z -> Z -> QRgb) : QImage :=
  if (w <=? 0) || (h <=? 0) then nullImage
  else mkQImage fmt (tabulate h (fun y => tabulate w (fun x => f x y))).

(** Rewrites every pixel in place; the image keeps its shape. *)
Definition mapPixels (f : Z -> Z -> QRgb -> QRgb) (i : QImage) : QImage :=
  mkQImage (format i)
    (imap (fun y row => imap (fun x c => f (Z.of_nat x) (Z.of_nat y) c) row)
          (scanLines i)).

(** [QImage(w, h, format)] followed by [fill(c)]. *)
Definition filled (fmt : Format) (w h : Z) (c : QRgb) : QImage :=
  generate fmt w h (fun _ _ => c).

(** [fill(c)] on an existing image. *)
Definition fill (c : QRgb) (i : QImage) : QImage :=
  mapPixels (fun _ _ _ => c) i.

(** [copy()]: a deep copy, the same value. *)
Definition copy (i : QImage) : QImage := i.

(** [copy(rect)]: the whole image for the null rectangle (width and
    height 0), else the sub-image, transparent where [rect] leaves the
    image, and the null image when [rect] has no pixel. *)
Definition copyRect (r : QRect) (i : QImage) : QImage :=
  if isNull i then nullImage
  else if rectIsNull r then i
  else generate (format i) (rwidth r) (rheight r)
         (fun x y => if valid i (x1 r + x) (y1 r + y)
                     then pixel i (x1 r + x) (y1 r + y) else 0).

(** [mirrored(horizontal, vertical)]. *)
Definition mirrored (horizontal vertical : bool) (i : QImage) : QImage :=
  let rows := if horizontal then map (@rev QRgb) (scanLines i)
              else scanLines i in
  mkQImage (format i) (if vertical then rev rows else rows).

(** [transformed] by a rotation of +90 (clockwise) or -90 degrees: the
    result is [height] x [width]. *)
Definition rotated (clockwise : bool) (i : QImage) : QImage :=
  let w := width i in
  let h := height i in
  generate (format i) h w
    (fun x y => if clockwise then pixel i y (h - 1 - x)
                else pixel i (w - 1 - y) x).

(** [convertToFormat(Format_ARGB32_Premultiplied)]. *)
Definition premultiply (c : QRgb) : QRgb :=
  let a := qAlpha c in
  Z.lor (Z.land (BYTE_MUL c a) 0x00ffffff) (Z.shiftl a 24).

Definition convertToPremultiplied (i : QImage) : QImage :=
  match format i with
  | Format_ARGB32_Premultiplied => i
  | Format_ARGB32 =>
      mkQImage Format_ARGB32_Premultiplied
        (map (map premultiply) (scanLines i))
  | Format_RGB32 =>
      mkQImage Format_ARGB32_Premultiplied
        (map (map (fun c => Z.lor c 0xff000000)) (scanLines i))
  end.

(** *** QPainter on a QImage, default composition mode (source-over) *)

(** [drawImage(p, src)] under [setOpacity(opacity)]: the part of [src]
    that falls on the device is blended, the rest of the device is
    untouched. *)
Definition drawImage (opacity : Dbl.double) (p : QPoint) (src : QImage)
    (dst : QImage) : QImage :=
  mapPixels (fun x y d =>
               if valid src (x - px p) (y - py p)
               then blendPixel opacity (pixel src (x - px p) (y - py p)) d
               else d) dst.

(** [QRegion(polygon)] with the default odd-even fill rule, sampled at
    pixel centres: the pixel [(x, y)] belongs to the region when a ray
    from its centre crosses the outline an odd number of times.
    Coordinates are doubled so that centres are integral. *)
Definition crosses (x y : Z) (a b : QPoint) : bool :=
  let '(cx, cy) := (2 * x + 1, 2 * y + 1) in
  let '(ax, ay, bx, by_) := (2 * px a, 2 * py a, 2 * px b, 2 * py b) in
  if Bool.eqb (cy <? ay) (cy <? by_) then false
  else
    let lhs := (cx - ax) * (by_ - ay) in
    let rhs := (cy - ay) * (bx - ax) in
    if 0 <? by_ - ay then lhs <? rhs else rhs <? lhs.

Fixpoint crossings (x y : Z) (first prev : QPoint) (rest : list QPoint)
    : nat :=
  match rest with
  | [] => if crosses x y prev first then 1%nat else 0%nat
  | q :: rest' =>
      ((if crosses x y prev q then 1 else 0) + crossings x y first q rest')%nat
  end.

Definition regionContains (poly : list QPoint) (x y : Z) : bool :=
  match poly with
  | [] => false
  | p0 :: rest => Nat.odd (crossings x y p0 p0 rest)
  end.

(** [setClipRegion(QRegion(poly))] then [drawImage(p, src)]. *)
Definition drawImageClipped (poly : list QPoint) (p : QPoint) (src : QImage)
    (dst : QImage) : QImage :=
  mapPixels (fun x y d =>
               if regionContains poly x y && valid src (x - px p) (y - py p)
               then blendPixel 1%float (pixel src (x - px p) (y - py p)) d
               else d) dst.

(** [qGray(r, g, b)]. *)
Definition qGray (c : QRgb) : Z :=
  (qRed c * 11 + qGreen c * 16 + qBlue c * 5) / 32.

(** [setCompositionMode(CompositionMode_Clear)] then [fillRect(r, _)]:
    every device pixel of [r] becomes 0 (the paint engine fills the
    normalized rectangle). *)
Definition clearRect (r : QRect) (dst : QImage) : QImage :=
  mapPixels (fun x y d => if rectContains (normalized r) x y then 0 else d)
            dst.

End Qt.

Import Qt.

(** ** Program state *)

(** [struct Layer] of [mainwindow.h]. *)
Record Layer := mkLayer {
  name : string;
  image : QImage;
  undoStack : list QImage;
  redoStack : list QImage;
  opacity : Dbl.double
}.

(** [Canvas::Tool]. *)
Inductive Tool :=
| BRUSH | ERASER | LINE | RECTANGLE | CIRCLE | RECT_SELECT | LASSO_SELECT | TEXT.

#[global] Instance Tool_eq_dec : EqDecision Tool.
Proof. solve_decision. Defined.

(** [struct TextItem]; the font is kept as an opaque description. *)
Record TextItem := mkTextItem {
  text : string;
  position : QPoint;
  font : string;
  color : QRgb;
  boundingRect : QRect;
  selected : bool
}.

(** The fields of [class Canvas].  [targetImg] points into
    [MainWindow::layers]: it is the index of the layer whose image it
    aliases, or [None] for [nullptr]. *)
Record Canvas := mkCanvas {
  selectionRect : QRect;
  lassoPolygon : list QPoint;
  selecting : bool;
  composite : QImage;
  imageOffset : QPoint;
  targetImg : option nat;
  lastPoint : QPoint;
  startPoint : QPoint;
  penWidth : Z;
  penColor : QRgb;
  eraserMode : bool;
  textItems : list TextItem;
  activeTextIndex : Z;
  zoom : Dbl.double;
  currentTool : Tool;
  _hasSelection : bool
}.

(** The layer panel's [QListWidget]: the rows, top layer first. *)
Record QListWidget := mkQListWidget { items : list string; currentRow : Z }.

(** The fields of [class MainWindow] the program reads or writes. *)
Record MainWindow := mkMainWindow {
  canvas : Canvas;
  statusLabel : string;
  layerListWidget : QListWidget;
  layers : list Layer;
  activeLayerIndex : Z;
  brushSize : Z;
  brushColor : QRgb;
  zoomFactor : Dbl.double;
  selectionBuffer : QImage
}.

(** Modal message boxes shown to the user. *)
Inductive Notice :=
| Information (title body : string)
| Warning (title body : string).

(** *** Field updates *)

Definition setImage (i : QImage) (L : Layer) : Layer :=
  mkLayer (name L) i (undoStack L) (redoStack L) (opacity L).
Definition setUndoStack (u : list QImage) (L : Layer) : Layer :=
  mkLayer (name L) (image L) u (redoStack L) (opacity L).
Definition setRedoStack (r : list QImage) (L : Layer) : Layer :=
  mkLayer (name L) (image L) (undoStack L) r (opacity L).

Definition setLayers (ls : list Layer) (w : MainWindow) : MainWindow :=
  mkMainWindow (canvas w) (statusLabel w) (layerListWidget w) ls
    (activeLayerIndex w) (brushSize w) (brushColor w) (zoomFactor w)
    (selectionBuffer w).
Definition setCanvas (c : Canvas) (w : MainWindow) : MainWindow :=
  mkMainWindow c (statusLabel w) (layerListWidget w) (layers w)
    (activeLayerIndex w) (brushSize w) (brushColor w) (zoomFactor w)
    (selectionBuffer w).
Definition setText (s : string) (w : MainWindow) : MainWindow :=
  mkMainWindow (canvas w) s (layerListWidget w) (layers w)
    (activeLayerIndex w) (brushSize w) (brushColor w) (zoomFactor w)
    (selectionBuffer w).
Definition setLayerListWidget (q : QListWidget) (w : MainWindow) : MainWindow :=
  mkMainWindow (canvas w) (statusLabel w) q (layers w)
    (activeLayerIndex w) (brushSize w) (brushColor w) (zoomFactor w)
    (selectionBuffer w).
Definition setActiveLayerIndex (i : Z) (w : MainWindow) : MainWindow :=
  mkMainWindow (canvas w) (statusLabel w) (layerListWidget w) (layers w)
    i (brushSize w) (brushColor w) (zoomFactor w) (selectionBuffer w).
Definition setSelectionBuffer (b : QImage) (w : MainWindow) : MainWindow :=
  mkMainWindow (canvas w) (statusLabel w) (layerListWidget w) (layers w)
    (activeLayerIndex w) (brushSize w) (brushColor w) (zoomFactor w) b.

Definition setComposite (i : QImage) (c : Canvas) : Canvas :=
  mkCanvas (selectionRect c) (lassoPolygon c) (selecting c) i (imageOffset c)
    (targetImg c) (lastPoint c) (startPoint c) (penWidth c) (penColor c)
    (eraserMode c) (textItems c) (activeTextIndex c) (zoom c) (currentTool c)
    (_hasSelection c).
Definition setTarget (t : option nat) (c : Canvas) : Canvas :=
  mkCanvas (selectionRect c) (lassoPolygon c) (selecting c) (composite c)
    (imageOffset c) t (lastPoint c) (startPoint c) (penWidth c) (penColor c)
    (eraserMode c) (textItems c) (activeTextIndex c) (zoom c) (currentTool c)
    (_hasSelection c).
Definition setPoints (last start : QPoint) (c : Canvas) : Canvas :=
  mkCanvas (selectionRect c) (lassoPolygon c) (selecting c) (composite c)
    (imageOffset c) (targetImg c) last start (penWidth c) (penColor c)
    (eraserMode c) (textItems c) (activeTextIndex c) (zoom c) (currentTool c)
    (_hasSelection c).
Definition setSelection (r : QRect) (poly : list QPoint) (sel has : bool)
    (c : Canvas) : Canvas :=
  mkCanvas r poly sel (composite c) (imageOffset c) (targetImg c)
    (lastPoint c) (startPoint c) (penWidth c) (penColor c) (eraserMode c)
    (textItems c) (activeTextIndex c) (zoom c) (currentTool c) has.
Definition setTextItems (ts : list TextItem) (active : Z) (c : Canvas) : Canvas :=
  mkCanvas (selectionRect c) (lassoPolygon c) (selecting c) (composite c)
    (imageOffset c) (targetImg c) (lastPoint c) (startPoint c) (penWidth c)
    (penColor c) (eraserMode c) ts active (zoom c) (currentTool c)
    (_hasSelection c).

(** [layers.size()] and the guard
    [activeLayerIndex < 0 || activeLayerIndex >= layers.size()]. *)
Definition layerCount (w : MainWindow) : Z := Z.of_nat (length (layers w)).

Definition activeOutOfRange (w : MainWindow) : bool :=
  (activeLayerIndex w <? 0) || (layerCount w <=? activeLayerIndex w).

(** [layers[activeLayerIndex]], [None] when the index is out of range. *)
Definition activeLayer (w : MainWindow) : option Layer :=
  if activeOutOfRange w then None
  else layers w !! Z.to_nat (activeLayerIndex w).

(** [layers[activeLayerIndex] = L]. *)
Definition storeActiveLayer (L : Layer) (w : MainWindow) : MainWindow :=
  setLayers (<[Z.to_nat (activeLayerIndex w) := L]> (layers w)) w.

(** ** Canvas: composite and target image *)

(** [Canvas::setCompositeImage]. *)
Definition setCompositeImage (c : QImage) (w : MainWindow) : MainWindow :=
  setCanvas (setComposite c (canvas w)) w.

(** [Canvas::ensureTargetSizeMatchesWidget]: a target smaller than the
    composite is replaced by a transparent image of the larger size with
    the old target drawn at the origin. *)
Definition ensureTargetSizeMatchesWidget (w : MainWindow) : MainWindow :=
  match targetImg (canvas w) with
  | None => w
  | Some t =>
      match layers w !! t with
      | None => w
      | Some L =>
          let comp := composite (canvas w) in
          if (width (image L) <? width comp) || (height (image L) <? height comp)
          then
            let newW := Z.max (width (image L)) (width comp) in
            let newH := Z.max (height (image L)) (height comp) in
            let newImg := filled Format_ARGB32_Premultiplied newW newH transparent in
            let newImg := drawImage 1%float (mkQPoint 0 0) (image L) newImg in
            setLayers (<[t := setImage newImg L]> (layers w)) w
          else w
      end
  end.

(** [Canvas::setTargetImage]. *)
Definition setTargetImage (target : option nat) (w : MainWindow) : MainWindow :=
  ensureTargetSizeMatchesWidget (setCanvas (setTarget target (canvas w)) w).

(** [canvas->setTargetImage(&layers[activeLayerIndex].image)]. *)
Definition setTargetToActive (w : MainWindow) : MainWindow :=
  setTargetImage (Some (Z.to_nat (activeLayerIndex w))) w.

(** ** MainWindow: compositing and undo/redo *)

(** [MainWindow::compositeLayers]. *)
Definition compositeLayers (w : MainWindow) : MainWindow :=
  match layers w with
  | [] => w
  | l0 :: rest =>
      let comp :=
        fold_left (fun comp li =>
                     drawImage (opacity li) (mkQPoint 0 0) (image li) comp)
                  rest (image l0) in
      setCompositeImage comp w
  end.

Definition MAX_UNDO : Z := 20.

(** [MainWindow::pushUndoForActiveLayer]. *)
Definition pushUndoForActiveLayer (w : MainWindow) : MainWindow :=
  match activeLayer w with
  | None => w
  | Some L =>
      let u := undoStack L ++ [copy (image L)] in
      let u := if MAX_UNDO <? Z.of_nat (length u) then drop 1 u else u in
      storeActiveLayer (setUndoStack u L) w
  end.

(** [MainWindow::clearRedoForActiveLayer]. *)
Definition clearRedoForActiveLayer (w : MainWindow) : MainWindow :=
  match activeLayer w with
  | None => w
  | Some L => storeActiveLayer (setRedoStack [] L) w
  end.

(** [MainWindow::onStrokeStarted]. *)
Definition onStrokeStarted (w : MainWindow) : MainWindow :=
  clearRedoForActiveLayer (pushUndoForActiveLayer w).

(** [MainWindow::onStrokeFinished]. *)
Definition onStrokeFinished (w : MainWindow) : MainWindow :=
  compositeLayers w.

(** [MainWindow::undo]. *)
Definition undo (w : MainWindow) : MainWindow :=
  match activeLayer w with
  | None => w
  | Some L =>
      match last (undoStack L) with
      | None => setText "Nothing to undo" w
      | Some prev =>
          let L' := mkLayer (name L) prev (removelast (undoStack L))
                      (redoStack L ++ [copy (image L)]) (opacity L) in
          setText ("Undo on " +:+ name L')
            (compositeLayers (storeActiveLayer L' w))
      end
  end.

(** [MainWindow::redo]. *)
Definition redo (w : MainWindow) : MainWindow :=
  match activeLayer w with
  | None => w
  | Some L =>
      match last (redoStack L) with
      | None => setText "Nothing to redo" w
      | Some next =>
          let L' := mkLayer (name L) next (undoStack L ++ [copy (image L)])
                      (removelast (redoStack L)) (opacity L) in
          setText ("Redo on " +:+ name L')
            (compositeLayers (storeActiveLayer L' w))
      end
  end.

(** ** MainWindow: edits of the active layer *)

(** [layers[activeLayerIndex].image = f(layers[activeLayerIndex].image)],
    behind a check that the index is in range. *)
Definition paintActive (f : QImage -> QImage) (w : MainWindow) : MainWindow :=
  match activeLayer w with
  | None => w
  | Some L => storeActiveLayer (setImage (f (image L)) L) w
  end.

(** [MainWindow::clearCanvas]. *)
Definition clearCanvas (w : MainWindow) : MainWindow :=
  match activeLayer w with
  | None => w
  | Some L =>
      let w := pushUndoForActiveLayer w in
      let w := paintActive (fill transparent) w in
      let w := clearRedoForActiveLayer w in
      let w := compositeLayers w in
      setText (name L +:+ " cleared") w
  end.

(** [MainWindow::rotateLeft]. *)
Definition rotateLeft (w : MainWindow) : MainWindow :=
  if activeOutOfRange w then w
  else setText "Rotated left"
         (compositeLayers (paintActive (rotated false) w)).

(** [MainWindow::rotateRight]. *)
Definition rotateRight (w : MainWindow) : MainWindow :=
  if activeOutOfRange w then w
  else setText "Rotated right"
         (compositeLayers (paintActive (rotated true) w)).

(** [MainWindow::flipHorizontal]. *)
Definition flipHorizontal (w : MainWindow) : MainWindow :=
  if activeOutOfRange w then w
  else setText "Flipped horizontally"
         (compositeLayers (paintActive (mirrored true false) w)).

(** [MainWindow::flipVertical]. *)
Definition flipVertical (w : MainWindow) : MainWindow :=
  if activeOutOfRange w then w
  else setText "Flipped vertically"
         (compositeLayers (paintActive (mirrored false true) w)).

(** The per-pixel loops of the filters.  [QColor c(scan[x])] drops the
    alpha of the word it is built from, so [c.alpha()] is 255. *)
Definition grayPixel (c : QRgb) : QRgb :=
  let g := qGray c in qRgba g g g 255.
Definition invertPixel (c : QRgb) : QRgb :=
  qRgba (255 - qRed c) (255 - qGreen c) (255 - qBlue c) 255.

(** [MainWindow::grayscale]; [accepted] is the answer of the preview
    dialog. *)
Definition grayscale (accepted : bool) (w : MainWindow) : MainWindow :=
  match activeLayer w with
  | None => w
  | Some L =>
      let preview := mapPixels (fun _ _ c => grayPixel c) (copy (image L)) in
      if accepted then
        let w := pushUndoForActiveLayer w in
        let w := clearRedoForActiveLayer w in
        let w := paintActive (fun _ => preview) w in
        let w := compositeLayers w in
        setText ("Grayscale applied to " +:+ name L) w
      else setText "Grayscale canceled" w
  end.

(** [MainWindow::invertColors]. *)
Definition invertColors (accepted : bool) (w : MainWindow) : MainWindow :=
  match activeLayer w with
  | None => w
  | Some L =>
      let preview := mapPixels (fun _ _ c => invertPixel c) (copy (image L)) in
      if accepted then
        let w := pushUndoForActiveLayer w in
        let w := clearRedoForActiveLayer w in
        let w := paintActive (fun _ => preview) w in
        let w := compositeLayers w in
        setText ("Inverted colors applied to " +:+ name L) w
      else setText "Invert canceled" w
  end.

(** ** Selection and clipboard *)

(** [Canvas::hasSelection]. *)
Definition hasSelection (c : Canvas) : bool := _hasSelection c.

(** [Canvas::getSelectionRect]. *)
Definition getSelectionRect (c : Canvas) : QRect := selectionRect c.

(** The image [targetImg] points at, which the canvas draws into. *)
Definition targetImage (w : MainWindow) : option QImage :=
  match targetImg (canvas w) with
  | None => None
  | Some t => image <$> layers w !! t
  end.

(** [Canvas::getSelectionImage]. *)
Definition getSelectionImage (w : MainWindow) : QImage :=
  let c := canvas w in
  match targetImage w with
  | None => nullImage
  | Some target =>
      if negb (hasSelection c) then nullImage
      else
        match currentTool c with
        | RECT_SELECT => copyRect (selectionRect c) target
        | LASSO_SELECT =>
            match lassoPolygon c with
            | [] => nullImage
            | _ =>
                let r := selectionRect c in
                let img := filled Format_ARGB32_Premultiplied
                             (rwidth r) (rheight r) transparent in
                let poly := map (fun p => point_sub p (topLeft r))
                                (lassoPolygon c) in
                drawImageClipped poly (mkQPoint (- x1 r) (- y1 r)) target img
            end
        | _ => nullImage
        end
  end.

(** [MainWindow::copySelection]. *)
Definition copySelection (w : MainWindow) : MainWindow :=
  if negb (hasSelection (canvas w)) then w
  else setText "Selection copied" (setSelectionBuffer (getSelectionImage w) w).

(** [MainWindow::cutSelection].  [layers[activeLayerIndex]] is read with no
    range check: [None] stands for that undefined access. *)
Definition cutSelection (w : MainWindow) : option MainWindow :=
  if negb (hasSelection (canvas w)) then Some w
  else
    let w := pushUndoForActiveLayer w in
    let w := setSelectionBuffer (getSelectionImage w) w in
    match activeLayer w with
    | None => None
    | Some _ =>
        let w := paintActive (clearRect (getSelectionRect (canvas w))) w in
        Some (setText "Selection cut" (compositeLayers w))
    end.

(** [MainWindow::pasteSelection]. *)
Definition pasteSelection (w : MainWindow) : option MainWindow :=
  if isNull (selectionBuffer w) then Some w
  else
    let w := pushUndoForActiveLayer w in
    match activeLayer w with
    | None => None
    | Some _ =>
        let w := paintActive
                   (drawImage 1%float (topLeft (getSelectionRect (canvas w)))
                              (selectionBuffer w)) w in
        Some (setText "Selection pasted" (compositeLayers w))
    end.

(** ** Layers: removal, loading a file *)

(** [MainWindow::removeLayer].  The list widget is kept as its rows.
    When the row taken is the current one, the widget makes another row
    current and sends [currentRowChanged], which runs [activateLayer] in
    the middle of the handler; [setCurrentRow(0)] can do the same.  These
    nested calls are not part of the model: they touch the active index,
    the target and the status line, which the handler writes again after
    them, and they can grow the buffer of the layer they activate to the
    size of the composite. *)
Definition removeLayer (w : MainWindow) : option (MainWindow * list Notice) :=
  if layerCount w <=? 1
  then Some (w, [Information "Cannot remove" "Need at least one layer."])
  else
    let idx := activeLayerIndex w in
    if activeOutOfRange w then None
    else
      let w := setLayers (delete (Z.to_nat idx) (layers w)) w in
      let uiIndex := layerCount w - idx in
      let q := layerListWidget w in
      let rows :=
        if (0 <=? uiIndex) && (uiIndex <? Z.of_nat (length (items q)))
        then delete (Z.to_nat uiIndex) (items q) else items q in
      let w := setActiveLayerIndex (layerCount w - 1) w in
      let w := setLayerListWidget (mkQListWidget rows 0) w in
      let w := setTargetToActive w in
      let w := compositeLayers w in
      match activeLayer w with
      | None => None
      | Some L => Some (setText ("Layer removed, active: " +:+ name L) w, [])
      end.

(** [MainWindow::deleteLayer], reached from the layer panel's context
    menu. *)
Definition deleteLayer (w : MainWindow) : option (MainWindow * list Notice) :=
  if layerCount w <=? 1
  then Some (w, [Information "Cannot remove" "Need at least one layer."])
  else
    let idx := activeLayerIndex w in
    if activeOutOfRange w then None
    else
      let w := setLayers (delete (Z.to_nat idx) (layers w)) w in
      let q := layerListWidget w in
      let uiIndex := Z.of_nat (length (items q)) - 1 - idx in
      let rows :=
        if 0 <=? uiIndex then delete (Z.to_nat uiIndex) (items q)
        else items q in
      let w := setActiveLayerIndex (layerCount w - 1) w in
      let w := setLayerListWidget (mkQListWidget rows 0) w in
      let w := setTargetToActive w in
      let w := compositeLayers w in
      match activeLayer w with
      | None => None
      | Some L => Some (setText ("Layer removed, active: " +:+ name L) w, [])
      end.

(** [QFileInfo(path).fileName()]: what follows the last ["/"]. *)
Fixpoint hasSlash (path : string) : bool :=
  match path with
  | EmptyString => false
  | String c rest => bool_decide (c = "/"%char) || hasSlash rest
  end.

Fixpoint fileNameOf (path : string) : string :=
  match path with
  | EmptyString => EmptyString
  | String _ rest => if hasSlash path then fileNameOf rest else path
  end.

(** [MainWindow::openFile].  [fileName] is what the file dialog returned
    (empty when cancelled) and [loaded] what [QImage::load] decoded
    ([None] when it failed). *)
Definition openFile (fileName : string) (loaded : option QImage)
    (w : MainWindow) : option (MainWindow * list Notice) :=
  if decide (fileName = "") then Some (w, [])
  else
    match loaded with
    | None => Some (w, [Warning "Open failed" "Could not open image."])
    | Some img =>
        match activeLayer w with
        | None => None
        | Some L =>
            let L' := mkLayer (name L) (convertToPremultiplied img) [] []
                        (opacity L) in
            let w := storeActiveLayer L' w in
            let w := compositeLayers w in
            let w := setTargetToActive w in
            Some (setText (fileNameOf fileName +:+ " loaded into " +:+ name L') w,
                  [])
        end
    end.

(** ** Canvas: coordinate mapping and pointer events *)

(** The value [QPoint(-1, -1)] that [widgetToImage] returns for a point
    off the image. *)
Definition OUT_OF_BOUNDS : QPoint := mkQPoint (-1) (-1).

(** [Canvas::widgetToImage]. *)
Definition widgetToImage (c : Canvas) (p : QPoint) (imgSize : QSize) : QPoint :=
  let ix := PrimFloat.div
              (PrimFloat.sub (Dbl.of_int (px p)) (Dbl.of_int (px (imageOffset c))))
              (zoom c) in
  let iy := PrimFloat.div
              (PrimFloat.sub (Dbl.of_int (py p)) (Dbl.of_int (py (imageOffset c))))
              (zoom c) in
  if negb (Dbl.isfinite ix) || negb (Dbl.isfinite iy) then OUT_OF_BOUNDS
  else if Dbl.lt ix 0%float || Dbl.lt iy 0%float
          || Dbl.ge ix (Dbl.of_int (sw imgSize))
          || Dbl.ge iy (Dbl.of_int (sh imgSize))
  then OUT_OF_BOUNDS
  else mkQPoint (Dbl.to_int (PrimFloat.add ix 0.5%float))
                (Dbl.to_int (PrimFloat.add iy 0.5%float)).

Inductive MouseButton := LeftButton | RightButton | MiddleButton.

#[global] Instance MouseButton_eq_dec : EqDecision MouseButton.
Proof. solve_decision. Defined.

(** What the handlers read of a [QMouseEvent]: the button that caused
    it, whether the left button is among [buttons()], and the position. *)
Record QMouseEvent := mkQMouseEvent {
  button : MouseButton;
  leftHeld : bool;
  pos : QPoint
}.

(** What the painter is asked to stroke. *)
Inductive Shape :=
| Line (p q : QPoint)
| Rect (r : QRect)
| Ellipse (r : QRect).

(** [QPen(color, width, Qt::SolidLine, Qt::RoundCap, Qt::RoundJoin)]. *)
Record QPen := mkQPen { penColorOf : QRgb; penWidthOf : Z }.

Inductive CompositionMode :=
| CompositionMode_SourceOver
| CompositionMode_Clear.

(** The image [targetImg] points at becomes [f] of itself. *)
Definition paintTarget (f : QImage -> QImage) (w : MainWindow) : MainWindow :=
  match targetImg (canvas w) with
  | None => w
  | Some t =>
      match layers w !! t with
      | None => w
      | Some L => setLayers (<[t := setImage (f (image L)) L]> (layers w)) w
      end
  end.

(** [Canvas::setTool]. *)
Definition setTool (t : Tool) (w : MainWindow) : MainWindow :=
  let c := canvas w in
  setCanvas
    (mkCanvas (selectionRect c) (lassoPolygon c) (selecting c) (composite c)
       (imageOffset c) (targetImg c) (lastPoint c) (startPoint c) (penWidth c)
       (penColor c) (eraserMode c) (textItems c) (activeTextIndex c) (zoom c)
       t (_hasSelection c)) w.

(** [boundingRect.translated(position).contains(p)]. *)
Definition textItemContains (t : TextItem) (p : QPoint) : bool :=
  rectContains (boundingRect t) (px p - px (position t)) (py p - py (position t)).

(** The loop of [mousePressEvent] over [textItems], last item first: the
    index of the topmost item under [p]. *)
Fixpoint hitTextItem (ts : list TextItem) (i : nat) (p : QPoint) : option nat :=
  match ts with
  | [] => None
  | t :: rest =>
      match hitTextItem rest (S i) p with
      | Some j => Some j
      | None => if textItemContains t p then Some i else None
      end
  end.

Definition selectTextItem (t : TextItem) : TextItem :=
  mkTextItem (text t) (position t) (font t) (color t) (boundingRect t) true.

(** [Canvas::mousePressEvent].  [entry] is the outcome of the text prompt
    when the handler opens it: the accepted text with the bounding
    rectangle its font metrics give, or [None] when it was cancelled. *)
Definition mousePressEvent (ev : QMouseEvent) (entry : option (string * QRect))
    (w : MainWindow) : MainWindow :=
  let c := canvas w in
  match targetImage w with
  | None => w
  | Some target =>
      if negb (bool_decide (button ev = LeftButton)) then w
      else
        let imgPt := widgetToImage c (pos ev) (size target) in
        if bool_decide (imgPt = OUT_OF_BOUNDS) then w
        else if bool_decide (currentTool c = TEXT) then
          match hitTextItem (textItems c) 0 imgPt with
          | Some i =>
              let ts := alter selectTextItem i (textItems c) in
              setCanvas (setPoints imgPt (startPoint c)
                           (setTextItems ts (Z.of_nat i) c)) w
          | None =>
              match entry with
              | None => setCanvas (setTextItems (textItems c) (-1) c) w
              | Some (txt, bounds) =>
                  if decide (txt = "")
                  then setCanvas (setTextItems (textItems c) (-1) c) w
                  else
                    let item := mkTextItem txt imgPt "Arial,24" (penColor c)
                                  bounds false in
                    let ts := textItems c ++ [item] in
                    setCanvas (setTextItems ts (Z.of_nat (length ts) - 1) c) w
              end
          end
        else
          let c := setPoints imgPt imgPt c in
          let c :=
            match currentTool c with
            | RECT_SELECT =>
                setSelection (rectOfPoints imgPt imgPt) (lassoPolygon c) true
                  (_hasSelection c) c
            | LASSO_SELECT =>
                setSelection (selectionRect c) [imgPt] true (_hasSelection c) c
            | _ => c
            end in
          onStrokeStarted (setCanvas c w)
  end.

(** [Canvas::mouseReleaseEvent].  With [selecting] set the handler reads
    [targetImg->size()] with no null check: [None] stands for that
    undefined access. *)
Definition mouseReleaseEvent (ev : QMouseEvent) (w : MainWindow)
    : option MainWindow :=
  let c := canvas w in
  if bool_decide (button ev = LeftButton) && selecting c then
    match targetImage w with
    | None => None
    | Some target =>
        let imgPt := widgetToImage c (pos ev) (size target) in
        let '(r, poly) :=
          if bool_decide (imgPt = OUT_OF_BOUNDS)
          then (selectionRect c, lassoPolygon c)
          else
            match currentTool c with
            | RECT_SELECT => (setBottomRight (selectionRect c) imgPt, lassoPolygon c)
            | LASSO_SELECT => (selectionRect c, lassoPolygon c ++ [imgPt])
            | _ => (selectionRect c, lassoPolygon c)
            end in
        let has :=
          match currentTool c with
          | RECT_SELECT => negb (rectIsNull r)
          | LASSO_SELECT => negb (bool_decide (poly = []))
          | _ => false
          end in
        Some (onStrokeFinished (setCanvas (setSelection r poly false has c) w))
    end
  else Some w.

Definition moveTextItem (delta : QPoint) (t : TextItem) : TextItem :=
  mkTextItem (text t)
    (mkQPoint (px (position t) + px delta) (py (position t) + py delta))
    (font t) (color t) (boundingRect t) (selected t).

Section Strokes.

(** The raster engine's antialiased stroke of a shape's outline with a
    pen under a composition mode: what [QPainter::drawLine] leaves in
    the image. *)
Variable stroke : CompositionMode -> QPen -> Shape -> QImage -> QImage.

(** [Canvas::mouseMoveEvent].  The text branch reads [targetImg->size()]
    with no null check and [textItems[activeTextIndex]] with no check
    against the size of [textItems]: [None] stands for those undefined
    accesses. *)
Definition mouseMoveEvent (ev : QMouseEvent) (w : MainWindow)
    : option MainWindow :=
  let c := canvas w in
  if bool_decide (currentTool c = TEXT) && (0 <=? activeTextIndex c)
     && leftHeld ev
  then
    match targetImage w with
    | None => None
    | Some target =>
        let imgPt := widgetToImage c (pos ev) (size target) in
        if bool_decide (imgPt = OUT_OF_BOUNDS) then Some w
        else
          match textItems c !! Z.to_nat (activeTextIndex c) with
          | None => None
          | Some _ =>
              let ts := alter (moveTextItem (point_sub imgPt (lastPoint c)))
                              (Z.to_nat (activeTextIndex c)) (textItems c) in
              Some (setCanvas (setPoints imgPt (startPoint c)
                                 (setTextItems ts (activeTextIndex c) c)) w)
          end
    end
  else
    match targetImage w with
    | None => Some w
    | Some target =>
        if negb (leftHeld ev) then Some w
        else
          let imgPt := widgetToImage c (pos ev) (size target) in
          if bool_decide (imgPt = OUT_OF_BOUNDS) then Some w
          else
            let c :=
              match currentTool c with
              | RECT_SELECT =>
                  if selecting c
                  then setSelection (setBottomRight (selectionRect c) imgPt)
                         (lassoPolygon c) (selecting c) (_hasSelection c) c
                  else c
              | LASSO_SELECT =>
                  if selecting c
                  then setSelection (selectionRect c)
                         (lassoPolygon c ++ [imgPt]) (selecting c)
                         (_hasSelection c) c
                  else c
              | _ => c
              end in
            let w := setCanvas c w in
            match currentTool c with
            | BRUSH | ERASER =>
                let line := Line (lastPoint c) imgPt in
                let w :=
                  if eraserMode c
                  then paintTarget
                         (stroke CompositionMode_Clear
                            (mkQPen transparent (penWidth c)) line) w
                  else paintTarget
                         (stroke CompositionMode_SourceOver
                            (mkQPen (penColor c) (penWidth c)) line) w in
                Some (onStrokeFinished
                        (setCanvas (setPoints imgPt (startPoint c) c) w))
            | _ => Some w
            end
    end.

End Strokes.

(** ** The earlier revision of the canvas *)
Module Early.

(** [MainWindow::compositeLayers] of the earlier revision: layers have
    no opacity and are painted as they are. *)
Definition compositeLayers (w : MainWindow) : MainWindow :=
  match layers w with
  | [] => w
  | l0 :: rest =>
      setCompositeImage
        (fold_left (fun comp li =>
                      drawImage 1%float (mkQPoint 0 0) (image li) comp)
                   rest (image l0)) w
  end.

Definition onStrokeFinished (w : MainWindow) : MainWindow :=
  compositeLayers w.

(** [lastPoint = QPoint(-1, -1); startPoint = QPoint(-1, -1);]. *)
Definition resetPoints (w : MainWindow) : MainWindow :=
  setCanvas (setPoints OUT_OF_BOUNDS OUT_OF_BOUNDS (canvas w)) w.

Section Painter.

(** The raster engine's antialiased stroke of a shape's outline with a
    pen, which the program gets from [QPainter::drawLine], [drawRect]
    and [drawEllipse]. *)
Variable stroke : CompositionMode -> QPen -> Shape -> QImage -> QImage.

(** The shape the release handler commits for a tool. *)
Definition committedShape (t : Tool) (startPt endPt : QPoint)
    : option Shape :=
  match t with
  | LINE => Some (Line startPt endPt)
  | RECTANGLE => Some (Rect (normalized (rectOfPoints startPt endPt)))
  | CIRCLE => Some (Ellipse (normalized (rectOfPoints startPt endPt)))
  | _ => None
  end.

(** [Canvas::mousePressEvent] of the earlier revision. *)
Definition mousePressEvent (ev : QMouseEvent) (w : MainWindow) : MainWindow :=
  if bool_decide (button ev = LeftButton) then
    match targetImage w with
    | None => w
    | Some target =>
        let imgPt := widgetToImage (canvas w) (pos ev) (size target) in
        if bool_decide (imgPt = OUT_OF_BOUNDS) then w
        else onStrokeStarted
               (setCanvas (setPoints imgPt imgPt (canvas w)) w)
    end
  else w.

(** [Canvas::mouseReleaseEvent] of the earlier revision. *)
Definition mouseReleaseEvent (ev : QMouseEvent) (w : MainWindow) : MainWindow :=
  let c := canvas w in
  match targetImage w with
  | None => w
  | Some target =>
      if bool_decide (button ev = LeftButton) then
        let endPt := widgetToImage c (pos ev) (size target) in
        if bool_decide (endPt = OUT_OF_BOUNDS)
        then onStrokeFinished (resetPoints w)
        else
          match committedShape (currentTool c) (startPoint c) endPt with
          | Some shape =>
              let pen := mkQPen (penColor c) (penWidth c) in
              onStrokeFinished
                (resetPoints
                   (paintTarget
                      (stroke CompositionMode_SourceOver pen shape) w))
          | None => onStrokeFinished (resetPoints w)
          end
      else w
  end.

End Painter.

End Early.

(** ** Reading the operations on one layer *)

(** Two states with the same layers and the same active layer: they differ
    in what is displayed (composite, status text, tool state) only. *)
Definition sameDocument (a b : MainWindow) : Prop :=
  layers a = layers b /\ activeLayerIndex a = activeLayerIndex b.

(** What [pushUndoForActiveLayer], [undo] and [redo] do to the layer they
    work on. *)
Definition pushLayer (L : Layer) : Layer :=
  let u := undoStack L ++ [image L] in
  setUndoStack (if MAX_UNDO <? Z.of_nat (length u) then drop 1 u else u) L.

Definition undoLayer (L : Layer) : Layer :=
  match last (undoStack L) with
  | None => L
  | Some prev =>
      mkLayer (name L) prev (removelast (undoStack L))
        (redoStack L ++ [image L]) (opacity L)
  end.

Definition redoLayer (L : Layer) : Layer :=
  match last (redoStack L) with
  | None => L
  | Some next =>
      mkLayer (name L) next (undoStack L ++ [image L])
        (removelast (redoStack L)) (opacity L)
  end.

(** A buffer mutation preceded by its undo snapshot, as [clearCanvas], the
    filters, [cutSelection] and [pasteSelection] are built: the snapshot,
    then the pixels change by [f]; [clearRedo] tells whether the operation
    also calls [clearRedoForActiveLayer]. *)
Definition snapshotEdit (clearRedo : bool) (f : QImage -> QImage)
    (w : MainWindow) : MainWindow :=
  let w := paintActive f (pushUndoForActiveLayer w) in
  if clearRedo then clearRedoForActiveLayer w else w.

(** [edits n w w']: [w'] is reached from [w] by [n] such mutations, each
    followed by any change of what is displayed. *)
Inductive edits : nat -> MainWindow -> MainWindow -> Prop :=
| edits_refl w : edits 0 w w
| edits_step n w w1 w2 clearRedo f :
    edits n w w1 ->
    sameDocument (snapshotEdit clearRedo f w1) w2 ->
    edits (S n) w w2.

(** The layer a snapshotting mutation leaves. *)
Definition editLayer (clearRedo : bool) (f : QImage -> QImage) (L : Layer)
    : Layer :=
  mkLayer (name L) (f (image L)) (undoStack (pushLayer L))
    (if clearRedo then [] else redoStack L) (opacity L).


(** [onActive g]: the active layer becomes [g] of itself, nothing else
    changes; every guarded operation above has this shape on the document. *)
Definition onActive (g : Layer -> Layer) (w : MainWindow) : MainWindow :=
  match activeLayer w with
  | None => w
  | Some L => storeActiveLayer (g L) w
  end.

(** ** Small documents to run the program on *)

Definition red : QRgb := 0xffff0000.
Definition green : QRgb := 0xff00ff00.
Definition blue : QRgb := 0xff0000ff.
(** Half-transparent red, premultiplied. *)
Definition halfRed : QRgb := 0x80800000.

(** A 2 x 2 image whose top-left pixel is half transparent. *)
Definition image2x2 : QImage :=
  mkQImage Format_ARGB32_Premultiplied [[halfRed; blue]; [transparent; green]].

(** A 3 x 3 image of opaque pixels. *)
Definition image3x3 : QImage :=
  mkQImage Format_ARGB32_Premultiplied
    [[red; green; blue]; [green; blue; red]; [blue; red; green]].

(** A canvas as its constructor leaves it, showing [comp] and drawing
    into layer [target]. *)
Definition canvasOn (comp : QImage) (target : nat) (tool : Tool)
    (z : Dbl.double) : Canvas :=
  mkCanvas nullRect [] false comp (mkQPoint 0 0) (Some target) OUT_OF_BOUNDS
    OUT_OF_BOUNDS 6 0xff000000 false [] (-1) z tool false.

(** A window with the single layer [img], at zoom [z], tool [tool]. *)
Definition singleLayer (img : QImage) (tool : Tool) (z : Dbl.double)
    : MainWindow :=
  mkMainWindow (canvasOn img 0 tool z) "Ready"
    (mkQListWidget ["Background"] 0)
    [mkLayer "Background" img [] [] 1%float] 0 6 0xff000000 z nullImage.

(** A window with two layers, the top one active, as the constructor
    sets it up (on 2 x 2 images). *)
Definition twoLayers : MainWindow :=
  let bg := filled Format_ARGB32_Premultiplied 2 2 0xffffffff in
  let top := filled Format_ARGB32_Premultiplied 2 2 transparent in
  mkMainWindow (canvasOn bg 1 BRUSH 1%float) "Ready"
    (mkQListWidget ["Layer 1"; "Background"] 0)
    [mkLayer "Background" bg [] [] 1%float; mkLayer "Layer 1" top [] [] 1%float]
    1 6 0xff000000 1%float nullImage.

Definition leftPress (x y : Z) : QMouseEvent :=
  mkQMouseEvent LeftButton true (mkQPoint x y).
Definition leftMove (x y : Z) : QMouseEvent :=
  mkQMouseEvent LeftButton true (mkQPoint x y).
Definition leftRelease (x y : Z) : QMouseEvent :=
  mkQMouseEvent LeftButton false (mkQPoint x y).

(** A drag with the current tool from [(x0, y0)] to [(x1, y1)]. *)
Definition drag (x0 y0 x1 y1 : Z) (w : MainWindow) : option MainWindow :=
  mouseReleaseEvent (leftRelease x1 y1) (mousePressEvent (leftPress x0 y0) None w).

(** The buffer of the active layer. *)
Definition activeImage (w : MainWindow) : option QImage :=
  image <$> activeLayer w.

(** ** Scenarios *)

(** Select the whole 2 x 2 layer with the rectangle tool, copy it, clear
    the layer, undo the clearing: the redo stack now holds the cleared
    buffer. *)
Definition copiedClearedUndone : option MainWindow :=
  w ← drag 0 0 1 1 (singleLayer image2x2 RECT_SELECT 1%float);
  Some (undo (clearCanvas (copySelection w))).

(** The redo stack of the active layer. *)
Definition activeRedo (w : MainWindow) : option (list QImage) :=
  redoStack <$> activeLayer w.

(** A lasso drawn around the upper-left triangle of the 3 x 3 layer:
    press at (0,0), move to (2,0), move to (0,2), release there. *)
Definition lassoTriangle
    (stroke : CompositionMode -> QPen -> Shape -> QImage -> QImage)
    (w : MainWindow) : option MainWindow :=
  let w := mousePressEvent (leftPress 0 0) None (setTool LASSO_SELECT w) in
  w ← mouseMoveEvent stroke (leftMove 2 0) w;
  w ← mouseMoveEvent stroke (leftMove 0 2) w;
  mouseReleaseEvent (leftRelease 0 2) w.

Definition triangle : list QPoint :=
  [mkQPoint 0 0; mkQPoint 2 0; mkQPoint 0 2; mkQPoint 0 2].

(** The buffer [ensureTargetSizeMatchesWidget] leaves for a target [img]
    under the composite [comp]: [img] itself when it covers the composite,
    otherwise [img] drawn at the origin of a transparent image of the
    larger of the two sizes. *)
Definition paddedTo (comp img : QImage) : QImage :=
  if (width img <? width comp) || (height img <? height comp)
  then drawImage 1%float (mkQPoint 0 0) img
         (filled Format_ARGB32_Premultiplied
            (Z.max (width img) (width comp)) (Z.max (height img) (height comp))
            transparent)
  else img.


(** The 3 x 3 layer with everything selected by a rectangle drag. *)
Definition selectAll3x3 : MainWindow :=
  default (singleLayer image3x3 RECT_SELECT 1%float)
    (drag 0 0 2 2 (singleLayer image3x3 RECT_SELECT 1%float)).

(** ** More of MainWindow: layers *)

(** [QString("Layer %1").arg(n)]. *)
Definition layerName (n : Z) : string := "Layer " +:+ pretty n.

(** [MainWindow::addLayer].  [layers[0]] is read with no check: [None]
    stands for that undefined access on an empty stack. *)
Definition addLayer (w : MainWindow) : option MainWindow :=
  match layers w with
  | [] => None
  | l0 :: _ =>
      let nm := layerName (layerCount w) in
      let l := mkLayer nm
                 (filled Format_ARGB32_Premultiplied (width (image l0))
                    (height (image l0)) transparent)
                 [] [] 1%float in
      let w := setLayers (layers w ++ [l]) w in
      let q := layerListWidget w in
      let w := setLayerListWidget (mkQListWidget (nm :: items q) 0) w in
      let w := setActiveLayerIndex (layerCount w - 1) w in
      let w := setTargetToActive w in
      let w := compositeLayers w in
      Some (setText ("Added " +:+ nm) w)
  end.

(** [MainWindow::activateLayer]. *)
Definition activateLayer (uiRow : Z) (w : MainWindow) : MainWindow :=
  let idx := layerCount w - 1 - uiRow in
  if (idx <? 0) || (layerCount w <=? idx) then w
  else
    let w := setActiveLayerIndex idx w in
    let w := setTargetToActive w in
    match activeLayer w with
    | None => w
    | Some L => setText ("Active layer: " +:+ name L) w
    end.

(** [MainWindow::duplicateLayer]. *)
Definition duplicateLayer (w : MainWindow) : MainWindow :=
  match activeLayer w with
  | None => w
  | Some L =>
      let copy := mkLayer (name L +:+ " Copy") (image L) (undoStack L)
                    (redoStack L) (opacity L) in
      let w := setLayers (layers w ++ [copy]) w in
      let q := layerListWidget w in
      let w := setLayerListWidget (mkQListWidget (name copy :: items q) 0) w in
      let w := setActiveLayerIndex (layerCount w - 1) w in
      let w := setTargetToActive w in
      let w := compositeLayers w in
      setText ("Layer duplicated: " +:+ name copy) w
  end.

Definition setName (s : string) (L : Layer) : Layer :=
  mkLayer s (image L) (undoStack L) (redoStack L) (opacity L).
Definition setOpacity (o : Dbl.double) (L : Layer) : Layer :=
  mkLayer (name L) (image L) (undoStack L) (redoStack L) o.

(** [MainWindow::renameLayer].  [answer] is what the prompt returned when
    accepted.  The prompt is given [layers[activeLayerIndex].name], and
    the row [count - 1 - activeLayerIndex] of the list is written, both
    with no check. *)
Definition renameLayer (answer : option string) (w : MainWindow)
    : option MainWindow :=
  match activeLayer w with
  | None => None
  | Some L =>
      match answer with
      | None => Some w
      | Some newName =>
          if decide (newName = "") then Some w
          else
            let w := storeActiveLayer (setName newName L) w in
            let q := layerListWidget w in
            let uiIndex := Z.of_nat (length (items q)) - 1 - activeLayerIndex w in
            if (uiIndex <? 0) || (Z.of_nat (length (items q)) <=? uiIndex)
            then None
            else
              let rows := <[Z.to_nat uiIndex := newName]> (items q) in
              let w := setLayerListWidget (mkQListWidget rows (currentRow q)) w in
              Some (setText ("Layer renamed: " +:+ newName) w)
      end
  end.

(** [MainWindow::openPNGAsNewLayer].  [QFileInfo::baseName]: the file
    name up to its first dot. *)
Fixpoint upToDot (s : string) : string :=
  match s with
  | EmptyString => EmptyString
  | String c rest =>
      if bool_decide (c = "."%char) then EmptyString
      else String c (upToDot rest)
  end.

Definition baseNameOf (path : string) : string := upToDot (fileNameOf path).

Definition openPNGAsNewLayer (fileName : string) (loaded : option QImage)
    (w : MainWindow) : MainWindow * list Notice :=
  if decide (fileName = "") then (w, [])
  else
    match loaded with
    | None => (w, [Warning "Open failed" "Could not open PNG image."])
    | Some img =>
        let l := mkLayer (baseNameOf fileName) (convertToPremultiplied img)
                   [] [] 1%float in
        let w := setLayers (layers w ++ [l]) w in
        let q := layerListWidget w in
        let w := setLayerListWidget (mkQListWidget (name l :: items q) 0) w in
        let w := setActiveLayerIndex (layerCount w - 1) w in
        let w := setTargetToActive w in
        let w := compositeLayers w in
        (setText (fileName +:+ " loaded into new layer: " +:+ name l) w, [])
    end.

(** The entries of the layer panel's context menu. *)
Inductive MenuAction := DuplicateLayer | DeleteLayer | RenameLayer | ChangeOpacity.

Section Formatting.

(** [QString("%1").arg(double)]: the text of a number. *)
Variable numberText : Dbl.double -> string.

(** [MainWindow::changeLayerOpacity].  [answer] is the number the prompt
    returned when accepted; the prompt only returns numbers from 0.0 to
    1.0.  It is given [layers[activeLayerIndex].opacity] with no check. *)
Definition changeLayerOpacity (answer : option Dbl.double) (w : MainWindow)
    : option MainWindow :=
  match activeLayer w with
  | None => None
  | Some L =>
      match answer with
      | None => Some w
      | Some op =>
          let w := storeActiveLayer (setOpacity op L) w in
          let w := compositeLayers w in
          Some (setText ("Opacity: " +:+ numberText op) w)
      end
  end.

(** [MainWindow::onLayerContextMenu]: [row] is the row of the item under
    the pointer, [selected] the entry picked in the menu, [nameAnswer] and
    [opacityAnswer] what the prompts return if they are opened. *)
Definition onLayerContextMenu (row : option nat) (selected : option MenuAction)
    (nameAnswer : option string) (opacityAnswer : option Dbl.double)
    (w : MainWindow) : option (MainWindow * list Notice) :=
  match row with
  | None => Some (w, [])
  | Some uiIndex =>
      if decide (length (items (layerListWidget w)) <= uiIndex)%nat
      then Some (w, [])
      else
        match selected with
        | None => Some (w, [])
        | Some action =>
            let w := setActiveLayerIndex (layerCount w - 1 - Z.of_nat uiIndex) w in
            match activeLayer w with
            | None => None
            | Some _ =>
                let w := setTargetToActive w in
                match action with
                | DuplicateLayer => Some (duplicateLayer w, [])
                | DeleteLayer => deleteLayer w
                | RenameLayer => (fun w => (w, [])) <$> renameLayer nameAnswer w
                | ChangeOpacity =>
                    (fun w => (w, [])) <$> changeLayerOpacity opacityAnswer w
                end
            end
        end
  end.

End Formatting.

(** ** More of Canvas and of the tool bar *)

(** [Canvas::setZoom]. *)
Definition setZoom (z : Dbl.double) (w : MainWindow) : MainWindow :=
  if Dbl.le z 0%float then w
  else
    let c := canvas w in
    setCanvas
      (mkCanvas (selectionRect c) (lassoPolygon c) (selecting c) (composite c)
         (imageOffset c) (targetImg c) (lastPoint c) (startPoint c)
         (penWidth c) (penColor c) (eraserMode c) (textItems c)
         (activeTextIndex c) z (currentTool c) (_hasSelection c)) w.

Definition setPen (width : Z) (col : QRgb) (eraser : bool) (c : Canvas) : Canvas :=
  mkCanvas (selectionRect c) (lassoPolygon c) (selecting c) (composite c)
    (imageOffset c) (targetImg c) (lastPoint c) (startPoint c) width col
    eraser (textItems c) (activeTextIndex c) (zoom c) (currentTool c)
    (_hasSelection c).

(** [Canvas::setPenColor]: it also leaves the eraser mode. *)
Definition setPenColor (col : QRgb) (w : MainWindow) : MainWindow :=
  setCanvas (setPen (penWidth (canvas w)) col false (canvas w)) w.

(** [Canvas::setPenWidth]. *)
Definition setPenWidth (n : Z) (w : MainWindow) : MainWindow :=
  setCanvas (setPen n (penColor (canvas w)) (eraserMode (canvas w)) (canvas w)) w.

(** [Canvas::setEraserMode]. *)
Definition setEraserMode (on : bool) (w : MainWindow) : MainWindow :=
  setCanvas (setPen (penWidth (canvas w)) (penColor (canvas w)) on (canvas w)) w.

Definition setBrush (size : Z) (col : QRgb) (w : MainWindow) : MainWindow :=
  mkMainWindow (canvas w) (statusLabel w) (layerListWidget w) (layers w)
    (activeLayerIndex w) size col (zoomFactor w) (selectionBuffer w).

(** [MainWindow::changeBrushSize]. *)
Definition changeBrushSize (v : Z) (w : MainWindow) : MainWindow :=
  setText ("Brush size: " +:+ pretty v)
    (setPenWidth v (setBrush v (brushColor w) w)).

Section Text.

(** [QPainter::drawText] of one item with its font and colour. *)
Variable drawText : TextItem -> QImage -> QImage.

(** [Canvas::commitTextItems]. *)
Definition commitTextItems (w : MainWindow) : MainWindow :=
  match targetImage w with
  | None => w
  | Some _ =>
      match textItems (canvas w) with
      | [] => w
      | ts =>
          let w := paintTarget (fun img => fold_left (fun i t => drawText t i) ts img) w in
          let w := setCanvas (setTextItems [] (-1) (canvas w)) w in
          onStrokeFinished w
      end
  end.

(** [MainWindow::selectBrush]. *)
Definition selectBrush (w : MainWindow) : MainWindow :=
  let w := commitTextItems w in
  let w := setEraserMode false w in
  let w := setPenColor (brushColor w) w in
  let w := setPenWidth (brushSize w) w in
  let w := setTool BRUSH w in
  setText "Brush selected" w.

(** [MainWindow::selectEraser]. *)
Definition selectEraser (w : MainWindow) : MainWindow :=
  let w := commitTextItems w in
  let w := setEraserMode true w in
  let w := setPenWidth (brushSize w) w in
  let w := setTool ERASER w in
  setText "Eraser selected" w.

(** The tool bar's "Text (T)" action. *)
Definition selectText (w : MainWindow) : MainWindow :=
  setText "Text tool" (setTool TEXT (commitTextItems w)).

End Text.

(** [Canvas::resizeEvent]. *)
Definition resizeEvent (w : MainWindow) : MainWindow :=
  ensureTargetSizeMatchesWidget w.

Definition setZoomFactor (z : Dbl.double) (w : MainWindow) : MainWindow :=
  mkMainWindow (canvas w) (statusLabel w) (layerListWidget w) (layers w)
    (activeLayerIndex w) (brushSize w) (brushColor w) z (selectionBuffer w).

Section Labels.

(** [QString::number(z, 'f', 1)] and [QColor::name()]. *)
Variable fixedText : Dbl.double -> string.
Variable colorName : QRgb -> string.

(** [MainWindow::zoomIn]; the step is the double nearest to 0.1. *)
Definition zoomIn (w : MainWindow) : MainWindow :=
  let z := PrimFloat.add (zoomFactor w) 0x1.999999999999ap-4%float in
  let z := if Dbl.lt 5%float z then 5%float else z in
  let w := setZoom z (setZoomFactor z w) in
  setText ("Zoom: " +:+ fixedText z +:+ "x") w.

(** [MainWindow::zoomOut]; the floor is the double nearest to 0.2. *)
Definition zoomOut (w : MainWindow) : MainWindow :=
  let z := PrimFloat.sub (zoomFactor w) 0x1.999999999999ap-4%float in
  let z := if Dbl.lt z 0x1.999999999999ap-3%float
           then 0x1.999999999999ap-3%float else z in
  let w := setZoom z (setZoomFactor z w) in
  setText ("Zoom: " +:+ fixedText z +:+ "x") w.

(** [MainWindow::chooseColor]: [c] is the colour the dialog returned,
    [None] when it is not valid (the dialog was cancelled). *)
Definition chooseColor (c : option QRgb) (w : MainWindow) : MainWindow :=
  match c with
  | None => w
  | Some col =>
      let w := setPenColor col (setBrush (brushSize w) col w) in
      setText ("Color chosen: " +:+ colorName col) w
  end.

(** [MainWindow::setColorFromButton]: [c] is the colour named by the
    sender's property, [None] when there is no such button, property or
    valid colour. *)
Definition setColorFromButton (c : option QRgb) (w : MainWindow) : MainWindow :=
  match c with
  | None => w
  | Some col =>
      let w := setBrush (brushSize w) col w in
      let w := if activeOutOfRange w then w else setPenColor col w in
      setText ("Color: " +:+ colorName col) w
  end.

End Labels.

(** [MainWindow::saveFile]: [fileName] is what the file dialog returned
    and [saved] whether [QImage::save] succeeded; the composite is
    written to the file, the window keeps its state but for the status
    line. *)
Definition saveFile (fileName : string) (saved : bool) (w : MainWindow)
    : MainWindow * list Notice :=
  if decide (fileName = "") then (w, [])
  else if saved then (setText (fileNameOf fileName +:+ " saved") w, [])
  else (w, [Warning "Save failed" "Unable to save file."]).

(** The loop of [mouseDoubleClickEvent] over [textItems], first item
    first: the index of the first item under [p]. *)
Fixpoint firstTextItem (ts : list TextItem) (i : nat) (p : QPoint)
    : option nat :=
  match ts with
  | [] => None
  | t :: rest =>
      if textItemContains t p then Some i else firstTextItem rest (S i) p
  end.

(** What the "Edit Text" dialog gives when accepted: the text, the
    colour, the font, and the bounding rectangle the metrics of that
    font give the text. *)
Record TextEdit := mkTextEdit {
  newText : string;
  newColor : QRgb;
  newFont : string;
  newBounds : QRect
}.

Definition editTextItem (e : TextEdit) (t : TextItem) : TextItem :=
  mkTextItem (newText e) (position t) (newFont e) (newColor e) (newBounds e)
    (selected t).

(** [Canvas::mouseDoubleClickEvent]; [answer] is [None] when the dialog
    is rejected.  The point is not compared with [QPoint(-1, -1)]. *)
Definition mouseDoubleClickEvent (ev : QMouseEvent) (answer : option TextEdit)
    (w : MainWindow) : MainWindow :=
  let c := canvas w in
  if negb (bool_decide (currentTool c = TEXT)) then w
  else
    match targetImage w with
    | None => w
    | Some target =>
        let imgPt := widgetToImage c (pos ev) (size target) in
        match firstTextItem (textItems c) 0 imgPt with
        | None => w
        | Some i =>
            match answer with
            | None => w
            | Some e =>
                let ts := alter (editTextItem e) i (textItems c) in
                setCanvas (setTextItems ts (activeTextIndex c) c) w
            end
        end
    end.

(** The tool bar's actions for the shape and selection tools. *)
Definition selectTool (t : Tool) (label : string) (w : MainWindow) : MainWindow :=
  setText label (setTool t w).

(** ** Documents as the program keeps them *)

(** A buffer as Qt holds it: every scan line has the width of the image,
    every pixel is a 32-bit word. *)
Definition wellFormed (i : QImage) : Prop :=
  forall y row, scanLines i !! y = Some row ->
    Z.of_nat (length row) = width i /\
    forall x c, row !! x = Some c -> 0 <= c < 2 ^ 32.

(** The state every handler expects and leaves: at least one layer, the
    active index in range, the canvas drawing into the active layer, and
    the panel listing the layer names, top layer first. *)
Definition consistent (w : MainWindow) : Prop :=
  0 <= activeLayerIndex w < layerCount w /\
  targetImg (canvas w) = Some (Z.to_nat (activeLayerIndex w)) /\
  items (layerListWidget w) = reverse (name <$> layers w).

(** The timeline of a layer: the undo stack, the buffer, and the redo
    stack from the entry that comes back first. *)
Definition timeline (L : Layer) : list QImage :=
  undoStack L ++ image L :: reverse (redoStack L).

(** A buffer all of whose pixels are opaque 32-bit words. *)
Definition opaqueImage (i : QImage) : Prop :=
  forall y row x c, scanLines i !! y = Some row -> row !! x = Some c ->
                    0xff000000 <= c < 2 ^ 32.

(** What [consistent] looks at: the layer names, the active index, the
    target of the canvas and the rows of the panel. *)
Definition sameShape (a b : MainWindow) : Prop :=
  name <$> layers a = name <$> layers b /\
  activeLayerIndex a = activeLayerIndex b /\
  targetImg (canvas a) = targetImg (canvas b) /\
  items (layerListWidget a) = items (layerListWidget b).

(** ** The handlers as one transition function *)

(** What the user and the collaborators can make happen: each event
    carries the answers of the dialogs the handler opens. *)
Inductive Event :=
| OnUndo | OnRedo | OnClearCanvas
| OnRotateLeft | OnRotateRight | OnFlipHorizontal | OnFlipVertical
| OnGrayscale (accepted : bool) | OnInvertColors (accepted : bool)
| OnCopy | OnCut | OnPaste
| OnAddLayer | OnRemoveLayer | OnActivateLayer (uiRow : Z)
| OnLayerContextMenu (row : option nat) (selected : option MenuAction)
    (nameAnswer : option string) (opacityAnswer : option Dbl.double)
| OnOpenFile (fileName : string) (loaded : option QImage)
| OnOpenPNGAsNewLayer (fileName : string) (loaded : option QImage)
| OnMousePress (ev : QMouseEvent) (entry : option (string * QRect))
| OnMouseMove (ev : QMouseEvent)
| OnMouseRelease (ev : QMouseEvent)
| OnSelectBrush | OnSelectEraser | OnSelectText
| OnSelectTool (t : Tool) (label : string)
| OnChangeBrushSize (v : Z)
| OnSetZoom (z : Dbl.double)
| OnZoomIn | OnZoomOut
| OnChooseColor (c : option QRgb)
| OnSetColorFromButton (c : option QRgb)
| OnSaveFile (fileName : string) (saved : bool)
| OnMouseDoubleClick (ev : QMouseEvent) (answer : option TextEdit)
| OnResize.

Section Handlers.

Variable stroke : CompositionMode -> QPen -> Shape -> QImage -> QImage.
Variable drawText : TextItem -> QImage -> QImage.
Variable numberText : Dbl.double -> string.
Variable fixedText : Dbl.double -> string.
Variable colorName : QRgb -> string.

(** The handler of an event; [None] when it makes an undefined access. *)
Definition handle (e : Event) (w : MainWindow) : option MainWindow :=
  match e with
  | OnUndo => Some (undo w)
  | OnRedo => Some (redo w)
  | OnClearCanvas => Some (clearCanvas w)
  | OnRotateLeft => Some (rotateLeft w)
  | OnRotateRight => Some (rotateRight w)
  | OnFlipHorizontal => Some (flipHorizontal w)
  | OnFlipVertical => Some (flipVertical w)
  | OnGrayscale a => Some (grayscale a w)
  | OnInvertColors a => Some (invertColors a w)
  | OnCopy => Some (copySelection w)
  | OnCut => cutSelection w
  | OnPaste => pasteSelection w
  | OnAddLayer => addLayer w
  | OnRemoveLayer => fst <$> removeLayer w
  | OnActivateLayer r => Some (activateLayer r w)
  | OnLayerContextMenu r s n o =>
      fst <$> onLayerContextMenu numberText r s n o w
  | OnOpenFile f l => fst <$> openFile f l w
  | OnOpenPNGAsNewLayer f l => Some (fst (openPNGAsNewLayer f l w))
  | OnMousePress ev entry => Some (mousePressEvent ev entry w)
  | OnMouseMove ev => mouseMoveEvent stroke ev w
  | OnMouseRelease ev => mouseReleaseEvent ev w
  | OnSelectBrush => Some (selectBrush drawText w)
  | OnSelectEraser => Some (selectEraser drawText w)
  | OnSelectText => Some (selectText drawText w)
  | OnSelectTool t label => Some (selectTool t label w)
  | OnChangeBrushSize v => Some (changeBrushSize v w)
  | OnSetZoom z => Some (setZoom z w)
  | OnZoomIn => Some (zoomIn fixedText w)
  | OnZoomOut => Some (zoomOut fixedText w)
  | OnChooseColor c => Some (chooseColor colorName c w)
  | OnSetColorFromButton c => Some (setColorFromButton colorName c w)
  | OnSaveFile f saved => Some (fst (saveFile f saved w))
  | OnMouseDoubleClick ev answer => Some (mouseDoubleClickEvent ev answer w)
  | OnResize => Some (resizeEvent w)
  end.

(** A session: the events handled one after the other. *)
Fixpoint run (es : list Event) (w : MainWindow) : option MainWindow :=
  match es with
  | [] => Some w
  | e :: es' =>
      match handle e w with
      | None => None
      | Some w' => run es' w'
      end
  end.

End Handlers.

(** [MainWindow::MainWindow] with [Canvas::Canvas]: a white background
    and a transparent layer of 1600 x 1200, the top one active, a
    composite of 1200 x 800 replaced by the first [compositeLayers]. *)
Definition white : QRgb := 0xffffffff.

Definition initialWindow : MainWindow :=
  let c := mkCanvas nullRect [] false
             (filled Format_ARGB32_Premultiplied 1200 800 white)
             (mkQPoint 0 0) None OUT_OF_BOUNDS OUT_OF_BOUNDS 6 0xff000000
             false [] (-1) 1%float BRUSH false in
  let bg := mkLayer "Background"
              (filled Format_ARGB32_Premultiplied 1600 1200 white) [] []
              1%float in
  let top := mkLayer "Layer 1"
               (filled Format_ARGB32_Premultiplied 1600 1200 transparent)
               [] [] 1%float in
  let w := mkMainWindow c "Ready" (mkQListWidget ["Layer 1"; "Background"] 0)
             [bg; top] 1 6 0xff000000 1%float nullImage in
  let w := setTargetToActive w in
  let w := compositeLayers w in
  setText ("Ready - active layer: " +:+ "Layer 1") w.

(** ** More scenarios *)

(** The 2 x 2 layer, one of whose pixels is half transparent, with
    everything selected by a rectangle drag. *)
Definition selectAll2x2 : MainWindow :=
  default (singleLayer image2x2 RECT_SELECT 1%float)
    (drag 0 0 1 1 (singleLayer image2x2 RECT_SELECT 1%float)).

(** A layer of 3 x 1 pixels, the last one half transparent. *)
Definition image3x1 : QImage :=
  mkQImage Format_ARGB32_Premultiplied [[red; green; halfRed]].

(** ** Gestures *)

(** While a gesture lasts: the document is [ls] with the buffer of layer
    [t] repainted, and the canvas still draws into layer [t], the active
    one, with the tool [tool]. *)
Definition midStroke (ls : list Layer) (t : nat) (Lb : Layer) (tool : Tool)
    (w : MainWindow) : Prop :=
  activeLayerIndex w = Z.of_nat t /\
  targetImg (canvas w) = Some t /\
  currentTool (canvas w) = tool /\
  exists img, layers w = <[t := setImage img Lb]> ls.

(** A painter that fills the image with one colour whatever the shape. *)
Definition floodStroke (_ : CompositionMode) (pen : QPen) (_ : Shape)
    (i : QImage) : QImage :=
  fill (penColorOf pen) i.

(** Two text items on the 3 x 3 layer, typed one after the other: "a"
    at (1,1) covering the pixels from (1,1) to (2,2), then "b" at (0,0)
    covering the whole layer. *)
Definition twoTexts : MainWindow :=
  mousePressEvent (leftPress 0 0) (Some ("b", mkQRect 0 0 2 2))
    (mousePressEvent (leftPress 1 1) (Some ("a", mkQRect 0 0 1 1))
       (singleLayer image3x3 TEXT 1%float)).

(** The 3 x 1 layer under a display of 3 x 3, as after opening a small
    file. *)
Definition singleLayer3x1Under3x3 : MainWindow :=
  mkMainWindow (canvasOn image3x3 0 BRUSH 1%float) "Ready"
    (mkQListWidget ["Background"] 0)
    [mkLayer "Background" image3x1 [] [] 1%float] 0 6 0xff000000 1%float
    nullImage.

(** The 3 x 3 layer after a rectangle drag from its bottom-right pixel
    back to its top-left one. *)
Definition selectBackwards3x3 : MainWindow :=
  default (singleLayer image3x3 RECT_SELECT 1%float)
    (drag 2 2 0 0 (singleLayer image3x3 RECT_SELECT 1%float)).

(** A text painter that marks the pixel at the item's position with the
    item's colour. *)
Definition dotText (t : TextItem) (i : QImage) : QImage :=
  mapPixels (fun x y c =>
               if (x =? px (position t)) && (y =? py (position t))
               then color t else c) i.

(** ** Pixels as channels *)

(** Division by 255 as [BYTE_MUL] rounds it. *)
Definition div255 (t : Z) : Z := (t + t / 256 + 128) / 256.

(** The four channels of a pixel word, alpha first. *)
Definition channels : list (QRgb -> Z) := [qAlpha; qRed; qGreen; qBlue].

(** A pixel word of 32 bits. *)
Definition word (c : QRgb) : Prop := 0 <= c < 2 ^ 32.

(** Every scan line has the width of the image, as in every [QImage]. *)
Definition rectangular (i : QImage) : Prop :=
  forall y row, scanLines i !! y = Some row ->
                Z.of_nat (length row) = width i.

(** White under red at half opacity, both 2 x 2. *)
Definition redOverWhite : MainWindow :=
  let bg := filled Format_ARGB32_Premultiplied 2 2 0xffffffff in
  let top := filled Format_ARGB32_Premultiplied 2 2 red in
  mkMainWindow (canvasOn bg 1 BRUSH 1%float) "Ready"
    (mkQListWidget ["Layer 1"; "Background"] 0)
    [mkLayer "Background" bg [] [] 1%float;
     mkLayer "Layer 1" top [] [] 0.5%float]
    1 6 0xff000000 1%float nullImage.

(** ** The active text item *)

(** The index of the active text item is that of an item, when it is
    not negative. *)
Definition textIndexValid (w : MainWindow) : Prop :=
  activeTextIndex (canvas w) < Z.of_nat (length (textItems (canvas w))).

(** Two states with the same text items and the same active item. *)
Definition sameText (a b : MainWindow) : Prop :=
  textItems (canvas a) = textItems (canvas b) /\
  activeTextIndex (canvas a) = activeTextIndex (canvas b).

(** The 2 x 2 layer after a lasso gesture from (0,0) to (1,1) and a
    switch to the rectangle-selection tool: a selection is present and
    its rectangle is still the null one the canvas starts with. *)
Definition lassoThenRect2x2 : option MainWindow :=
  w ← mouseReleaseEvent (leftRelease 1 1)
        (mousePressEvent (leftPress 0 0) None
           (singleLayer image2x2 LASSO_SELECT 1%float));
  Some (selectTool RECT_SELECT "Rect Select" w).
(** * Properties *)

(** ** The active layer under the field updates *)

Lemma activeLayer_Some w L :
  activeLayer w = Some L ->
  layers w !! Z.to_nat (activeLayerIndex w) = Some L /\
  activeOutOfRange w = false.
Proof.
  unfold activeLayer. destruct (activeOutOfRange w); [done | auto].
Qed.

Lemma activeLayer_None w :
  activeLayer w = None -> activeOutOfRange w = true.
Proof.
  unfold activeLayer, activeOutOfRange, layerCount.
  destruct (_ || _) eqn:E; [done |].
  intros H. apply lookup_ge_None in H.
  apply orb_false_iff in E as [E1 E2].
  apply Z.ltb_ge in E1. apply Z.leb_gt in E2. lia.
Qed.

Lemma activeLayer_sameDocument a b :
  sameDocument a b -> activeLayer a = activeLayer b.
Proof.
  intros [Hl Hi]. unfold activeLayer, activeOutOfRange, layerCount.
  by rewrite Hl, Hi.
Qed.

Lemma sameDocument_refl w : sameDocument w w.
Proof. done. Qed.

Lemma sameDocument_trans a b c :
  sameDocument a b -> sameDocument b c -> sameDocument a c.
Proof. intros [? ?] [? ?]. split; congruence. Qed.

Lemma sameDocument_setText s w : sameDocument (setText s w) w.
Proof. done. Qed.

Lemma sameDocument_compositeLayers w : sameDocument (compositeLayers w) w.
Proof. unfold compositeLayers. by destruct (layers w). Qed.

Lemma sameDocument_setSelectionBuffer b w :
  sameDocument (setSelectionBuffer b w) w.
Proof. done. Qed.

Lemma activeLayer_store w L L' :
  activeLayer w = Some L -> activeLayer (storeActiveLayer L' w) = Some L'.
Proof.
  intros H. destruct (activeLayer_Some _ _ H) as [Hl Hr].
  unfold activeLayer, activeOutOfRange, layerCount in *. simpl.
  rewrite length_insert, Hr.
  apply list_lookup_insert_eq. by eapply lookup_lt_Some.
Qed.

Lemma layers_store_same w L :
  activeLayer w = Some L -> layers (storeActiveLayer L w) = layers w.
Proof.
  intros H. destruct (activeLayer_Some _ _ H) as [Hl _]. simpl.
  by apply list_insert_id.
Qed.

Lemma layers_store_store w L1 L2 :
  layers (storeActiveLayer L2 (storeActiveLayer L1 w)) =
  layers (storeActiveLayer L2 w).
Proof. simpl. apply list_insert_insert_eq. Qed.

(** ** Each operation, read on the active layer *)

Lemma activeLayer_pushUndo w :
  activeLayer (pushUndoForActiveLayer w) = pushLayer <$> activeLayer w.
Proof.
  unfold pushUndoForActiveLayer.
  destruct (activeLayer w) as [L|] eqn:E; simpl; [| by rewrite E].
  by erewrite activeLayer_store.
Qed.

Lemma activeLayer_paintActive f w :
  activeLayer (paintActive f w) =
  (fun L => setImage (f (image L)) L) <$> activeLayer w.
Proof.
  unfold paintActive.
  destruct (activeLayer w) as [L|] eqn:E; simpl; [| by rewrite E].
  by erewrite activeLayer_store.
Qed.

Lemma activeLayer_clearRedo w :
  activeLayer (clearRedoForActiveLayer w) = setRedoStack [] <$> activeLayer w.
Proof.
  unfold clearRedoForActiveLayer.
  destruct (activeLayer w) as [L|] eqn:E; simpl; [| by rewrite E].
  by erewrite activeLayer_store.
Qed.

Lemma activeLayer_undo w :
  activeLayer (undo w) = undoLayer <$> activeLayer w.
Proof.
  unfold undo, undoLayer.
  destruct (activeLayer w) as [L|] eqn:E; simpl; [| by rewrite E].
  destruct (last (undoStack L)) as [prev|]; [| done].
  rewrite (activeLayer_sameDocument _ _ (sameDocument_setText _ _)).
  rewrite (activeLayer_sameDocument _ _ (sameDocument_compositeLayers _)).
  by erewrite activeLayer_store.
Qed.

Lemma activeLayer_redo w :
  activeLayer (redo w) = redoLayer <$> activeLayer w.
Proof.
  unfold redo, redoLayer.
  destruct (activeLayer w) as [L|] eqn:E; simpl; [| by rewrite E].
  destruct (last (redoStack L)) as [next|]; [| done].
  rewrite (activeLayer_sameDocument _ _ (sameDocument_setText _ _)).
  rewrite (activeLayer_sameDocument _ _ (sameDocument_compositeLayers _)).
  by erewrite activeLayer_store.
Qed.

Lemma activeLayer_iter_undo n w :
  activeLayer (Nat.iter n undo w) = Nat.iter n undoLayer <$> activeLayer w.
Proof.
  induction n as [|n IH]; simpl.
  - by destruct (activeLayer w).
  - rewrite activeLayer_undo, IH. by destruct (activeLayer w).
Qed.

Lemma activeLayer_snapshotEdit b f w :
  activeLayer (snapshotEdit b f w) = editLayer b f <$> activeLayer w.
Proof.
  unfold snapshotEdit. destruct b.
  - rewrite activeLayer_clearRedo, activeLayer_paintActive,
      activeLayer_pushUndo. by destruct (activeLayer w).
  - rewrite activeLayer_paintActive, activeLayer_pushUndo.
    by destruct (activeLayer w) as [[]|].
Qed.

(** ** Undo and redo *)

Lemma undoLayer_snoc n i u x r o :
  undoLayer (mkLayer n i (u ++ [x]) r o) = mkLayer n x u (r ++ [i]) o.
Proof. unfold undoLayer. simpl. by rewrite last_snoc, removelast_last. Qed.

Lemma redoLayer_undoLayer L :
  undoStack L <> [] -> redoLayer (undoLayer L) = L.
Proof.
  destruct L as [n i u r o]. simpl. intros Hu.
  destruct (exists_last Hu) as (u' & x & ->).
  rewrite undoLayer_snoc. unfold redoLayer. simpl.
  by rewrite last_snoc, removelast_last.
Qed.

(** Popping [length snaps] snapshots off a stack that ends with [snaps]
    brings back the oldest of them. *)
Lemma iter_undoLayer snaps : forall n i p r o,
  image (Nat.iter (length snaps) undoLayer (mkLayer n i (p ++ snaps) r o))
    = hd i snaps /\
  undoStack (Nat.iter (length snaps) undoLayer (mkLayer n i (p ++ snaps) r o))
    = p.
Proof.
  induction snaps as [|x snaps IH] using rev_ind; intros n i p r o; simpl.
  - by rewrite app_nil_r.
  - rewrite length_app, Nat.add_comm. simpl Nat.add.
    rewrite Nat.iter_succ_r, app_assoc, undoLayer_snoc.
    destruct (IH n x p (r ++ [i]) o) as [Hi Hu]. split; [| done].
    rewrite Hi. by destruct snaps.
Qed.

Lemma iter_undoLayer_stack k snaps n i p r o :
  (k <= length snaps)%nat ->
  undoStack (Nat.iter k undoLayer (mkLayer n i (p ++ snaps) r o)) =
  p ++ take (length snaps - k) snaps.
Proof.
  intros Hk.
  destruct (iter_undoLayer (drop (length snaps - k) snaps) n i
              (p ++ take (length snaps - k) snaps) r o) as [_ H].
  rewrite <- app_assoc, take_drop, length_drop in H.
  by replace (length snaps - (length snaps - k))%nat with k in H by lia.
Qed.

Lemma undoStack_pushLayer L :
  exists c,
    undoStack (pushLayer L) = drop c (undoStack L ++ [image L]) /\
    (c = 0%nat \/ c = 1%nat /\ MAX_UNDO <= Z.of_nat (length (undoStack L))).
Proof.
  unfold pushLayer. simpl.
  destruct (MAX_UNDO <? _) eqn:E.
  - exists 1%nat. split; [done |]. right. split; [done |].
    apply Z.ltb_lt in E. rewrite length_app in E. simpl in E. lia.
  - exists 0%nat. by split; [| left].
Qed.

(** After [n <= 20] snapshotting mutations the undo stack ends with the
    [n] buffers that were current before each of them, the buffer before
    the first mutation being the oldest. *)
Lemma edits_trace n w w' L :
  edits n w w' -> activeLayer w = Some L -> Z.of_nat n <= MAX_UNDO ->
  exists L' d snaps,
    activeLayer w' = Some L' /\
    undoStack L' = drop d (undoStack L) ++ snaps /\
    length snaps = n /\
    hd (image L') snaps = image L.
Proof.
  intros He Hw. induction He as [w|n w w1 w2 b f He IH Hs]; intros Hn.
  - exists L, 0%nat, []. by rewrite app_nil_r.
  - destruct IH as (L1 & d & snaps & H1 & Hu & Hlen & Hhd); [done | lia |].
    rewrite <- (activeLayer_sameDocument _ _ Hs), activeLayer_snapshotEdit, H1.
    destruct (undoStack_pushLayer L1) as (c & Hc & Hcase).
    exists (editLayer b f L1), (d + c)%nat, (snaps ++ [image L1]).
    split; [done |].
    change (undoStack (editLayer b f L1)) with (undoStack (pushLayer L1)).
    change (image (editLayer b f L1)) with (f (image L1)).
    rewrite Hc, Hu, <- app_assoc.
    split; [| split].
    + rewrite drop_app_le, drop_drop; [done |].
      destruct Hcase as [-> | [-> Hfull]]; [lia |].
      rewrite Hu, length_app in Hfull. unfold MAX_UNDO in *. lia.
    + rewrite length_app. simpl. lia.
    + destruct snaps; [done | exact Hhd].
Qed.

(** C2.  After [n <= 20] buffer mutations of the active layer, each preceded
    by its undo snapshot, [n] calls of [undo] give the layer back the buffer
    it had before the first mutation; and, at every point of that way back,
    [redo] right after an [undo] gives the layer back exactly what it had
    before that [undo]: buffer, undo stack and redo stack. *)
Theorem undo_redo_roundtrip n w w' L :
  activeLayer w = Some L ->
  edits n w w' ->
  Z.of_nat n <= MAX_UNDO ->
  image <$> activeLayer (Nat.iter n undo w') = Some (image L) /\
  forall k, (k < n)%nat ->
    activeLayer (redo (undo (Nat.iter k undo w'))) =
    activeLayer (Nat.iter k undo w').
Proof.
  intros Hw He Hn.
  destruct (edits_trace _ _ _ _ He Hw Hn) as (L' & d & snaps & H' & Hu & Hl & Hh).
  destruct L' as [nm i u r o]. simpl in *. subst u. split.
  - rewrite activeLayer_iter_undo, H'. simpl. f_equal.
    rewrite <- Hl. by destruct (iter_undoLayer snaps nm i (drop d (undoStack L)) r o) as [-> _].
  - intros k Hk.
    rewrite activeLayer_redo, activeLayer_undo, activeLayer_iter_undo, H'.
    simpl. f_equal. apply redoLayer_undoLayer.
    rewrite iter_undoLayer_stack by lia.
    intros Hnil. apply (f_equal length) in Hnil.
    rewrite length_app, length_take in Hnil. simpl in Hnil. lia.
Qed.

(** ** Transforms and the undo stack *)

(** [rotateLeft], [rotateRight], [flipHorizontal] and [flipVertical]
    replace the buffer of the active layer and leave its undo stack as it
    was: no snapshot is taken. *)
Lemma transforms_on_active w :
  activeLayer (rotateLeft w) =
    (fun L => setImage (rotated false (image L)) L) <$> activeLayer w /\
  activeLayer (rotateRight w) =
    (fun L => setImage (rotated true (image L)) L) <$> activeLayer w /\
  activeLayer (flipHorizontal w) =
    (fun L => setImage (mirrored true false (image L)) L) <$> activeLayer w /\
  activeLayer (flipVertical w) =
    (fun L => setImage (mirrored false true (image L)) L) <$> activeLayer w.
Proof.
  unfold rotateLeft, rotateRight, flipHorizontal, flipVertical.
  destruct (activeOutOfRange w) eqn:E.
  - unfold activeLayer. by rewrite E.
  - repeat split;
      rewrite (activeLayer_sameDocument _ _ (sameDocument_setText _ _)),
        (activeLayer_sameDocument _ _ (sameDocument_compositeLayers _));
      apply activeLayer_paintActive.
Qed.

(** C1.  On a window with one 2 x 2 layer and an empty undo stack, each of
    [rotateLeft], [rotateRight], [flipHorizontal] and [flipVertical]
    changes the buffer and leaves the undo stack empty, so the [undo] that
    follows finds nothing to restore; [clearCanvas] on the same window does
    push the buffer it is about to clear. *)
Theorem transforms_take_no_snapshot :
  let w := singleLayer image2x2 BRUSH 1%float in
  Forall (fun op : MainWindow -> MainWindow =>
            exists L, activeLayer (op w) = Some L /\
                      image L <> image2x2 /\
                      undoStack L = [] /\
                      activeImage (undo (op w)) = Some (image L))
         [rotateLeft; rotateRight; flipHorizontal; flipVertical] /\
  (undoStack <$> activeLayer (clearCanvas w)) = Some [image2x2] /\
  activeImage (undo (clearCanvas w)) = Some image2x2.
Proof.
  split; [| split; reflexivity].
  repeat constructor; eexists; (split; [reflexivity |]);
    (split; [by vm_compute | split; reflexivity]).
Qed.

(** ** Redo after cut and paste *)

(** C3.  After select-all, copy, clear and undo on a one-layer window the
    redo stack holds the cleared buffer.  [pasteSelection] and
    [cutSelection] at that point keep it there, and the [redo] that follows
    replaces the buffer they produced by that stale entry; [clearCanvas] at
    the same point empties the redo stack and the [redo] that follows
    leaves the layers alone. *)
Theorem paste_and_cut_keep_redo :
  let cleared := filled Format_ARGB32_Premultiplied 2 2 transparent in
  exists w pasted cut,
    copiedClearedUndone = Some w /\
    pasteSelection w = Some pasted /\
    cutSelection w = Some cut /\
    activeRedo w = Some [cleared] /\
    activeRedo pasted = Some [cleared] /\
    activeRedo cut = Some [cleared] /\
    activeImage pasted
      = Some (mkQImage Format_ARGB32_Premultiplied
                [[0xc0c00000; blue]; [transparent; green]]) /\
    activeImage (redo pasted) = Some cleared /\
    activeImage cut = Some cleared /\
    activeImage (redo cut) = Some cleared /\
    activeRedo (redo cut) = Some [] /\
    activeRedo (clearCanvas w) = Some [] /\
    layers (redo (clearCanvas w)) = layers (clearCanvas w).
Proof.
  do 3 eexists.
  split; [vm_compute; reflexivity |].
  split; [vm_compute; reflexivity |].
  split; [vm_compute; reflexivity |].
  repeat split; vm_compute; reflexivity.
Qed.

(** ** Shape tools *)

(** In the later revision a release with [selecting] unset does nothing. *)
Lemma mouseReleaseEvent_not_selecting ev w :
  selecting (canvas w) = false -> mouseReleaseEvent ev w = Some w.
Proof.
  intros H. unfold mouseReleaseEvent. rewrite H.
  by rewrite andb_false_r.
Qed.

(** C4.  With the line, rectangle or circle tool on a 3 x 3 layer, a press
    at (0,0) records the anchor; the release at (2,2) that follows commits
    nothing into the buffer and leaves the anchor where it was. *)
Theorem shape_release_commits_nothing :
  Forall (fun tool =>
            let pressed := mousePressEvent (leftPress 0 0) None
                             (singleLayer image3x3 tool 1%float) in
            startPoint (canvas pressed) = mkQPoint 0 0 /\
            activeImage pressed = Some image3x3 /\
            mouseReleaseEvent (leftRelease 2 2) pressed = Some pressed)
         [LINE; RECTANGLE; CIRCLE].
Proof. repeat constructor. Qed.

Lemma targetImage_paintTarget f w img :
  targetImage w = Some img -> targetImage (paintTarget f w) = Some (f img).
Proof.
  unfold targetImage, paintTarget.
  destruct (targetImg (canvas w)) as [t|] eqn:Et; [| done].
  destruct (layers w !! t) as [L|] eqn:El; [| done].
  intros [= <-]. simpl. rewrite Et.
  rewrite list_lookup_insert_eq by by eapply lookup_lt_Some. done.
Qed.

Lemma targetImage_early_compositeLayers w :
  targetImage (Early.compositeLayers w) = targetImage w.
Proof. unfold Early.compositeLayers. by destruct (layers w). Qed.

Lemma canvas_early_compositeLayers w :
  startPoint (canvas (Early.compositeLayers w)) = startPoint (canvas w) /\
  lastPoint (canvas (Early.compositeLayers w)) = lastPoint (canvas w).
Proof. unfold Early.compositeLayers. by destruct (layers w). Qed.

(** The earlier revision commits the shape: the target image becomes the
    stroke of one shape from the anchor to the release point, the
    rectangle and the ellipse on the normalized rectangle, and both
    transient points are reset. *)
Lemma early_release_commits stroke ev w target shape :
  targetImage w = Some target ->
  button ev = LeftButton ->
  widgetToImage (canvas w) (pos ev) (size target) <> OUT_OF_BOUNDS ->
  Early.committedShape (currentTool (canvas w)) (startPoint (canvas w))
    (widgetToImage (canvas w) (pos ev) (size target)) = Some shape ->
  let w' := Early.mouseReleaseEvent stroke ev w in
  targetImage w' =
    Some (stroke CompositionMode_SourceOver
            (mkQPen (penColor (canvas w)) (penWidth (canvas w))) shape target) /\
  startPoint (canvas w') = OUT_OF_BOUNDS /\
  lastPoint (canvas w') = OUT_OF_BOUNDS.
Proof.
  intros Ht Hb Hin Hs. unfold Early.mouseReleaseEvent.
  rewrite Ht, Hb, Hs. rewrite bool_decide_eq_true_2 by done.
  rewrite bool_decide_eq_false_2 by done.
  cbv zeta. unfold Early.onStrokeFinished.
  rewrite targetImage_early_compositeLayers.
  destruct (canvas_early_compositeLayers
              (Early.resetPoints
                 (paintTarget
                    (stroke CompositionMode_SourceOver
                       (mkQPen (penColor (canvas w)) (penWidth (canvas w)))
                       shape) w))) as [-> ->].
  split; [| done].
  exact (targetImage_paintTarget _ _ _ Ht).
Qed.

Lemma normalized_extent r :
  0 <= rwidth (normalized r) /\ 0 <= rheight (normalized r).
Proof.
  unfold normalized, rwidth, rheight.
  destruct (x2 r <? x1 r) eqn:Ex; destruct (y2 r <? y1 r) eqn:Ey; simpl;
    repeat match goal with
           | H : (_ <? _) = true |- _ => apply Z.ltb_lt in H
           | H : (_ <? _) = false |- _ => apply Z.ltb_ge in H
           end; lia.
Qed.

(** ** Coordinate mapping *)

(** A point whose quotient is not finite or falls outside the image maps
    to [OUT_OF_BOUNDS]. *)
Lemma widgetToImage_outside c p sz :
  let ix := PrimFloat.div
              (PrimFloat.sub (Dbl.of_int (px p)) (Dbl.of_int (px (imageOffset c))))
              (zoom c) in
  let iy := PrimFloat.div
              (PrimFloat.sub (Dbl.of_int (py p)) (Dbl.of_int (py (imageOffset c))))
              (zoom c) in
  Dbl.isfinite ix = false \/ Dbl.isfinite iy = false \/
  Dbl.lt ix 0%float = true \/ Dbl.lt iy 0%float = true \/
  Dbl.ge ix (Dbl.of_int (sw sz)) = true \/
  Dbl.ge iy (Dbl.of_int (sh sz)) = true ->
  widgetToImage c p sz = OUT_OF_BOUNDS.
Proof.
  intros ix iy H. unfold widgetToImage. fold ix iy.
  destruct (Dbl.isfinite ix), (Dbl.isfinite iy); simpl; try done.
  destruct (Dbl.lt ix 0%float), (Dbl.lt iy 0%float), (Dbl.ge ix _),
    (Dbl.ge iy _); simpl; try done.
  intuition congruence.
Qed.

(** C5.  At zoom 2 with no offset the widget point (3,0) has the image
    coordinate 1.5, inside a 2 x 2 image; [widgetToImage] returns (2,0),
    which is not a pixel of that image. *)
Theorem widgetToImage_rounds_out_of_image :
  let c := canvasOn image2x2 0 BRUSH 2%float in
  size image2x2 = mkQSize 2 2 /\
  PrimFloat.div (PrimFloat.sub (Dbl.of_int 3) (Dbl.of_int 0)) (zoom c)
    = 1.5%float /\
  widgetToImage c (mkQPoint 3 0) (size image2x2) = mkQPoint 2 0 /\
  valid image2x2 2 0 = false.
Proof. repeat split. Qed.

(** ** Images *)

Lemma imap_id_ext {A} (f : nat -> A -> A) (l : list A) :
  (forall i x, l !! i = Some x -> f i x = x) -> imap f l = l.
Proof.
  intros H. apply list_eq. intros i. rewrite list_lookup_imap.
  destruct (l !! i) eqn:E; simpl; [| done]. f_equal. by apply H.
Qed.

(** A pixel rewrite that fixes every pixel it meets leaves the image as it
    is. *)
Lemma mapPixels_id f i :
  (forall x y row c,
      scanLines i !! y = Some row -> row !! x = Some c ->
      f (Z.of_nat x) (Z.of_nat y) c = c) ->
  mapPixels f i = i.
Proof.
  intros H. destruct i as [fmt rows]. unfold mapPixels. simpl in *. f_equal.
  apply imap_id_ext. intros y row Hy.
  apply imap_id_ext. intros x c Hx. by eapply H.
Qed.

Lemma height_mapPixels f i : height (mapPixels f i) = height i.
Proof. unfold height, mapPixels. simpl. by rewrite length_imap. Qed.

Lemma width_mapPixels f i : width (mapPixels f i) = width i.
Proof.
  unfold width, mapPixels. simpl.
  destruct (scanLines i) as [|row rows]; [done |].
  rewrite imap_cons. simpl. by rewrite length_imap.
Qed.

Lemma size_drawImage o p src dst : size (drawImage o p src dst) = size dst.
Proof.
  unfold size, drawImage. by rewrite width_mapPixels, height_mapPixels.
Qed.

Lemma pixel_lookup i x y row c :
  scanLines i !! y = Some row -> row !! x = Some c ->
  pixel i (Z.of_nat x) (Z.of_nat y) = c.
Proof.
  intros Hy Hx. unfold pixel.
  replace ((0 <=? Z.of_nat x) && (0 <=? Z.of_nat y)) with true
    by (symmetry; apply andb_true_iff; split; apply Z.leb_le; lia).
  rewrite !Nat2Z.id.
  rewrite (nth_lookup_Some _ _ _ _ Hy). by apply nth_lookup_Some.
Qed.

Lemma lookup_tabulate {A} n (f : Z -> A) k :
  (Z.of_nat k < n) -> tabulate n f !! k = Some (f (Z.of_nat k)).
Proof.
  intros H. unfold tabulate.
  change (map ?g ?l) with (g <$> l).
  rewrite list_lookup_fmap, lookup_seq_lt by lia. done.
Qed.

Lemma length_tabulate {A} n (f : Z -> A) : length (tabulate n f) = Z.to_nat n.
Proof. unfold tabulate. by rewrite length_map, length_seq. Qed.

Lemma generate_dims fmt w h f :
  0 < w -> 0 < h ->
  width (generate fmt w h f) = w /\ height (generate fmt w h f) = h.
Proof.
  intros Hw Hh. unfold generate.
  replace ((w <=? 0) || (h <=? 0)) with false
    by (symmetry; apply orb_false_iff; split; apply Z.leb_gt; lia).
  unfold width, height. simpl. rewrite length_tabulate. split; [| lia].
  unfold tabulate at 1.
  destruct (Z.to_nat h) as [|k] eqn:E; [lia |]. simpl.
  rewrite length_tabulate. lia.
Qed.

Lemma pixel_generate fmt w h f x y :
  0 <= x < w -> 0 <= y < h -> pixel (generate fmt w h f) x y = f x y.
Proof.
  intros Hx Hy. unfold generate.
  replace ((w <=? 0) || (h <=? 0)) with false
    by (symmetry; apply orb_false_iff; split; apply Z.leb_gt; lia).
  destruct (Z_of_nat_complete x) as [nx ->]; [lia |].
  destruct (Z_of_nat_complete y) as [ny ->]; [lia |].
  apply (pixel_lookup _ nx ny (tabulate w (fun x' => f x' (Z.of_nat ny)))).
  - simpl. by rewrite (lookup_tabulate h _ ny) by lia.
  - by rewrite (lookup_tabulate w _ nx) by lia.
Qed.

Lemma generate_null fmt w h f :
  w <= 0 \/ h <= 0 -> generate fmt w h f = nullImage.
Proof.
  intros H. unfold generate.
  replace ((w <=? 0) || (h <=? 0)) with true; [done |].
  symmetry. apply orb_true_iff. rewrite !Z.leb_le. done.
Qed.

(** ** Blending *)

Lemma blendPixel_one s d : blendPixel 1%float s d = sourceOver s d.
Proof. reflexivity. Qed.

Lemma blendPixel_zero s d : blendPixel 0%float s d = d.
Proof. reflexivity. Qed.

Lemma sourceOver_self c :
  c = 0 \/ 0xff000000 <= c -> sourceOver c c = c.
Proof.
  intros [-> | H]; [done |]. unfold sourceOver.
  by replace (0xff000000 <=? c) with true by (symmetry; by apply Z.leb_le).
Qed.

Lemma sourceOver_transparent d : sourceOver 0 d = d.
Proof. done. Qed.

Lemma drawImage_zero p src dst : drawImage 0%float p src dst = dst.
Proof.
  unfold drawImage. apply mapPixels_id. intros x y row c _ _.
  by destruct (valid src _ _).
Qed.

(** ** Compositing *)

Lemma size_fold_drawImage (ls : list Layer) acc :
  size (fold_left (fun comp li =>
                     drawImage (opacity li) (mkQPoint 0 0) (image li) comp)
                  ls acc) = size acc.
Proof.
  revert acc. induction ls as [|l ls IH]; intros acc; simpl; [done |].
  by rewrite IH, size_drawImage.
Qed.

(** ** Removing the last layer *)

(** C9.  With exactly one layer, [removeLayer] and [deleteLayer] show the
    notice "Need at least one layer." and return the window as it was. *)
Theorem removeLayer_last_layer_refused (w : MainWindow) :
  length (layers w) = 1%nat ->
  removeLayer w
    = Some (w, [Information "Cannot remove" "Need at least one layer."]) /\
  deleteLayer w
    = Some (w, [Information "Cannot remove" "Need at least one layer."]).
Proof.
  intros H. unfold removeLayer, deleteLayer, layerCount. by rewrite H.
Qed.

Lemma removeLayer_last_layer_refused_witness :
  length (layers (singleLayer image2x2 BRUSH 1%float)) = 1%nat /\
  removeLayer (singleLayer image2x2 BRUSH 1%float)
    = Some (singleLayer image2x2 BRUSH 1%float,
            [Information "Cannot remove" "Need at least one layer."]).
Proof.
  split; [reflexivity |].
  exact (proj1 (removeLayer_last_layer_refused
                  (singleLayer image2x2 BRUSH 1%float) eq_refl)).
Defined.

(** ** Copy, cut and paste *)

Lemma sameDocument_sym a b : sameDocument a b -> sameDocument b a.
Proof. intros [? ?]. by split. Qed.

Lemma pushUndo_frame w :
  canvas (pushUndoForActiveLayer w) = canvas w /\
  selectionBuffer (pushUndoForActiveLayer w) = selectionBuffer w /\
  activeLayerIndex (pushUndoForActiveLayer w) = activeLayerIndex w.
Proof. unfold pushUndoForActiveLayer. by destruct (activeLayer w). Qed.

(** [pasteSelection] with a clipboard is a snapshot followed by the blit
    of the clipboard at the selection's top-left corner; it does not clear
    the redo stack. *)
Lemma pasteSelection_on_active w L :
  activeLayer w = Some L ->
  isNull (selectionBuffer w) = false ->
  exists w',
    pasteSelection w = Some w' /\
    sameDocument
      (snapshotEdit false
         (drawImage 1%float (topLeft (selectionRect (canvas w)))
                    (selectionBuffer w)) w) w'.
Proof.
  intros HL Hn. unfold pasteSelection. rewrite Hn. cbv zeta.
  rewrite activeLayer_pushUndo, HL. simpl. eexists. split; [reflexivity |].
  destruct (pushUndo_frame w) as (-> & -> & _).
  eapply sameDocument_trans;
    [| apply sameDocument_sym, sameDocument_setText].
  apply sameDocument_sym, sameDocument_compositeLayers.
Qed.

Lemma valid_nullImage x y : valid nullImage x y = false.
Proof.
  unfold valid. change (width nullImage) with 0.
  destruct (Z.leb_spec 0 x), (Z.ltb_spec x 0); simpl; try done. lia.
Qed.

Lemma valid_iff i x y :
  valid i x y = true <-> 0 <= x < width i /\ 0 <= y < height i.
Proof.
  unfold valid. rewrite !andb_true_iff, !Z.leb_le, !Z.ltb_lt. lia.
Qed.

(** Blitting a rectangular copy back where it was taken changes nothing
    where the pixels are opaque or fully transparent. *)
Lemma paste_copy_same r img :
  rectIsNull r = false ->
  (forall x y, valid img x y = true -> rectContains r x y = true ->
               pixel img x y = 0 \/ 0xff000000 <= pixel img x y) ->
  drawImage 1%float (topLeft r) (copyRect r img) img = img.
Proof.
  intros Hnn Hpx. unfold drawImage. apply mapPixels_id.
  intros x y row c Hy Hx. simpl.
  destruct (valid (copyRect r img) _ _) eqn:V; [| done].
  rewrite blendPixel_one.
  unfold copyRect in *. rewrite Hnn in *.
  destruct (isNull img); [by rewrite valid_nullImage in V |].
  destruct (decide (0 < rwidth r /\ 0 < rheight r)) as [[Hw Hh]|Hneg].
  - apply valid_iff in V.
    destruct (generate_dims (format img) (rwidth r) (rheight r)
      (fun x y => if valid img (x1 r + x) (y1 r + y)
                  then pixel img (x1 r + x) (y1 r + y) else 0) Hw Hh)
      as [Ew Eh].
    rewrite Ew, Eh in V. rewrite pixel_generate by lia.
    replace (x1 r + (Z.of_nat x - x1 r)) with (Z.of_nat x) by lia.
    replace (y1 r + (Z.of_nat y - y1 r)) with (Z.of_nat y) by lia.
    rewrite (pixel_lookup _ _ _ _ _ Hy Hx).
    destruct (valid img (Z.of_nat x) (Z.of_nat y)) eqn:Vi;
      [| apply sourceOver_transparent].
    apply sourceOver_self.
    rewrite <- (pixel_lookup _ _ _ _ _ Hy Hx). apply Hpx; [done |].
    unfold rectContains, rwidth, rheight in *.
    rewrite !andb_true_iff, !Z.leb_le. lia.
  - rewrite generate_null in V by lia. by rewrite valid_nullImage in V.
Qed.

Lemma targetImage_active w L :
  activeLayer w = Some L ->
  targetImg (canvas w) = Some (Z.to_nat (activeLayerIndex w)) ->
  targetImage w = Some (image L).
Proof.
  intros HL Ht. unfold targetImage. rewrite Ht.
  destruct (activeLayer_Some _ _ HL) as [-> _]. done.
Qed.

(** C7 (as amended).  With a rectangular selection on the active layer
    that is not the null rectangle, [copySelection] then [pasteSelection]
    go through and leave the buffer of the layer bit for bit as it was,
    provided every pixel of the layer inside the selection rectangle is
    opaque or fully transparent.  (For the null rectangle, of width and
    height 0, [copy] gives the whole layer, which the paste then draws at
    the corner of the rectangle.) *)
Theorem copy_paste_identity (w : MainWindow) (L : Layer) :
  activeLayer w = Some L ->
  targetImg (canvas w) = Some (Z.to_nat (activeLayerIndex w)) ->
  currentTool (canvas w) = RECT_SELECT ->
  hasSelection (canvas w) = true ->
  rectIsNull (selectionRect (canvas w)) = false ->
  (forall x y,
      valid (image L) x y = true ->
      rectContains (selectionRect (canvas w)) x y = true ->
      pixel (image L) x y = 0 \/ 0xff000000 <= pixel (image L) x y) ->
  exists w',
    pasteSelection (copySelection w) = Some w' /\
    activeImage w' = Some (image L).
Proof.
  intros HL Ht Htool Hsel Hnn Hpx.
  assert (Hbuf : selectionBuffer (copySelection w)
                 = copyRect (selectionRect (canvas w)) (image L)).
  { unfold copySelection, getSelectionImage. rewrite Hsel. simpl.
    by rewrite (targetImage_active _ _ HL Ht), Htool. }
  assert (Hdoc : sameDocument (copySelection w) w).
  { unfold copySelection. by destruct (negb _). }
  assert (Hcv : canvas (copySelection w) = canvas w).
  { unfold copySelection. by destruct (negb _). }
  pose proof (activeLayer_sameDocument _ _ Hdoc) as HL'. rewrite HL in HL'.
  destruct (isNull (selectionBuffer (copySelection w))) eqn:Hn.
  - exists (copySelection w). split.
    + unfold pasteSelection. by rewrite Hn.
    + unfold activeImage. by rewrite HL'.
  - destruct (pasteSelection_on_active _ _ HL' Hn) as (w' & Hp & Hs).
    exists w'. split; [done |].
    unfold activeImage.
    rewrite <- (activeLayer_sameDocument _ _ Hs), activeLayer_snapshotEdit, HL'.
    simpl. f_equal. rewrite Hcv, Hbuf. by apply paste_copy_same.
Qed.

Lemma copy_paste_identity_witness :
  drag 0 0 2 2 (singleLayer image3x3 RECT_SELECT 1%float) = Some selectAll3x3 /\
  exists w',
    pasteSelection (copySelection selectAll3x3) = Some w' /\
    activeImage w' = Some image3x3.
Proof.
  split; [vm_compute; reflexivity |].
  apply (copy_paste_identity selectAll3x3
           (mkLayer "Background" image3x3 [image3x3] [] 1%float)).
  - vm_compute; reflexivity.
  - vm_compute; reflexivity.
  - vm_compute; reflexivity.
  - vm_compute; reflexivity.
  - vm_compute; reflexivity.
  - intros x y Hv _. apply valid_iff in Hv.
    change (width _) with 3 in Hv. change (height _) with 3 in Hv.
    assert (Hx : x = 0 \/ x = 1 \/ x = 2) by lia.
    assert (Hy : y = 0 \/ y = 1 \/ y = 2) by lia.
    right. destruct Hx as [-> | [-> | ->]], Hy as [-> | [-> | ->]];
      vm_compute; discriminate.
Defined.

(** C7 (as stated) fails on a half-transparent pixel: after select-all,
    copy and paste on the 2 x 2 layer, the top-left pixel, [0x80800000]
    before, is [0xc0c00000]. *)
Lemma copy_paste_blends_translucent :
  exists w w' img',
    drag 0 0 1 1 (singleLayer image2x2 RECT_SELECT 1%float) = Some w /\
    activeImage w = Some image2x2 /\
    currentTool (canvas w) = RECT_SELECT /\
    hasSelection (canvas w) = true /\
    selectionRect (canvas w) = mkQRect 0 0 1 1 /\
    pasteSelection (copySelection w) = Some w' /\
    activeImage w' = Some img' /\
    pixel image2x2 0 0 = 0x80800000 /\
    pixel img' 0 0 = 0xc0c00000.
Proof.
  do 3 eexists.
  split; [vm_compute; reflexivity |].
  do 4 (split; [reflexivity |]).
  split; [vm_compute; reflexivity |].
  split; [vm_compute; reflexivity |].
  split; reflexivity.
Qed.

(** The selection rectangle of [copy_paste_identity] has to be non-null:
    [QImage::copy] of the null rectangle is the whole image, so after a
    lasso gesture and a switch to the rectangle tool, copy and paste draw
    the whole layer over itself, and the half-transparent pixel at (0,0),
    outside the empty rectangle, goes from [0x80800000] to
    [0xc0c00000]. *)
Lemma copy_paste_null_rect_blends :
  exists w w' img',
    lassoThenRect2x2 = Some w /\
    activeImage w = Some image2x2 /\
    currentTool (canvas w) = RECT_SELECT /\
    hasSelection (canvas w) = true /\
    selectionRect (canvas w) = mkQRect 0 0 (-1) (-1) /\
    (forall x y, rectContains (selectionRect (canvas w)) x y = false) /\
    pasteSelection (copySelection w) = Some w' /\
    activeImage w' = Some img' /\
    pixel image2x2 0 0 = 0x80800000 /\
    pixel img' 0 0 = 0xc0c00000.
Proof.
  do 3 eexists.
  split; [vm_compute; reflexivity |].
  do 4 (split; [reflexivity |]).
  split.
  { intros x y. unfold rectContains. simpl.
    destruct (decide (0 <= x)); [| by rewrite (proj2 (Z.leb_gt 0 x)) by lia].
    rewrite (proj2 (Z.leb_gt x (-1))) by lia.
    by rewrite andb_false_r. }
  split; [vm_compute; reflexivity |].
  split; [vm_compute; reflexivity |].
  split; reflexivity.
Qed.

(** [cutSelection] with a selection takes the snapshot, stores the
    materialized selection, and clears the rectangle [selectionRect] of
    the active layer, whatever tool made the selection; it does not clear
    the redo stack. *)
Lemma cutSelection_on_active w L :
  activeLayer w = Some L ->
  hasSelection (canvas w) = true ->
  exists w',
    cutSelection w = Some w' /\
    selectionBuffer w' = getSelectionImage (pushUndoForActiveLayer w) /\
    sameDocument
      (snapshotEdit false (clearRect (selectionRect (canvas w))) w) w'.
Proof.
  intros HL Hs. unfold cutSelection. rewrite Hs. cbv zeta.
  rewrite (activeLayer_sameDocument _ _ (sameDocument_setSelectionBuffer _ _)).
  rewrite activeLayer_pushUndo, HL. simpl. eexists. split; [reflexivity |].
  split.
  - unfold compositeLayers, paintActive. simpl.
    repeat match goal with |- context [match ?x with _ => _ end] =>
                             destruct x end; reflexivity.
  - destruct (pushUndo_frame w) as (Hc & _ & _).
    unfold getSelectionRect. simpl. rewrite Hc.
    eapply sameDocument_trans;
      [| apply sameDocument_sym, sameDocument_setText].
    eapply sameDocument_trans;
      [| apply sameDocument_sym, sameDocument_compositeLayers].
    unfold snapshotEdit, paintActive.
    rewrite (activeLayer_sameDocument _ _ (sameDocument_setSelectionBuffer _ _)).
    by destruct (activeLayer (pushUndoForActiveLayer w)).
Qed.

(** C8.  On the 3 x 3 layer, select everything with the rectangle tool,
    then take the lasso and draw the triangle (0,0), (2,0), (0,2).  Pixel
    (2,2) is outside the triangle and inside its bounding rectangle, and
    [cutSelection] clears it together with the whole stale rectangle.
    With no rectangle drawn before the lasso, [selectionRect] is null:
    [cutSelection] stores a null image and clears nothing, not even the
    pixels inside the triangle. *)
Theorem cut_lasso_clears_selectionRect
    (stroke : CompositionMode -> QPen -> Shape -> QImage -> QImage) :
  exists w cut fresh cutFresh,
    lassoTriangle stroke selectAll3x3 = Some w /\
    cutSelection w = Some cut /\
    lassoTriangle stroke (singleLayer image3x3 BRUSH 1%float) = Some fresh /\
    cutSelection fresh = Some cutFresh /\
    (currentTool (canvas w) = LASSO_SELECT /\
     hasSelection (canvas w) = true /\
     lassoPolygon (canvas w) = triangle /\
     selectionRect (canvas w) = mkQRect 0 0 2 2) /\
    (regionContains triangle 0 0 = true /\
     regionContains triangle 2 2 = false /\
     pixel image3x3 2 2 = green) /\
    activeImage cut
      = Some (filled Format_ARGB32_Premultiplied 3 3 transparent) /\
    (lassoPolygon (canvas fresh) = triangle /\
     hasSelection (canvas fresh) = true /\
     selectionRect (canvas fresh) = nullRect) /\
    selectionBuffer cutFresh = nullImage /\
    activeImage cutFresh = Some image3x3.
Proof.
  do 4 eexists.
  split; [vm_compute; reflexivity |].
  split; [vm_compute; reflexivity |].
  split; [vm_compute; reflexivity |].
  split; [vm_compute; reflexivity |].
  repeat split; vm_compute; reflexivity.
Qed.

(** ** Opening a file *)

Lemma setImage_same L : setImage (image L) L = L.
Proof. by destruct L. Qed.

(** What [ensureTargetSizeMatchesWidget] does to the layers. *)
Lemma ensureTargetSizeMatchesWidget_layers w t L :
  targetImg (canvas w) = Some t ->
  layers w !! t = Some L ->
  layers (ensureTargetSizeMatchesWidget w)
    = <[t := setImage (paddedTo (composite (canvas w)) (image L)) L]> (layers w) /\
  canvas (ensureTargetSizeMatchesWidget w) = canvas w /\
  activeLayerIndex (ensureTargetSizeMatchesWidget w) = activeLayerIndex w.
Proof.
  intros Ht Hl. unfold ensureTargetSizeMatchesWidget, paddedTo.
  rewrite Ht, Hl.
  destruct (_ || _); [done |].
  rewrite setImage_same, list_insert_id by done. done.
Qed.

Lemma composite_compositeLayers_store w L L' :
  activeLayer w = Some L ->
  layers (compositeLayers (storeActiveLayer L' w))
    = <[Z.to_nat (activeLayerIndex w) := L']> (layers w) /\
  activeLayerIndex (compositeLayers (storeActiveLayer L' w))
    = activeLayerIndex w.
Proof.
  intros _. apply (sameDocument_compositeLayers (storeActiveLayer L' w)).
Qed.




(** ** The snapshotting operations are snapshot-then-edit steps *)

Lemma pushUndo_onActive w : pushUndoForActiveLayer w = onActive pushLayer w.
Proof. reflexivity. Qed.

Lemma paintActive_onActive f w :
  paintActive f w = onActive (fun L => setImage (f (image L)) L) w.
Proof. reflexivity. Qed.

Lemma clearRedo_onActive w :
  clearRedoForActiveLayer w = onActive (setRedoStack []) w.
Proof. reflexivity. Qed.

Lemma activeLayer_onActive g w : activeLayer (onActive g w) = g <$> activeLayer w.
Proof.
  unfold onActive. destruct (activeLayer w) as [L|] eqn:E; simpl; [| done].
  by erewrite activeLayer_store.
Qed.

Lemma onActive_onActive g1 g2 w :
  sameDocument (onActive g2 (onActive g1 w)) (onActive (fun L => g2 (g1 L)) w).
Proof.
  unfold onActive at 1. rewrite activeLayer_onActive.
  unfold onActive. destruct (activeLayer w) as [L|]; simpl; [| done].
  split; [apply list_insert_insert_eq | done].
Qed.

Lemma onActive_sameDocument g a b :
  sameDocument a b -> sameDocument (onActive g a) (onActive g b).
Proof.
  intros H. unfold onActive. rewrite (activeLayer_sameDocument _ _ H).
  destruct H as [Hl Hi]. destruct (activeLayer b); [| done].
  split; simpl; congruence.
Qed.

Lemma onActive_ext g g' w :
  (forall L, activeLayer w = Some L -> g L = g' L) ->
  onActive g w = onActive g' w.
Proof.
  intros H. unfold onActive. destruct (activeLayer w) as [L|]; [| done].
  by rewrite (H L).
Qed.

Lemma snapshotEdit_onActive b f w :
  sameDocument (snapshotEdit b f w) (onActive (editLayer b f) w).
Proof.
  unfold snapshotEdit. rewrite pushUndo_onActive, paintActive_onActive.
  destruct b.
  - rewrite clearRedo_onActive.
    eapply sameDocument_trans;
      [apply onActive_sameDocument, onActive_onActive |].
    eapply sameDocument_trans; [apply onActive_onActive |].
    by rewrite (onActive_ext _ (editLayer true f)).
  - eapply sameDocument_trans; [apply onActive_onActive |].
    by rewrite (onActive_ext _ (editLayer false f)).
Qed.

(** [clearCanvas] is a snapshot followed by the fill with transparent. *)
Lemma clearCanvas_is_edit w :
  sameDocument (snapshotEdit true (fill transparent) w) (clearCanvas w).
Proof.
  unfold clearCanvas. destruct (activeLayer w) as [L|] eqn:E.
  - apply sameDocument_sym.
    eapply sameDocument_trans; [apply sameDocument_setText |].
    apply sameDocument_compositeLayers.
  - unfold snapshotEdit, clearRedoForActiveLayer, paintActive,
      pushUndoForActiveLayer. by rewrite !E.
Qed.

Lemma filter_is_edit (px : QRgb -> QRgb) w L :
  activeLayer w = Some L ->
  sameDocument
    (snapshotEdit true (mapPixels (fun _ _ c => px c)) w)
    (paintActive (fun _ => mapPixels (fun _ _ c => px c) (copy (image L)))
       (clearRedoForActiveLayer (pushUndoForActiveLayer w))).
Proof.
  intros E.
  eapply sameDocument_trans; [apply snapshotEdit_onActive |].
  apply sameDocument_sym.
  rewrite pushUndo_onActive, clearRedo_onActive, paintActive_onActive.
  eapply sameDocument_trans;
    [apply onActive_sameDocument, onActive_onActive |].
  eapply sameDocument_trans; [apply onActive_onActive |].
  erewrite onActive_ext; [done |].
  intros L' E'. rewrite E in E'. by injection E' as <-.
Qed.

(** An accepted [grayscale] or [invertColors] is a snapshot followed by
    the filter; a rejected one leaves the layers alone. *)
Lemma grayscale_is_edit w :
  sameDocument (snapshotEdit true (mapPixels (fun _ _ c => grayPixel c)) w)
               (grayscale true w) /\
  sameDocument w (grayscale false w).
Proof.
  unfold grayscale. destruct (activeLayer w) as [L|] eqn:E.
  - split; [| done].
    eapply sameDocument_trans; [by apply (filter_is_edit grayPixel) |].
    apply sameDocument_sym.
    eapply sameDocument_trans; [apply sameDocument_setText |].
    apply sameDocument_compositeLayers.
  - split; [| done]. unfold snapshotEdit, clearRedoForActiveLayer, paintActive,
      pushUndoForActiveLayer. by rewrite !E.
Qed.

Lemma invertColors_is_edit w :
  sameDocument (snapshotEdit true (mapPixels (fun _ _ c => invertPixel c)) w)
               (invertColors true w) /\
  sameDocument w (invertColors false w).
Proof.
  unfold invertColors. destruct (activeLayer w) as [L|] eqn:E.
  - split; [| done].
    eapply sameDocument_trans; [by apply (filter_is_edit invertPixel) |].
    apply sameDocument_sym.
    eapply sameDocument_trans; [apply sameDocument_setText |].
    apply sameDocument_compositeLayers.
  - split; [| done]. unfold snapshotEdit, clearRedoForActiveLayer, paintActive,
      pushUndoForActiveLayer. by rewrite !E.
Qed.

Lemma undo_redo_roundtrip_witness :
  let w := singleLayer image2x2 BRUSH 1%float in
  activeLayer w = Some (mkLayer "Background" image2x2 [] [] 1%float) /\
  edits 1 w (clearCanvas w) /\
  Z.of_nat 1 <= MAX_UNDO /\
  image <$> activeLayer (Nat.iter 1 undo (clearCanvas w)) = Some image2x2.
Proof.
  intros w.
  assert (H1 : activeLayer w = Some (mkLayer "Background" image2x2 [] [] 1%float))
    by reflexivity.
  assert (H2 : edits 1 w (clearCanvas w))
    by (eapply edits_step; [apply edits_refl | apply clearCanvas_is_edit]).
  assert (H3 : Z.of_nat 1 <= MAX_UNDO) by (unfold MAX_UNDO; lia).
  exact (conj H1 (conj H2 (conj H3
           (proj1 (undo_redo_roundtrip 1 w (clearCanvas w) _ H1 H2 H3))))).
Defined.

(** ** Compositing *)

(** *** Pixel words as four bytes *)

Lemma land_land_masks p q m1 m2 :
  Z.land m1 m2 = 0 -> Z.land (Z.land p m1) (Z.land q m2) = 0.
Proof.
  intros H. apply Z.bits_inj'. intros n Hn.
  rewrite !Z.land_spec, Z.bits_0.
  apply (f_equal (fun z => Z.testbit z n)) in H.
  rewrite Z.land_spec, Z.bits_0 in H.
  destruct (Z.testbit m1 n), (Z.testbit m2 n); try discriminate;
    by rewrite ?andb_false_r.
Qed.

Lemma lor_masks p q m1 m2 :
  Z.land m1 m2 = 0 ->
  Z.lor (Z.land p m1) (Z.land q m2) = Z.land p m1 + Z.land q m2.
Proof.
  intros H. pose proof (Z.add_lor_land (Z.land p m1) (Z.land q m2)) as E.
  rewrite (land_land_masks p q m1 m2 H) in E. lia.
Qed.

Lemma land_shiftl_mask y m k :
  0 <= k -> Z.land y (Z.shiftl m k) = Z.shiftl (Z.land (Z.shiftr y k) m) k.
Proof.
  intros Hk. apply Z.bits_inj'. intros n Hn.
  rewrite Z.land_spec, !Z.shiftl_spec, Z.land_spec by done.
  destruct (Z_lt_le_dec n k) as [Hlt | Hge].
  - rewrite !(Z.testbit_neg_r _ (n - k)) by lia. by rewrite andb_false_r.
  - rewrite Z.shiftr_spec by lia. by replace (n - k + k) with n by lia.
Qed.

Lemma land_byte y : Z.land y 0xff = y mod 256.
Proof. change 0xff with (Z.ones 8). by rewrite Z.land_ones. Qed.

Lemma land_ff00ff y :
  Z.land y 0xff00ff = y mod 256 + 65536 * ((y / 65536) mod 256).
Proof.
  change 0xff00ff with (Z.lor 0xff (Z.shiftl 0xff 16)).
  rewrite Z.land_lor_distr_r, lor_masks by reflexivity.
  rewrite land_shiftl_mask, !land_byte, Z.shiftl_mul_pow2, Z.shiftr_div_pow2
    by lia.
  change (2 ^ 16) with 65536. lia.
Qed.

Lemma land_ff00ff00 y :
  Z.land y 0xff00ff00 = 256 * Z.land (y / 256) 0xff00ff.
Proof.
  change 0xff00ff00 with (Z.shiftl 0xff00ff 8).
  rewrite land_shiftl_mask, Z.shiftl_mul_pow2, Z.shiftr_div_pow2 by lia.
  change (2 ^ 8) with 256. lia.
Qed.

Lemma u32_mod z : u32 z = z mod 2 ^ 32.
Proof. unfold u32. change 0xFFFFFFFF with (Z.ones 32). by rewrite Z.land_ones. Qed.

Lemma channels_div c :
  qAlpha c = (c / 16777216) mod 256 /\ qRed c = (c / 65536) mod 256 /\
  qGreen c = (c / 256) mod 256 /\ qBlue c = c mod 256.
Proof.
  unfold qAlpha, qRed, qGreen, qBlue.
  by rewrite !land_byte, !Z.shiftr_div_pow2.
Qed.

Lemma div255_range t :
  0 <= t <= 65025 -> 0 <= div255 t <= 255 /\ Z.abs (255 * div255 t - t) <= 128.
Proof. intros H. unfold div255. Z.div_mod_to_equations. lia. Qed.

(** One half of [BYTE_MUL]: two bytes, 16 bits apart, scaled at once. *)
Lemma scale_pair p q :
  0 <= p <= 65025 -> 0 <= q <= 65025 ->
  let t := (p + 65536 * q) mod 2 ^ 32 in
  (t + Z.land (t / 256) 0xff00ff + 0x800080) mod 2 ^ 32
  = (p + p / 256 + 128) + 65536 * (q + q / 256 + 128).
Proof.
  intros Hp Hq t. unfold t. rewrite land_ff00ff.
  change (2 ^ 32) with 4294967296. change 0x800080 with 8388736.
  Z.div_mod_to_equations. lia.
Qed.

Lemma pair_bytes P Q :
  0 <= P < 65536 -> 0 <= Q < 65536 ->
  Z.land ((P + 65536 * Q) / 256) 0xff00ff = P / 256 + 65536 * (Q / 256).
Proof.
  intros HP HQ. rewrite land_ff00ff. Z.div_mod_to_equations. lia.
Qed.

Lemma half_BYTE_MUL lo hi a :
  0 <= lo <= 255 -> 0 <= hi <= 255 -> 0 <= a <= 255 ->
  let t := u32 ((lo + 65536 * hi) * a) in
  u32 (t + Z.land (Z.shiftr t 8) 0xff00ff + 0x800080)
  = (lo * a + lo * a / 256 + 128) + 65536 * (hi * a + hi * a / 256 + 128).
Proof.
  intros Hlo Hhi Ha t. unfold t.
  rewrite !u32_mod, Z.shiftr_div_pow2 by lia. change (2 ^ 8) with 256.
  replace ((lo + 65536 * hi) * a) with (lo * a + 65536 * (hi * a)) by ring.
  apply scale_pair; nia.
Qed.

(** [BYTE_MUL x a] scales each of the four bytes of [x] by [a / 255]. *)
Lemma BYTE_MUL_bytes x a :
  word x -> 0 <= a <= 255 ->
  BYTE_MUL x a
  = div255 (qBlue x * a) + 256 * div255 (qGreen x * a)
    + 65536 * div255 (qRed x * a) + 16777216 * div255 (qAlpha x * a).
Proof.
  intros Hx Ha. unfold word in Hx.
  destruct (channels_div x) as (EA & ER & EG & EB).
  assert (HB : 0 <= qBlue x <= 255) by (rewrite EB; Z.div_mod_to_equations; lia).
  assert (HG : 0 <= qGreen x <= 255) by (rewrite EG; Z.div_mod_to_equations; lia).
  assert (HR : 0 <= qRed x <= 255) by (rewrite ER; Z.div_mod_to_equations; lia).
  assert (HA : 0 <= qAlpha x <= 255) by (rewrite EA; Z.div_mod_to_equations; lia).
  assert (E1 : Z.land x 0xff00ff = qBlue x + 65536 * qRed x)
    by (by rewrite land_ff00ff, EB, ER).
  assert (E2 : Z.land (Z.shiftr x 8) 0xff00ff = qGreen x + 65536 * qAlpha x).
  { rewrite land_ff00ff, Z.shiftr_div_pow2, EG, EA by lia.
    change (2 ^ 8) with 256. rewrite Z.div_div by lia. done. }
  unfold BYTE_MUL. cbv zeta. rewrite E1, E2.
  rewrite (half_BYTE_MUL (qBlue x) (qRed x) a HB HR Ha).
  rewrite (half_BYTE_MUL (qGreen x) (qAlpha x) a HG HA Ha).
  rewrite lor_masks by reflexivity.
  rewrite land_ff00ff00, Z.shiftr_div_pow2 by lia. change (2 ^ 8) with 256.
  assert (Hb : 0 <= qBlue x * a <= 65025) by nia.
  assert (Hg : 0 <= qGreen x * a <= 65025) by nia.
  assert (Hr : 0 <= qRed x * a <= 65025) by nia.
  assert (Hal : 0 <= qAlpha x * a <= 65025) by nia.
  generalize dependent (qBlue x * a). generalize dependent (qGreen x * a).
  generalize dependent (qRed x * a). generalize dependent (qAlpha x * a).
  intros pa Hal pr Hr pg Hg pb Hb.
  rewrite !pair_bytes by (Z.div_mod_to_equations; lia).
  unfold div255. lia.
Qed.

Lemma BYTE_MUL_channels x a :
  word x -> 0 <= a <= 255 ->
  Forall (fun ch : QRgb -> Z => ch (BYTE_MUL x a) = div255 (ch x * a)) channels.
Proof.
  intros Hx Ha. pose proof (BYTE_MUL_bytes x a Hx Ha) as E.
  destruct (channels_div x) as (EA & ER & EG & EB).
  assert (HB : 0 <= qBlue x * a <= 65025)
    by (rewrite EB; pose proof (Z.mod_pos_bound x 256); nia).
  assert (HG : 0 <= qGreen x * a <= 65025)
    by (rewrite EG; pose proof (Z.mod_pos_bound (x / 256) 256); nia).
  assert (HR : 0 <= qRed x * a <= 65025)
    by (rewrite ER; pose proof (Z.mod_pos_bound (x / 65536) 256); nia).
  assert (HA : 0 <= qAlpha x * a <= 65025)
    by (rewrite EA; pose proof (Z.mod_pos_bound (x / 16777216) 256); nia).
  destruct (div255_range _ HB) as [RB _], (div255_range _ HG) as [RG _],
    (div255_range _ HR) as [RR _], (div255_range _ HA) as [RA _].
  destruct (channels_div (BYTE_MUL x a)) as (FA & FR & FG & FB).
  rewrite E in FA, FR, FG, FB.
  set (cB := div255 (qBlue x * a)) in *. set (cG := div255 (qGreen x * a)) in *.
  set (cR := div255 (qRed x * a)) in *. set (cA := div255 (qAlpha x * a)) in *.
  unfold channels. repeat constructor; rewrite E.
  - rewrite FA. fold cA. clearbody cA cR cG cB. Z.div_mod_to_equations. lia.
  - rewrite FR. fold cR. clearbody cA cR cG cB. Z.div_mod_to_equations. lia.
  - rewrite FG. fold cG. clearbody cA cR cG cB. Z.div_mod_to_equations. lia.
  - rewrite FB. fold cB. clearbody cA cR cG cB. Z.div_mod_to_equations. lia.
Qed.

Lemma word_BYTE_MUL x a : word x -> 0 <= a <= 255 -> word (BYTE_MUL x a).
Proof.
  intros Hx Ha. rewrite (BYTE_MUL_bytes x a Hx Ha).
  destruct (channels_div x) as (EA & ER & EG & EB).
  assert (HB : 0 <= qBlue x * a <= 65025)
    by (rewrite EB; pose proof (Z.mod_pos_bound x 256); nia).
  assert (HG : 0 <= qGreen x * a <= 65025)
    by (rewrite EG; pose proof (Z.mod_pos_bound (x / 256) 256); nia).
  assert (HR : 0 <= qRed x * a <= 65025)
    by (rewrite ER; pose proof (Z.mod_pos_bound (x / 65536) 256); nia).
  assert (HA : 0 <= qAlpha x * a <= 65025)
    by (rewrite EA; pose proof (Z.mod_pos_bound (x / 16777216) 256); nia).
  destruct (div255_range _ HB) as [RB _], (div255_range _ HG) as [RG _],
    (div255_range _ HR) as [RR _], (div255_range _ HA) as [RA _].
  unfold word. lia.
Qed.

Lemma qAlpha_not32 c : qAlpha (not32 c) = 255 - qAlpha c.
Proof.
  destruct (channels_div (not32 c)) as (-> & _), (channels_div c) as (-> & _).
  unfold not32. rewrite u32_mod. unfold Z.lnot, Z.pred.
  change (2 ^ 32) with 4294967296.
  Z.div_mod_to_equations. lia.
Qed.

(** *** Blending one pixel *)

Lemma blend_opaque s d : 0xff000000 <= s -> blendPixel 1%float s d = s.
Proof.
  intros H. rewrite blendPixel_one. unfold sourceOver.
  by replace (0xff000000 <=? s) with true by (symmetry; by apply Z.leb_le).
Qed.

Lemma blend_translucent s d :
  0 < s < 0xff000000 ->
  blendPixel 1%float s d = u32 (s + BYTE_MUL d (255 - qAlpha s)).
Proof.
  intros H. rewrite blendPixel_one. unfold sourceOver.
  replace (0xff000000 <=? s) with false by (symmetry; apply Z.leb_gt; lia).
  replace (s =? 0) with false by (symmetry; apply Z.eqb_neq; lia).
  by rewrite qAlpha_not32.
Qed.

Lemma blend_none o s d : intOpacity o = 0 -> blendPixel o s d = d.
Proof. intros H. unfold blendPixel. by rewrite H. Qed.

Lemma blend_scaled o s d :
  0 < intOpacity o < 256 ->
  blendPixel o s d =
    u32 (BYTE_MUL s (intOpacity o * 255 / 256)
         + BYTE_MUL d (255 - qAlpha (BYTE_MUL s (intOpacity o * 255 / 256)))).
Proof.
  intros H. unfold blendPixel. cbv zeta.
  replace (intOpacity o =? 256) with false by (symmetry; apply Z.eqb_neq; lia).
  replace (intOpacity o =? 0) with false by (symmetry; apply Z.eqb_neq; lia).
  by rewrite qAlpha_not32, Z.shiftr_div_pow2.
Qed.

(** *** Painting one image over another *)

Lemma rectangular_mapPixels f i : rectangular i -> rectangular (mapPixels f i).
Proof.
  intros H y row Hy. rewrite width_mapPixels.
  unfold mapPixels in Hy. simpl in Hy.
  rewrite list_lookup_imap in Hy.
  destruct (scanLines i !! y) as [row0|] eqn:E; [| done].
  injection Hy as <-. rewrite length_imap. by eapply H.
Qed.

Lemma pixel_mapPixels f i x y :
  rectangular i -> valid i x y = true ->
  pixel (mapPixels f i) x y = f x y (pixel i x y).
Proof.
  intros Hr Hv. apply valid_iff in Hv as [Hx Hy].
  destruct (Z_of_nat_complete x) as [nx ->]; [lia |].
  destruct (Z_of_nat_complete y) as [ny ->]; [lia |].
  destruct (lookup_lt_is_Some_2 (scanLines i) ny) as [row Hrow];
    [unfold height in Hy; lia |].
  pose proof (Hr _ _ Hrow) as Hlen.
  destruct (lookup_lt_is_Some_2 row nx) as [c Hc];
    [unfold QRgb in *; lia |].
  rewrite (pixel_lookup i _ _ _ _ Hrow Hc).
  apply (pixel_lookup _ nx ny
           (imap (fun x' c' => f (Z.of_nat x') (Z.of_nat ny) c') row)).
  - unfold mapPixels. simpl. by rewrite list_lookup_imap, Hrow.
  - by rewrite list_lookup_imap, Hc.
Qed.

Lemma pixel_drawImage o p src dst x y :
  rectangular dst -> valid dst x y = true ->
  pixel (drawImage o p src dst) x y =
    if valid src (x - px p) (y - py p)
    then blendPixel o (pixel src (x - px p) (y - py p)) (pixel dst x y)
    else pixel dst x y.
Proof. intros Hr Hv. unfold drawImage. by rewrite pixel_mapPixels. Qed.

Lemma rectangular_fold_drawImage (ls : list Layer) acc :
  rectangular acc ->
  rectangular (fold_left (fun comp li =>
                            drawImage (opacity li) (mkQPoint 0 0) (image li) comp)
                         ls acc).
Proof.
  revert acc. induction ls as [|l ls IH]; intros acc Hr; simpl; [done |].
  apply IH. by apply rectangular_mapPixels.
Qed.

(** C6.  [compositeLayers] leaves the layers as they are and shows a
    composite that has the size of layer 0's buffer, is that buffer itself
    when there is one layer, whatever its opacity, and is built bottom to
    top: with a further layer [l] on top, every pixel is the pixel of [l]
    at that place blended under [l]'s opacity over the pixel composed from
    the layers below, and the pixel from below where [l] has none.  A layer
    of opacity 0 contributes nothing.  At opacity 1.0 the blend is plain
    source-over: an opaque pixel replaces what is below, a transparent one
    leaves it, and a translucent one is added to what is below scaled by
    255 minus its alpha; at an opacity in between the pixel of [l] is
    first scaled by the opacity.  Scaling a word by [a] multiplies each of
    its four channels by [a / 255], rounded to within 128/255. *)
Theorem compositeLayers_spec (w : MainWindow) (l0 : Layer) (rest : list Layer) :
  layers w = l0 :: rest ->
  rectangular (image l0) ->
  let comp ls := composite (canvas (compositeLayers (setLayers ls w))) in
  (layers (compositeLayers w) = layers w /\
   composite (canvas (compositeLayers w)) = comp (l0 :: rest) /\
   size (comp (l0 :: rest)) = size (image l0) /\
   comp [l0] = image l0) /\
  (forall ls l x y,
      valid (image l0) x y = true ->
      pixel (comp (l0 :: ls ++ [l])) x y =
        if valid (image l) x y
        then blendPixel (opacity l) (pixel (image l) x y)
               (pixel (comp (l0 :: ls)) x y)
        else pixel (comp (l0 :: ls)) x y) /\
  (forall a l b,
      opacity l = 0%float -> comp (l0 :: a ++ l :: b) = comp (l0 :: a ++ b)) /\
  (forall s d,
      blendPixel 1%float 0 d = d /\
      (0xff000000 <= s -> blendPixel 1%float s d = s) /\
      (0 < s < 0xff000000 ->
       blendPixel 1%float s d = u32 (s + BYTE_MUL d (255 - qAlpha s)))) /\
  (forall o s d,
      (intOpacity o = 0 -> blendPixel o s d = d) /\
      (0 < intOpacity o < 256 ->
       blendPixel o s d =
         u32 (BYTE_MUL s (intOpacity o * 255 / 256)
              + BYTE_MUL d
                  (255 - qAlpha (BYTE_MUL s (intOpacity o * 255 / 256)))))) /\
  (intOpacity 1%float = 256 /\ intOpacity 0.5%float = 128 /\
   intOpacity 0%float = 0) /\
  (forall x a,
      word x -> 0 <= a <= 255 ->
      Forall (fun ch : QRgb -> Z =>
                ch (BYTE_MUL x a) = div255 (ch x * a) /\
                Z.abs (255 * ch (BYTE_MUL x a) - ch x * a) <= 128)
             channels).
Proof.
  intros Hl Hr comp.
  assert (Hcomp : forall ls,
             comp (l0 :: ls) =
             fold_left (fun c li =>
                          drawImage (opacity li) (mkQPoint 0 0) (image li) c)
                       ls (image l0)) by done.
  split_and!.
  - apply sameDocument_compositeLayers.
  - unfold comp, compositeLayers. simpl. by rewrite Hl.
  - rewrite Hcomp. apply size_fold_drawImage.
  - done.
  - intros ls l x y Hv. rewrite !Hcomp, fold_left_app. simpl.
    rewrite pixel_drawImage.
    + simpl. by rewrite !Z.sub_0_r.
    + by apply rectangular_fold_drawImage.
    + pose proof (size_fold_drawImage ls (image l0)) as Hs.
      injection Hs as Hw Hh. apply valid_iff. rewrite Hw, Hh.
      by apply valid_iff.
  - intros a l b Ho. rewrite !Hcomp, !fold_left_app. simpl.
    by rewrite Ho, drawImage_zero.
  - intros s d. split_and!; [done | apply blend_opaque | apply blend_translucent].
  - intros o s d. split; [apply blend_none | apply blend_scaled].
  - vm_compute; reflexivity.
  - vm_compute; reflexivity.
  - vm_compute; reflexivity.
  - intros x a Hx Ha.
    pose proof (BYTE_MUL_channels x a Hx Ha) as H.
    destruct (channels_div x) as (EA & ER & EG & EB).
    assert (HB : 0 <= qBlue x * a <= 65025)
      by (rewrite EB; pose proof (Z.mod_pos_bound x 256); nia).
    assert (HG : 0 <= qGreen x * a <= 65025)
      by (rewrite EG; pose proof (Z.mod_pos_bound (x / 256) 256); nia).
    assert (HR : 0 <= qRed x * a <= 65025)
      by (rewrite ER; pose proof (Z.mod_pos_bound (x / 65536) 256); nia).
    assert (HA : 0 <= qAlpha x * a <= 65025)
      by (rewrite EA; pose proof (Z.mod_pos_bound (x / 16777216) 256); nia).
    unfold channels in *.
    repeat match goal with
           | H : Forall _ (_ :: _) |- _ => apply Forall_cons in H as [? H]
           end.
    repeat constructor; try done;
      match goal with
      | E : ?ch (BYTE_MUL x a) = _ |- Z.abs (255 * ?ch (BYTE_MUL x a) - _) <= 128 =>
          rewrite E; by apply div255_range
      end.
Qed.

Lemma compositeLayers_spec_witness :
  layers redOverWhite =
    mkLayer "Background" (filled Format_ARGB32_Premultiplied 2 2 0xffffffff)
      [] [] 1%float
    :: [mkLayer "Layer 1" (filled Format_ARGB32_Premultiplied 2 2 red)
          [] [] 0.5%float] /\
  composite (canvas (compositeLayers redOverWhite))
    = filled Format_ARGB32_Premultiplied 2 2 0xffff8080 /\
  pixel (composite (canvas (compositeLayers redOverWhite))) 1 1
    = blendPixel 0.5%float red 0xffffffff /\
  blendPixel 0.5%float red 0xffffffff
    = u32 (BYTE_MUL red 127 + BYTE_MUL 0xffffffff (255 - 127)) /\
  Forall (fun ch : QRgb -> Z => ch (BYTE_MUL red 127) = div255 (ch red * 127))
    channels.
Proof.
  assert (H : layers redOverWhite =
    mkLayer "Background" (filled Format_ARGB32_Premultiplied 2 2 0xffffffff)
      [] [] 1%float
    :: [mkLayer "Layer 1" (filled Format_ARGB32_Premultiplied 2 2 red)
          [] [] 0.5%float]) by reflexivity.
  assert (Hr : rectangular (filled Format_ARGB32_Premultiplied 2 2 0xffffffff)).
  { intros y row Hy. destruct y as [|[|y]]; simpl in Hy; [| | done];
      by injection Hy as <-. }
  destruct (compositeLayers_spec redOverWhite _ _ H Hr)
    as ((_ & E & _) & Hpx & _ & _ & Hsc & _ & Hch).
  split; [exact H |]. split; [vm_compute; reflexivity |].
  split.
  - rewrite E.
    etrans;
      [apply (Hpx [] (mkLayer "Layer 1"
                        (filled Format_ARGB32_Premultiplied 2 2 red) [] []
                        0.5%float) 1 1); vm_compute; reflexivity |].
    vm_compute. reflexivity.
  - split.
    + destruct (Hsc 0.5%float red 0xffffffff) as [_ Hs].
      rewrite Hs by (vm_compute; split; reflexivity). vm_compute. reflexivity.
    + eapply Forall_impl; [apply (Hch red 127) |].
      * unfold word. vm_compute. split; [discriminate | reflexivity].
      * lia.
      * by intros ch [? _].
Defined.

(** * Further properties *)

(** ** History *)

Lemma undo_onActive w : sameDocument (undo w) (onActive undoLayer w).
Proof.
  unfold undo, onActive, undoLayer.
  destruct (activeLayer w) as [L|] eqn:E; [| done].
  destruct (last (undoStack L)) as [prev|].
  - eapply sameDocument_trans; [apply sameDocument_setText |].
    apply sameDocument_compositeLayers.
  - eapply sameDocument_trans; [apply sameDocument_setText |].
    split; [| done]. by rewrite layers_store_same.
Qed.

Lemma redo_onActive w : sameDocument (redo w) (onActive redoLayer w).
Proof.
  unfold redo, onActive, redoLayer.
  destruct (activeLayer w) as [L|] eqn:E; [| done].
  destruct (last (redoStack L)) as [next|].
  - eapply sameDocument_trans; [apply sameDocument_setText |].
    apply sameDocument_compositeLayers.
  - eapply sameDocument_trans; [apply sameDocument_setText |].
    split; [| done]. by rewrite layers_store_same.
Qed.

(** What [onActive] leaves alone: the other layers and the number of
    layers. *)
Lemma onActive_frame g w :
  length (layers (onActive g w)) = length (layers w) /\
  activeLayerIndex (onActive g w) = activeLayerIndex w /\
  forall i, i <> Z.to_nat (activeLayerIndex w) ->
            layers (onActive g w) !! i = layers w !! i.
Proof.
  unfold onActive. destruct (activeLayer w); [| done]. simpl.
  rewrite length_insert. repeat split.
  intros i Hi. by apply list_lookup_insert_ne.
Qed.

Lemma timeline_undoLayer L : timeline (undoLayer L) = timeline L.
Proof.
  destruct L as [n i u r o].
  destruct u as [|x u _] using rev_ind; [done |].
  rewrite undoLayer_snoc. unfold timeline. cbn [undoStack image redoStack].
  by rewrite reverse_snoc, <- app_assoc.
Qed.

Lemma redoLayer_snoc n i u r x o :
  redoLayer (mkLayer n i u (r ++ [x]) o) = mkLayer n x (u ++ [i]) r o.
Proof. unfold redoLayer. simpl. by rewrite last_snoc, removelast_last. Qed.

Lemma timeline_redoLayer L : timeline (redoLayer L) = timeline L.
Proof.
  destruct L as [n i u r o].
  destruct r as [|x r _] using rev_ind; [done |].
  rewrite redoLayer_snoc. unfold timeline. cbn [undoStack image redoStack].
  by rewrite reverse_snoc, <- app_assoc.
Qed.

(** X1.  [undo] and [redo] only move along the timeline of the active
    layer: the sequence "undo stack, buffer, redo stack read backwards" of
    that layer stays the same, and so do the number of layers, the
    active index and every other layer. *)
Theorem undo_redo_keep_timeline (w : MainWindow) :
  Forall (fun op : MainWindow -> MainWindow =>
            timeline <$> activeLayer (op w) = timeline <$> activeLayer w /\
            length (layers (op w)) = length (layers w) /\
            activeLayerIndex (op w) = activeLayerIndex w /\
            forall i, i <> Z.to_nat (activeLayerIndex w) ->
                      layers (op w) !! i = layers w !! i)
         [undo; redo].
Proof.
  repeat constructor.
  - rewrite activeLayer_undo. destruct (activeLayer w); [| done].
    simpl. by rewrite timeline_undoLayer.
  - destruct (undo_onActive w) as [-> _]. apply onActive_frame.
  - by destruct (undo_onActive w) as [_ ->], (onActive_frame undoLayer w) as (_ & -> & _).
  - destruct (undo_onActive w) as [-> _]. apply onActive_frame.
  - rewrite activeLayer_redo. destruct (activeLayer w); [| done].
    simpl. by rewrite timeline_redoLayer.
  - destruct (redo_onActive w) as [-> _]. apply onActive_frame.
  - by destruct (redo_onActive w) as [_ ->], (onActive_frame redoLayer w) as (_ & -> & _).
  - destruct (redo_onActive w) as [-> _]. apply onActive_frame.
Qed.

Lemma last_pushLayer L : last (undoStack (pushLayer L)) = Some (image L).
Proof.
  destruct (undoStack_pushLayer L) as (c & -> & [-> | [-> H]]).
  - apply last_snoc.
  - destruct (undoStack L) as [|x u]; [unfold MAX_UNDO in H; simpl in H; lia |].
    simpl. rewrite drop_0. apply last_snoc.
Qed.

(** X2.  [pushUndoForActiveLayer] leaves the buffer alone and puts a copy
    of it on top of the undo stack; a stack of fewer than 20 entries grows
    by one, a stack of 20 loses its oldest entry, so a stack within the
    bound stays within it. *)
Theorem pushUndo_bounded (w : MainWindow) (L : Layer) :
  activeLayer w = Some L ->
  exists L',
    activeLayer (pushUndoForActiveLayer w) = Some L' /\
    image L' = image L /\ redoStack L' = redoStack L /\
    last (undoStack L') = Some (image L) /\
    (Z.of_nat (length (undoStack L)) < MAX_UNDO ->
       undoStack L' = undoStack L ++ [image L]) /\
    (Z.of_nat (length (undoStack L)) = MAX_UNDO ->
       undoStack L' = drop 1 (undoStack L) ++ [image L]) /\
    (Z.of_nat (length (undoStack L)) <= MAX_UNDO ->
       Z.of_nat (length (undoStack L')) <= MAX_UNDO).
Proof.
  intros HL. exists (pushLayer L). rewrite activeLayer_pushUndo, HL.
  split; [done |]. split; [done |]. split; [done |].
  split; [apply last_pushLayer |].
  unfold pushLayer, MAX_UNDO. simpl. rewrite length_app. simpl.
  repeat split; intros H.
  - by replace (20 <? _) with false by (symmetry; apply Z.ltb_ge; lia).
  - replace (20 <? _) with true by (symmetry; apply Z.ltb_lt; lia).
    destruct (undoStack L); [simpl in H; lia | done].
  - destruct (20 <? _) eqn:E.
    + rewrite length_drop, length_app. simpl. lia.
    + apply Z.ltb_ge in E. rewrite length_app. simpl. lia.
Qed.

Lemma pushUndo_bounded_witness :
  activeLayer (singleLayer image2x2 BRUSH 1%float)
    = Some (mkLayer "Background" image2x2 [] [] 1%float) /\
  exists L',
    activeLayer (pushUndoForActiveLayer (singleLayer image2x2 BRUSH 1%float))
      = Some L' /\
    undoStack L' = [image2x2].
Proof.
  split; [reflexivity |].
  destruct (pushUndo_bounded (singleLayer image2x2 BRUSH 1%float) _ eq_refl)
    as (L' & H1 & _ & _ & _ & H2 & _).
  exists L'. split; [exact H1 |]. apply H2. unfold MAX_UNDO. simpl. lia.
Defined.

Lemma undoLayer_redoLayer L :
  redoStack L <> [] -> undoLayer (redoLayer L) = L.
Proof.
  destruct L as [n i u r o]. simpl. intros Hr.
  destruct (exists_last Hr) as (r' & x & ->).
  unfold redoLayer. simpl. rewrite last_snoc, removelast_last.
  by rewrite undoLayer_snoc.
Qed.

Lemma onActive_id w L g :
  activeLayer w = Some L -> g L = L -> layers (onActive g w) = layers w.
Proof.
  intros H E. unfold onActive. rewrite H, E. by apply layers_store_same.
Qed.

(** X3.  [undo] right after a [redo] that had something to redo gives
    every layer back as it was: buffers and both stacks. *)
Theorem undo_after_redo (w : MainWindow) (L : Layer) :
  activeLayer w = Some L ->
  redoStack L <> [] ->
  layers (undo (redo w)) = layers w /\
  activeLayerIndex (undo (redo w)) = activeLayerIndex w.
Proof.
  intros HL Hr.
  pose proof (sameDocument_trans _ _ _ (undo_onActive (redo w))
                (onActive_sameDocument undoLayer _ _ (redo_onActive w))) as H.
  pose proof (sameDocument_trans _ _ _ H (onActive_onActive _ _ _)) as [-> ->].
  split.
  - apply (onActive_id _ L); [done |]. by apply undoLayer_redoLayer.
  - apply onActive_frame.
Qed.

Lemma undo_after_redo_witness :
  let w := undo (clearCanvas (singleLayer image2x2 BRUSH 1%float)) in
  activeLayer w
    = Some (mkLayer "Background" image2x2 []
              [filled Format_ARGB32_Premultiplied 2 2 transparent] 1%float) /\
  [filled Format_ARGB32_Premultiplied 2 2 transparent] <> [] /\
  layers (undo (redo w)) = layers w.
Proof.
  intros w.
  assert (H1 : activeLayer w
    = Some (mkLayer "Background" image2x2 []
              [filled Format_ARGB32_Premultiplied 2 2 transparent] 1%float))
    by reflexivity.
  assert (H2 : [filled Format_ARGB32_Premultiplied 2 2 transparent] <> [])
    by discriminate.
  exact (conj H1 (conj H2 (proj1 (undo_after_redo w _ H1 H2)))).
Defined.

Lemma undoLayer_editLayer b f L :
  image (undoLayer (editLayer b f L)) = image L /\
  redoStack (undoLayer (editLayer b f L))
    = (if b then [] else redoStack L) ++ [f (image L)].
Proof.
  unfold undoLayer.
  change (undoStack (editLayer b f L)) with (undoStack (pushLayer L)).
  by rewrite last_pushLayer.
Qed.

(** X4.  Rejecting the preview of [grayscale] or [invertColors] leaves
    every layer as it was.  Accepting it replaces the buffer of the active
    layer by the filtered copy, empties its redo stack, and one [undo]
    brings the unfiltered buffer back. *)
Theorem filter_preview (w : MainWindow) (L : Layer) :
  activeLayer w = Some L ->
  (layers (grayscale false w) = layers w /\
   layers (invertColors false w) = layers w) /\
  (activeImage (grayscale true w)
     = Some (mapPixels (fun _ _ c => grayPixel c) (image L)) /\
   activeRedo (grayscale true w) = Some [] /\
   activeImage (undo (grayscale true w)) = Some (image L)) /\
  (activeImage (invertColors true w)
     = Some (mapPixels (fun _ _ c => invertPixel c) (image L)) /\
   activeRedo (invertColors true w) = Some [] /\
   activeImage (undo (invertColors true w)) = Some (image L)).
Proof.
  intros HL.
  destruct (grayscale_is_edit w) as [Hg [Hg' _]].
  destruct (invertColors_is_edit w) as [Hi [Hi' _]].
  split; [by split |].
  unfold activeImage, activeRedo.
  rewrite !activeLayer_undo.
  rewrite <- !(activeLayer_sameDocument _ _ Hg),
          <- !(activeLayer_sameDocument _ _ Hi).
  rewrite !activeLayer_snapshotEdit, HL. simpl.
  repeat split; f_equal; apply undoLayer_editLayer.
Qed.

Lemma filter_preview_witness :
  activeLayer (singleLayer image2x2 BRUSH 1%float)
    = Some (mkLayer "Background" image2x2 [] [] 1%float) /\
  activeImage (undo (grayscale true (singleLayer image2x2 BRUSH 1%float)))
    = Some image2x2.
Proof.
  split; [reflexivity |].
  exact (proj2 (proj2 (proj1 (proj2
    (filter_preview (singleLayer image2x2 BRUSH 1%float) _ eq_refl))))).
Defined.

(** ** Pixels of the filters *)

Lemma testbit_255 n : 0 <= n -> Z.testbit 255 n = (n <? 8).
Proof.
  intros Hn. change 255 with (Z.ones 8).
  destruct (Z.ltb_spec n 8).
  - apply Z.ones_spec_low. lia.
  - apply Z.ones_spec_high. lia.
Qed.

Lemma land_255 x : 0 <= x < 256 -> Z.land x 255 = x.
Proof.
  intros H. change 255 with (Z.ones 8). rewrite Z.land_ones by lia.
  apply Z.mod_small. lia.
Qed.

Lemma land_255_range x : 0 <= Z.land x 255 < 256.
Proof.
  change 255 with (Z.ones 8). rewrite Z.land_ones by lia.
  apply Z.mod_pos_bound. lia.
Qed.

Ltac channel_bits :=
  apply Z.bits_inj'; intros n Hn;
  destruct (Z.ltb_spec n 8);
  repeat first
    [ rewrite Z.land_spec | rewrite Z.lor_spec
    | rewrite Z.shiftr_spec by lia | rewrite Z.shiftl_spec by lia ];
  repeat match goal with
         | |- context [Z.testbit 255 ?m] =>
             first [ rewrite (Z.testbit_neg_r 255 m) by lia
                   | rewrite (testbit_255 m) by lia ]
         end;
  repeat match goal with
         | |- context [?a <? 8] =>
             first [ rewrite (proj2 (Z.ltb_lt a 8)) by lia
                   | rewrite (proj2 (Z.ltb_ge a 8)) by lia ]
         end;
  rewrite ?andb_false_r, ?andb_true_r, ?orb_false_r, ?orb_false_l;
  try reflexivity; try (f_equal; lia).

Lemma qAlpha_qRgba r g b a : qAlpha (qRgba r g b a) = Z.land a 255.
Proof. unfold qAlpha, qRgba. channel_bits. Qed.

Lemma qRed_qRgba r g b a : qRed (qRgba r g b a) = Z.land r 255.
Proof. unfold qRed, qRgba. channel_bits. Qed.

Lemma qGreen_qRgba r g b a : qGreen (qRgba r g b a) = Z.land g 255.
Proof. unfold qGreen, qRgba. channel_bits. Qed.

Lemma qBlue_qRgba r g b a : qBlue (qRgba r g b a) = Z.land b 255.
Proof. unfold qBlue, qRgba. channel_bits. Qed.

Lemma channel_range c :
  0 <= qRed c < 256 /\ 0 <= qGreen c < 256 /\ 0 <= qBlue c < 256 /\
  0 <= qAlpha c < 256.
Proof. unfold qRed, qGreen, qBlue, qAlpha. repeat split; apply land_255_range. Qed.

Lemma qGray_range c : 0 <= qGray c < 256.
Proof.
  destruct (channel_range c) as (Hr & Hg & Hb & _). unfold qGray.
  split; [apply Z.div_pos; lia | apply Z.div_lt_upper_bound; lia].
Qed.

Lemma qGray_grayPixel c : qGray (grayPixel c) = qGray c.
Proof.
  pose proof (qGray_range c) as H. unfold grayPixel.
  unfold qGray at 1. rewrite qRed_qRgba, qGreen_qRgba, qBlue_qRgba.
  rewrite !land_255 by done.
  replace (qGray c * 11 + qGray c * 16 + qGray c * 5) with (qGray c * 32) by lia.
  by apply Z.div_mul.
Qed.

Lemma grayPixel_idempotent c : grayPixel (grayPixel c) = grayPixel c.
Proof. unfold grayPixel at 1 3. cbv zeta. by rewrite qGray_grayPixel. Qed.

Lemma invertPixel_channels c :
  qRed (invertPixel c) = 255 - qRed c /\
  qGreen (invertPixel c) = 255 - qGreen c /\
  qBlue (invertPixel c) = 255 - qBlue c /\
  qAlpha (invertPixel c) = 255.
Proof.
  destruct (channel_range c) as (Hr & Hg & Hb & _). unfold invertPixel.
  rewrite qRed_qRgba, qGreen_qRgba, qBlue_qRgba, qAlpha_qRgba.
  rewrite !land_255 by lia. done.
Qed.

Lemma qRgba_channels c :
  0 <= c < 2 ^ 32 -> qRgba (qRed c) (qGreen c) (qBlue c) (qAlpha c) = c.
Proof.
  intros Hc. unfold qRgba, qRed, qGreen, qBlue, qAlpha.
  apply Z.bits_inj'. intros n Hn.
  assert (Hhigh : 32 <= n -> Z.testbit c n = false).
  { intros H. destruct (Z.eq_dec c 0) as [-> | Hne]; [apply Z.bits_0 |].
    apply Z.bits_above_log2; [lia |].
    apply Z.log2_lt_pow2; [lia |].
    apply Z.lt_le_trans with (2 ^ 32); [lia |].
    apply Z.pow_le_mono_r; lia. }
  rewrite !Z.lor_spec.
  destruct (Z.ltb_spec n 8); [| destruct (Z.ltb_spec n 16);
    [| destruct (Z.ltb_spec n 24); [| destruct (Z.ltb_spec n 32)]]];
  repeat match goal with
         | |- context [Z.testbit (Z.shiftl ?x ?k) ?m] =>
             first [ rewrite (Z.testbit_neg_r (Z.shiftl x k) m) by lia
                   | rewrite (Z.shiftl_spec x k m) by lia ]
         end;
  rewrite !Z.land_spec;
  repeat match goal with
         | |- context [Z.testbit (Z.shiftr ?x ?k) ?m] =>
             first [ rewrite (Z.testbit_neg_r (Z.shiftr x k) m) by lia
                   | rewrite (Z.shiftr_spec x k m) by lia ]
         end;
  repeat match goal with
         | |- context [Z.testbit 255 ?m] =>
             first [ rewrite (Z.testbit_neg_r 255 m) by lia
                   | rewrite (testbit_255 m) by lia ]
         end;
  repeat match goal with
         | |- context [?a <? 8] =>
             first [ rewrite (proj2 (Z.ltb_lt a 8)) by lia
                   | rewrite (proj2 (Z.ltb_ge a 8)) by lia ]
         end;
  rewrite ?andb_false_r, ?andb_true_r, ?andb_false_l, ?orb_false_r,
    ?orb_false_l;
  repeat match goal with
         | |- context [Z.testbit c ?m] =>
             lazymatch m with
             | n => fail
             | _ => replace m with n by lia
             end
         end;
  try reflexivity.
  symmetry. apply Hhigh. lia.
Qed.

Lemma qAlpha_opaque c : 0xff000000 <= c < 2 ^ 32 -> qAlpha c = 255.
Proof.
  intros H. unfold qAlpha. rewrite Z.shiftr_div_pow2 by lia.
  assert (c / 2 ^ 24 = 255) as ->; [| done].
  apply Z.le_antisymm.
  - apply Z.lt_succ_r. apply Z.div_lt_upper_bound; lia.
  - apply Z.div_le_lower_bound; lia.
Qed.

Lemma invertPixel_involutive c :
  0xff000000 <= c < 2 ^ 32 -> invertPixel (invertPixel c) = c.
Proof.
  intros H. destruct (invertPixel_channels c) as (Hr & Hg & Hb & _).
  unfold invertPixel at 1. rewrite Hr, Hg, Hb.
  replace (255 - (255 - qRed c)) with (qRed c) by lia.
  replace (255 - (255 - qGreen c)) with (qGreen c) by lia.
  replace (255 - (255 - qBlue c)) with (qBlue c) by lia.
  rewrite <- (qAlpha_opaque c H) at 1. apply qRgba_channels. lia.
Qed.

Lemma mapPixels_mapPixels f g i :
  mapPixels f (mapPixels g i) = mapPixels (fun x y c => f x y (g x y c)) i.
Proof.
  unfold mapPixels. simpl. f_equal.
  apply list_eq. intros y. rewrite !list_lookup_imap.
  destruct (scanLines i !! y) as [row|]; simpl; [| done]. f_equal.
  apply list_eq. intros x. rewrite !list_lookup_imap.
  by destruct (row !! x).
Qed.

Lemma mapPixels_ext f g i :
  (forall x y row c,
      scanLines i !! y = Some row -> row !! x = Some c ->
      f (Z.of_nat x) (Z.of_nat y) c = g (Z.of_nat x) (Z.of_nat y) c) ->
  mapPixels f i = mapPixels g i.
Proof.
  intros H. unfold mapPixels. f_equal.
  apply imap_ext. intros y row Hy. apply imap_ext. intros x c Hx.
  by eapply H.
Qed.

(** X5.  Accepted twice, [grayscale] gives the buffer it gives accepted
    once; accepted twice on a buffer of opaque pixels, [invertColors] gives
    the buffer back bit for bit.  Both write alpha 255 into every pixel
    they touch. *)
Theorem filters_twice (w : MainWindow) (L : Layer) :
  activeLayer w = Some L ->
  activeImage (grayscale true (grayscale true w))
    = activeImage (grayscale true w) /\
  (opaqueImage (image L) ->
   activeImage (invertColors true (invertColors true w)) = Some (image L)) /\
  (forall c, qAlpha (grayPixel c) = 255 /\ qAlpha (invertPixel c) = 255).
Proof.
  intros HL. unfold activeImage.
  rewrite <- !(activeLayer_sameDocument _ _ (proj1 (grayscale_is_edit _))).
  rewrite <- !(activeLayer_sameDocument _ _ (proj1 (invertColors_is_edit _))).
  rewrite !activeLayer_snapshotEdit.
  rewrite <- !(activeLayer_sameDocument _ _ (proj1 (grayscale_is_edit _))).
  rewrite <- !(activeLayer_sameDocument _ _ (proj1 (invertColors_is_edit _))).
  rewrite !activeLayer_snapshotEdit, HL. simpl. repeat split.
  - f_equal. rewrite mapPixels_mapPixels. apply mapPixels_ext.
    intros. apply grayPixel_idempotent.
  - intros Ho. f_equal. rewrite mapPixels_mapPixels. apply mapPixels_id.
    intros x y row c Hy Hx. apply invertPixel_involutive. by eapply Ho.
  - unfold grayPixel. cbv zeta. by rewrite qAlpha_qRgba.
  - apply invertPixel_channels.
Qed.

Lemma filters_twice_witness :
  activeLayer (singleLayer image3x3 BRUSH 1%float)
    = Some (mkLayer "Background" image3x3 [] [] 1%float) /\
  activeImage (grayscale true (grayscale true (singleLayer image3x3 BRUSH 1%float)))
    = activeImage (grayscale true (singleLayer image3x3 BRUSH 1%float)) /\
  activeImage
    (invertColors true (invertColors true (singleLayer image3x3 BRUSH 1%float)))
    = Some image3x3.
Proof.
  split; [reflexivity |].
  destruct (filters_twice (singleLayer image3x3 BRUSH 1%float) _ eq_refl)
    as (H1 & H2 & _).
  split; [exact H1 |]. apply H2.
  intros y row x c Hy Hx.
  destruct y as [|[|[|y]]]; simpl in Hy; [| | | done]; injection Hy as <-;
    destruct x as [|[|[|x]]]; simpl in Hx; [| | | done | | | | done | | | | done];
    injection Hx as <-; vm_compute; split; congruence.
Defined.

(** ** Cut, then paste *)

Lemma BYTE_MUL_zero a : BYTE_MUL 0 a = 0.
Proof. reflexivity. Qed.

Lemma u32_word c : 0 <= c < 2 ^ 32 -> u32 c = c.
Proof.
  intros H. unfold u32. change 0xFFFFFFFF with (Z.ones 32).
  rewrite Z.land_ones by lia. by apply Z.mod_small.
Qed.

Lemma sourceOver_on_transparent c : 0 <= c < 2 ^ 32 -> sourceOver c 0 = c.
Proof.
  intros H. unfold sourceOver.
  destruct (0xff000000 <=? c); [done |].
  destruct (Z.eqb_spec c 0) as [-> | _]; [done |].
  rewrite BYTE_MUL_zero, Z.add_0_r. by apply u32_word.
Qed.

Lemma normalized_valid r : x1 r <= x2 r -> y1 r <= y2 r -> normalized r = r.
Proof.
  intros Hx Hy. destruct r as [a b c d]. unfold normalized. simpl in *.
  replace (c <? a) with false by (symmetry; apply Z.ltb_ge; lia).
  by replace (d <? b) with false by (symmetry; apply Z.ltb_ge; lia).
Qed.

Lemma copyRect_generate r img :
  isNull img = false -> x1 r <= x2 r ->
  copyRect r img =
  generate (format img) (rwidth r) (rheight r)
    (fun x y => if valid img (x1 r + x) (y1 r + y)
                then pixel img (x1 r + x) (y1 r + y) else 0).
Proof.
  intros H Hx. unfold copyRect, rectIsNull. rewrite H.
  by replace (x2 r =? x1 r - 1) with false
    by (symmetry; apply Z.eqb_neq; lia).
Qed.

Lemma isNull_generate fmt w h f :
  0 < w -> 0 < h -> isNull (generate fmt w h f) = false.
Proof.
  intros Hw Hh. destruct (generate_dims fmt w h f Hw Hh) as [Ew Eh].
  unfold isNull. rewrite Ew, Eh.
  apply orb_false_iff. split; apply Z.leb_gt; lia.
Qed.

Lemma wellFormed_valid i x y row c :
  wellFormed i -> scanLines i !! y = Some row -> row !! x = Some c ->
  valid i (Z.of_nat x) (Z.of_nat y) = true /\ 0 <= c < 2 ^ 32.
Proof.
  intros Hwf Hy Hx. destruct (Hwf y row Hy) as [Hlen Hword].
  split; [| by eapply Hword].
  apply valid_iff. apply lookup_lt_Some in Hx, Hy. unfold height.
  rewrite <- Hlen. unfold QRgb in *. lia.
Qed.

(** Blitting a rectangular copy over the cleared rectangle gives the
    buffer back. *)
Lemma paste_over_cut r img :
  wellFormed img -> isNull img = false ->
  x1 r <= x2 r -> y1 r <= y2 r ->
  drawImage 1%float (topLeft r) (copyRect r img) (clearRect r img) = img.
Proof.
  intros Hwf Hn Hx Hy. unfold drawImage, clearRect.
  rewrite mapPixels_mapPixels, normalized_valid by done.
  apply mapPixels_id. intros x y row c Hrow Hc.
  destruct (wellFormed_valid _ _ _ _ _ Hwf Hrow Hc) as [Hv Hw].
  rewrite copyRect_generate by done.
  assert (Hrw : 0 < rwidth r) by (unfold rwidth; lia).
  assert (Hrh : 0 < rheight r) by (unfold rheight; lia).
  simpl.
  match goal with
  | |- context [generate ?fm ?a ?b ?f] =>
      destruct (generate_dims fm a b f Hrw Hrh) as [Ew Eh]
  end.
  destruct (rectContains r (Z.of_nat x) (Z.of_nat y)) eqn:Hin.
  - unfold rectContains in Hin.
    rewrite !andb_true_iff, !Z.leb_le in Hin.
    replace (valid (generate _ _ _ _) _ _) with true
      by (symmetry; apply valid_iff; rewrite Ew, Eh;
          unfold rwidth, rheight; lia).
    rewrite pixel_generate by (unfold rwidth, rheight; lia).
    replace (x1 r + (Z.of_nat x - x1 r)) with (Z.of_nat x) by lia.
    replace (y1 r + (Z.of_nat y - y1 r)) with (Z.of_nat y) by lia.
    rewrite Hv, (pixel_lookup _ _ _ _ _ Hrow Hc), blendPixel_one.
    by apply sourceOver_on_transparent.
  - destruct (valid (generate _ _ _ _) _ _) eqn:V; [| done]. exfalso.
    apply valid_iff in V. rewrite Ew, Eh in V.
    unfold rectContains, rwidth, rheight in *.
    apply not_true_iff_false in Hin. apply Hin.
    rewrite !andb_true_iff, !Z.leb_le. lia.
Qed.

Lemma cutSelection_canvas w w' :
  cutSelection w = Some w' ->
  selectionRect (canvas w') = selectionRect (canvas w) /\
  currentTool (canvas w') = currentTool (canvas w).
Proof.
  unfold cutSelection. destruct (negb _); [by intros [= <-] |].
  cbv zeta. destruct (activeLayer _); [| done]. intros [= <-].
  destruct (pushUndo_frame w) as (Hc & _ & _).
  unfold compositeLayers, paintActive. simpl.
  repeat match goal with |- context [match ?x with _ => _ end] =>
                           destruct x end; simpl; by rewrite ?Hc.
Qed.

(** X6.  With a rectangular selection of at least one pixel on the active
    layer, [cutSelection] followed by [pasteSelection] both go through and
    give the layer its buffer back bit for bit, whatever the transparency
    of its pixels. *)
Theorem cut_paste_restores (w : MainWindow) (L : Layer) :
  activeLayer w = Some L ->
  targetImg (canvas w) = Some (Z.to_nat (activeLayerIndex w)) ->
  currentTool (canvas w) = RECT_SELECT ->
  hasSelection (canvas w) = true ->
  x1 (selectionRect (canvas w)) <= x2 (selectionRect (canvas w)) ->
  y1 (selectionRect (canvas w)) <= y2 (selectionRect (canvas w)) ->
  wellFormed (image L) -> isNull (image L) = false ->
  exists w1 w2,
    cutSelection w = Some w1 /\
    selectionBuffer w1 = copyRect (selectionRect (canvas w)) (image L) /\
    pasteSelection w1 = Some w2 /\
    activeImage w2 = Some (image L).
Proof.
  intros HL Ht Htool Hsel Hx Hy Hwf Hn.
  destruct (cutSelection_on_active w L HL Hsel) as (w1 & Hcut & Hbuf & Hdoc).
  destruct (cutSelection_canvas _ _ Hcut) as [Hr _].
  assert (HB : selectionBuffer w1 = copyRect (selectionRect (canvas w)) (image L)).
  { rewrite Hbuf. unfold getSelectionImage.
    destruct (pushUndo_frame w) as (Hc & _ & Hi).
    assert (Hti : targetImage (pushUndoForActiveLayer w) = Some (image L)).
    { rewrite (targetImage_active _ (pushLayer L)); [done | |].
      - by rewrite activeLayer_pushUndo, HL.
      - by rewrite Hc, Hi. }
    by rewrite Hti, Hc, Hsel, Htool. }
  pose proof (activeLayer_sameDocument _ _ Hdoc) as H1.
  rewrite activeLayer_snapshotEdit, HL in H1. simpl in H1. symmetry in H1.
  assert (Hnn : isNull (selectionBuffer w1) = false).
  { rewrite HB, copyRect_generate by done.
    apply isNull_generate; unfold rwidth, rheight; lia. }
  destruct (pasteSelection_on_active _ _ H1 Hnn) as (w2 & Hpaste & Hdoc2).
  exists w1, w2. repeat split; [done | done | done |].
  unfold activeImage.
  rewrite <- (activeLayer_sameDocument _ _ Hdoc2), activeLayer_snapshotEdit, H1.
  simpl. f_equal. rewrite Hr, HB. by apply paste_over_cut.
Qed.

Lemma cut_paste_restores_witness :
  exists w1 w2,
    cutSelection selectAll2x2 = Some w1 /\
    selectionBuffer w1 = copyRect (selectionRect (canvas selectAll2x2)) image2x2 /\
    pasteSelection w1 = Some w2 /\
    activeImage w2 = Some image2x2.
Proof.
  apply (cut_paste_restores selectAll2x2
           (mkLayer "Background" image2x2 [image2x2] [] 1%float)).
  - vm_compute; reflexivity.
  - vm_compute; reflexivity.
  - vm_compute; reflexivity.
  - vm_compute; reflexivity.
  - vm_compute; discriminate.
  - vm_compute; discriminate.
  - intros y row Hy.
    destruct y as [|[|y]]; simpl in Hy; [| | done]; injection Hy as <-;
      (split; [reflexivity |]); intros x c Hx;
      destruct x as [|[|x]]; simpl in Hx; [| | done | | | done];
      injection Hx as <-; vm_compute; split; congruence.
  - vm_compute; reflexivity.
Defined.

(** ** The invariant of the handlers *)

Lemma sameShape_refl w : sameShape w w.
Proof. done. Qed.

Lemma sameShape_trans a b c : sameShape a b -> sameShape b c -> sameShape a c.
Proof. intros (?&?&?&?) (?&?&?&?). repeat split; congruence. Qed.

Lemma consistent_sameShape a b : sameShape a b -> consistent b -> consistent a.
Proof.
  intros (Hn & Hi & Ht & Hq) (H1 & H2 & H3). unfold consistent, layerCount.
  rewrite Hi, Ht, Hq, Hn.
  replace (length (layers a)) with (length (layers b))
    by (rewrite <- (length_fmap name (layers b)), <- Hn; apply length_fmap).
  done.
Qed.

Lemma sameShape_setText s w : sameShape (setText s w) w.
Proof. done. Qed.

Lemma sameShape_compositeLayers w : sameShape (compositeLayers w) w.
Proof. unfold compositeLayers. by destruct (layers w). Qed.

Lemma sameShape_setSelectionBuffer b w : sameShape (setSelectionBuffer b w) w.
Proof. done. Qed.

Lemma sameShape_setCanvas c w :
  targetImg c = targetImg (canvas w) -> sameShape (setCanvas c w) w.
Proof. intros H. by repeat split. Qed.

Lemma sameShape_setCanvas_gen c w0 w :
  targetImg c = targetImg (canvas w) -> sameShape w0 w ->
  sameShape (setCanvas c w0) w.
Proof. intros H (?&?&?&?). by repeat split. Qed.

Lemma names_insert (ls : list Layer) i L L' :
  ls !! i = Some L -> name L' = name L ->
  name <$> <[i := L']> ls = name <$> ls.
Proof.
  intros Hl Hn. rewrite list_fmap_insert, Hn.
  apply list_insert_id. by rewrite list_lookup_fmap, Hl.
Qed.

Lemma sameShape_store w L L' :
  activeLayer w = Some L -> name L' = name L ->
  sameShape (storeActiveLayer L' w) w.
Proof.
  intros E Hn. destruct (activeLayer_Some _ _ E) as [Hl _].
  repeat split. simpl. by eapply names_insert.
Qed.

Lemma sameShape_onActive g w :
  (forall L, name (g L) = name L) -> sameShape (onActive g w) w.
Proof.
  intros Hg. unfold onActive. destruct (activeLayer w) as [L|] eqn:E; [| done].
  destruct (activeLayer_Some _ _ E) as [Hl _].
  repeat split. simpl. by eapply names_insert.
Qed.

Lemma sameShape_pushUndo w : sameShape (pushUndoForActiveLayer w) w.
Proof. rewrite pushUndo_onActive. by apply sameShape_onActive. Qed.

Lemma sameShape_clearRedo w : sameShape (clearRedoForActiveLayer w) w.
Proof. rewrite clearRedo_onActive. by apply sameShape_onActive. Qed.

Lemma sameShape_paintActive f w : sameShape (paintActive f w) w.
Proof. rewrite paintActive_onActive. by apply sameShape_onActive. Qed.

Lemma sameShape_paintTarget f w : sameShape (paintTarget f w) w.
Proof.
  unfold paintTarget. destruct (targetImg (canvas w)) as [t|]; [| done].
  destruct (layers w !! t) as [L|] eqn:E; [| done].
  repeat split. simpl. by eapply names_insert.
Qed.

Lemma sameShape_ensureTarget w : sameShape (ensureTargetSizeMatchesWidget w) w.
Proof.
  unfold ensureTargetSizeMatchesWidget.
  destruct (targetImg (canvas w)) as [t|]; [| done].
  destruct (layers w !! t) as [L|] eqn:E; [| done].
  destruct (_ || _); [| done].
  repeat split. simpl. by eapply names_insert.
Qed.

Ltac shape_step :=
  first
    [ apply sameShape_refl
    | eapply sameShape_trans; [apply sameShape_setText |]
    | eapply sameShape_trans; [apply sameShape_compositeLayers |]
    | eapply sameShape_trans; [apply sameShape_setSelectionBuffer |]
    | eapply sameShape_trans; [apply sameShape_pushUndo |]
    | eapply sameShape_trans; [apply sameShape_clearRedo |]
    | eapply sameShape_trans; [apply sameShape_paintActive |]
    | eapply sameShape_trans; [apply sameShape_paintTarget |]
    | eapply sameShape_trans; [apply sameShape_ensureTarget |]
    | apply sameShape_setCanvas_gen; [reflexivity |] ].

Ltac shape := repeat shape_step.

Lemma sameShape_undo w : sameShape (undo w) w.
Proof.
  unfold undo. destruct (activeLayer w) as [L|] eqn:E; [| done].
  destruct (last _); [| done]. shape.
  by eapply sameShape_store.
Qed.

Lemma sameShape_redo w : sameShape (redo w) w.
Proof.
  unfold redo. destruct (activeLayer w) as [L|] eqn:E; [| done].
  destruct (last _); [| done]. shape.
  by eapply sameShape_store.
Qed.

Ltac break_match :=
  repeat match goal with
         | |- context [match ?x with _ => _ end] => destruct x eqn:?
         | |- context [if ?x then _ else _] => destruct x eqn:?
         end.

Lemma sameShape_clearCanvas w : sameShape (clearCanvas w) w.
Proof. unfold clearCanvas. destruct (activeLayer w); shape. Qed.

Lemma sameShape_transforms w :
  sameShape (rotateLeft w) w /\ sameShape (rotateRight w) w /\
  sameShape (flipHorizontal w) w /\ sameShape (flipVertical w) w.
Proof.
  unfold rotateLeft, rotateRight, flipHorizontal, flipVertical.
  destruct (activeOutOfRange w); repeat split; shape.
Qed.

Lemma sameShape_filters a w :
  sameShape (grayscale a w) w /\ sameShape (invertColors a w) w.
Proof.
  unfold grayscale, invertColors.
  destruct (activeLayer w), a; split; shape.
Qed.

Lemma sameShape_copySelection w : sameShape (copySelection w) w.
Proof. unfold copySelection. destruct (negb _); shape. Qed.

Lemma consistent_activeLayer w :
  consistent w -> exists L, activeLayer w = Some L.
Proof.
  intros (Hr & _ & _). unfold activeLayer, activeOutOfRange.
  replace (_ || _) with false
    by (symmetry; apply orb_false_iff; split;
        [apply Z.ltb_ge | apply Z.leb_gt]; lia).
  apply lookup_lt_is_Some. unfold layerCount in Hr. lia.
Qed.

Lemma consistent_targetImage w :
  consistent w -> exists img, targetImage w = Some img.
Proof.
  intros H. destruct (consistent_activeLayer w H) as [L HL].
  exists (image L). apply targetImage_active; [done |]. apply H.
Qed.

Lemma activeLayer_sameShape a b :
  sameShape a b -> is_Some (activeLayer b) -> is_Some (activeLayer a).
Proof.
  intros (Hn & Hi & _) [L HL].
  destruct (activeLayer_Some _ _ HL) as [Hl Hr].
  assert (Hlen : length (layers a) = length (layers b))
    by (rewrite <- (length_fmap name (layers b)), <- Hn;
        symmetry; apply length_fmap).
  unfold activeLayer, activeOutOfRange, layerCount in *.
  rewrite Hi, Hlen, Hr. apply lookup_lt_is_Some. rewrite Hlen.
  by eapply lookup_lt_Some.
Qed.

Lemma cutSelection_shape w :
  is_Some (activeLayer w) ->
  exists w', cutSelection w = Some w' /\ sameShape w' w.
Proof.
  intros Ha. unfold cutSelection. destruct (negb _); [by exists w |].
  cbv zeta.
  destruct (activeLayer_sameShape
              (setSelectionBuffer
                 (getSelectionImage (pushUndoForActiveLayer w))
                 (pushUndoForActiveLayer w)) w) as [L ->]; [shape | done |].
  eexists. split; [done |]. shape.
Qed.

Lemma pasteSelection_shape w :
  is_Some (activeLayer w) ->
  exists w', pasteSelection w = Some w' /\ sameShape w' w.
Proof.
  intros Ha. unfold pasteSelection. destruct (isNull _); [by exists w |].
  cbv zeta.
  destruct (activeLayer_sameShape (pushUndoForActiveLayer w) w)
    as [L ->]; [shape | done |].
  eexists. split; [done |]. shape.
Qed.

Lemma sameShape_setTargetToActive w :
  name <$> layers (setTargetToActive w) = name <$> layers w /\
  activeLayerIndex (setTargetToActive w) = activeLayerIndex w /\
  targetImg (canvas (setTargetToActive w))
    = Some (Z.to_nat (activeLayerIndex w)) /\
  items (layerListWidget (setTargetToActive w)) = items (layerListWidget w).
Proof.
  unfold setTargetToActive, setTargetImage.
  destruct (sameShape_ensureTarget
              (setCanvas (setTarget (Some (Z.to_nat (activeLayerIndex w)))
                            (canvas w)) w)) as (-> & -> & -> & ->).
  done.
Qed.

Lemma openFile_shape f l w :
  consistent w ->
  exists w' n, openFile f l w = Some (w', n) /\ sameShape w' w.
Proof.
  intros Hc. destruct (consistent_activeLayer w Hc) as [L HL].
  unfold openFile. destruct (decide _); [by exists w, [] |].
  destruct l as [img|]; [| by eexists w, _]. rewrite HL. cbv zeta.
  eexists _, _. split; [done |].
  eapply sameShape_trans; [apply sameShape_setText |].
  set (w1 := compositeLayers _).
  assert (H1 : sameShape w1 w).
  { unfold w1. shape. by eapply sameShape_store. }
  destruct (sameShape_setTargetToActive w1) as (Hn & Hi & Ht & Hq).
  destruct H1 as (Hn1 & Hi1 & Ht1 & Hq1).
  repeat split; try congruence.
  rewrite Ht, Hi1. symmetry. apply Hc.
Qed.

Lemma setTool_shape t w : sameShape (setTool t w) w.
Proof. unfold setTool. shape. Qed.

Lemma mousePressEvent_shape ev entry w :
  sameShape (mousePressEvent ev entry w) w.
Proof.
  unfold mousePressEvent, onStrokeStarted.
  break_match; shape.
Qed.

Lemma mouseReleaseEvent_shape ev w :
  is_Some (targetImage w) ->
  exists w', mouseReleaseEvent ev w = Some w' /\ sameShape w' w.
Proof.
  intros [img Hi]. unfold mouseReleaseEvent, onStrokeFinished. rewrite Hi.
  destruct (_ && _); [| by exists w].
  destruct (if bool_decide _ then _ else _) as [r poly].
  eexists. split; [reflexivity |]. break_match; shape.
Qed.

Lemma mouseMoveEvent_shape stroke ev w :
  is_Some (targetImage w) -> textIndexValid w ->
  exists w', mouseMoveEvent stroke ev w = Some w' /\ sameShape w' w.
Proof.
  intros [img Hi] Hv. unfold mouseMoveEvent, onStrokeFinished. rewrite Hi.
  destruct (_ && _ && _) eqn:Hg.
  - destruct (bool_decide (widgetToImage _ _ _ = _));
      [exists w; split; [reflexivity | apply sameShape_refl] |].
    apply andb_true_iff in Hg as [Hg _].
    apply andb_true_iff in Hg as [_ Hg]. apply Z.leb_le in Hg.
    destruct (lookup_lt_is_Some_2 (textItems (canvas w))
                (Z.to_nat (activeTextIndex (canvas w)))) as [t ->];
      [unfold textIndexValid in Hv; lia |].
    eexists. split; [done |]. shape.
  - break_match; eexists; (split; [done |]); shape.
Qed.

Lemma commitTextItems_shape drawText w :
  sameShape (commitTextItems drawText w) w.
Proof.
  unfold commitTextItems, onStrokeFinished. break_match; shape.
Qed.

Lemma toolbar_shape drawText t label v z w :
  sameShape (selectBrush drawText w) w /\
  sameShape (selectEraser drawText w) w /\
  sameShape (selectText drawText w) w /\
  sameShape (selectTool t label w) w /\
  sameShape (changeBrushSize v w) w /\
  sameShape (setZoom z w) w.
Proof.
  unfold selectBrush, selectEraser, selectText, selectTool, changeBrushSize,
    setZoom, setTool, setPenWidth, setPenColor, setEraserMode.
  repeat split; break_match; shape;
    try apply commitTextItems_shape.
Qed.

Lemma names_length (a b : list Layer) :
  name <$> a = name <$> b -> length a = length b.
Proof.
  intros H. rewrite <- (length_fmap name a), H. apply length_fmap.
Qed.

Lemma consistent_setTargetToActive w :
  0 <= activeLayerIndex w < layerCount w ->
  items (layerListWidget w) = reverse (name <$> layers w) ->
  consistent (setTargetToActive w).
Proof.
  intros Hr Hq.
  destruct (sameShape_setTargetToActive w) as (Hn & Hi & Ht & Hq').
  unfold consistent, layerCount in *.
  rewrite Hi, Ht, Hq', Hn, (names_length _ _ Hn). done.
Qed.

(** A layer put on top, made active and shown, as [addLayer],
    [duplicateLayer] and [openPNGAsNewLayer] do. *)
Lemma consistent_append w l s :
  items (layerListWidget w) = reverse (name <$> layers w) ->
  consistent
    (setText s
       (compositeLayers
          (setTargetToActive
             (setActiveLayerIndex
                (Z.of_nat (length (layers w ++ [l])) - 1)
                (setLayerListWidget
                   (mkQListWidget (name l :: items (layerListWidget w)) 0)
                   (setLayers (layers w ++ [l]) w)))))).
Proof.
  intros Hq.
  eapply (consistent_sameShape _ (setTargetToActive _)); [shape |].
  apply consistent_setTargetToActive.
  - unfold layerCount. simpl. rewrite length_app. simpl. lia.
  - change (name l :: items (layerListWidget w)
            = reverse (name <$> (layers w ++ [l]))).
    by rewrite Hq, fmap_app, reverse_app.
Qed.

Lemma addLayer_consistent w :
  consistent w -> exists w', addLayer w = Some w' /\ consistent w'.
Proof.
  intros Hc. destruct (consistent_activeLayer w Hc) as [L HL].
  unfold addLayer. destruct (layers w) as [|l0 rest] eqn:El.
  - apply activeLayer_Some in HL as [HL _]. by rewrite El in HL.
  - eexists. split; [reflexivity |].
    pose proof (consistent_append w
      (mkLayer (layerName (layerCount w))
         (filled Format_ARGB32_Premultiplied (width (image l0))
            (height (image l0)) transparent) [] [] 1%float)
      ("Added " +:+ layerName (layerCount w)) (proj2 (proj2 Hc))) as H.
    rewrite El in H. exact H.
Qed.

Lemma duplicateLayer_consistent w : consistent w -> consistent (duplicateLayer w).
Proof.
  intros Hc. unfold duplicateLayer. destruct (activeLayer w) as [L|]; [| done].
  apply (consistent_append w
           (mkLayer (name L +:+ " Copy") (image L) (undoStack L) (redoStack L)
              (opacity L))), Hc.
Qed.

Lemma openPNGAsNewLayer_consistent f l w :
  consistent w -> consistent (fst (openPNGAsNewLayer f l w)).
Proof.
  intros Hc. unfold openPNGAsNewLayer. destruct (decide _); [done |].
  destruct l as [img|]; [| done].
  apply (consistent_append w
           (mkLayer (baseNameOf f) (convertToPremultiplied img) [] [] 1%float)),
    Hc.
Qed.

Lemma activateLayer_consistent r w :
  consistent w -> consistent (activateLayer r w).
Proof.
  intros Hc. unfold activateLayer. destruct (_ || _) eqn:E; [done |].
  apply orb_false_iff in E as [E1 E2].
  apply Z.ltb_ge in E1. apply Z.leb_gt in E2.
  assert (H : consistent
                (setTargetToActive
                   (setActiveLayerIndex (layerCount w - 1 - r) w))).
  { apply consistent_setTargetToActive;
      [unfold layerCount in *; simpl; lia | apply Hc]. }
  destruct (activeLayer _); [| done].
  eapply consistent_sameShape; [apply sameShape_setText | done].
Qed.

Lemma delete_app_l {A} (l k : list A) i :
  (i < length l)%nat -> delete i (l ++ k) = delete i l ++ k.
Proof.
  revert i. induction l as [|x l IH]; intros i Hi; [simpl in Hi; lia |].
  destruct i as [|i]; [done |].
  change (x :: delete i (l ++ k) = x :: delete i l ++ k).
  rewrite IH; [done |]. simpl in Hi. lia.
Qed.

Lemma reverse_delete {A} (l : list A) i :
  (i < length l)%nat ->
  reverse (delete i l) = delete (length l - 1 - i)%nat (reverse l).
Proof.
  revert i. induction l as [|x l IH]; intros i Hi; [simpl in Hi; lia |].
  rewrite reverse_cons. destruct i as [|i].
  - change (delete 0 (x :: l)) with l.
    replace (length (x :: l) - 1 - 0)%nat with (length (reverse l))
      by (rewrite length_reverse; simpl; lia).
    by rewrite delete_middle, app_nil_r.
  - change (delete (S i) (x :: l)) with (x :: delete i l).
    simpl in Hi.
    rewrite reverse_cons, IH by lia.
    replace (length (x :: l) - 1 - S i)%nat with (length l - 1 - i)%nat
      by (simpl; lia).
    rewrite delete_app_l; [done |]. rewrite length_reverse. lia.
Qed.

(** After the removal of layer [idx]: what [removeLayer] and
    [deleteLayer] leave when there are at least two layers. *)
Lemma consistent_removed w idx s :
  consistent w -> (idx < length (layers w))%nat -> (1 < length (layers w))%nat ->
  consistent
    (setText s
       (compositeLayers
          (setTargetToActive
             (setLayerListWidget
                (mkQListWidget
                   (delete (length (layers w) - 1 - idx)%nat
                           (items (layerListWidget w))) 0)
                (setActiveLayerIndex
                   (Z.of_nat (length (delete idx (layers w))) - 1)
                   (setLayers (delete idx (layers w)) w)))))).
Proof.
  intros (Hr & Ht & Hq) Hi Hn.
  eapply (consistent_sameShape _ (setTargetToActive _)); [shape |].
  assert (Hlen : length (delete idx (layers w)) = (length (layers w) - 1)%nat).
  { rewrite length_delete; [done |]. by apply lookup_lt_is_Some. }
  apply consistent_setTargetToActive.
  - unfold layerCount. simpl. rewrite Hlen. lia.
  - change (delete (length (layers w) - 1 - idx)%nat (items (layerListWidget w))
            = reverse (name <$> delete idx (layers w))).
    rewrite Hq, list_fmap_delete, reverse_delete, length_fmap; [done |].
    by rewrite length_fmap.
Qed.

(** ** The active text item stays an item *)

Lemma sameText_refl w : sameText w w.
Proof. done. Qed.

Lemma sameText_trans a b c : sameText a b -> sameText b c -> sameText a c.
Proof. intros [? ?] [? ?]. split; congruence. Qed.

Lemma textIndexValid_sameText a b :
  sameText a b -> textIndexValid b -> textIndexValid a.
Proof. intros [H1 H2] H. unfold textIndexValid. by rewrite H1, H2. Qed.

Lemma sameText_canvas a b : canvas a = canvas b -> sameText a b.
Proof. intros H. unfold sameText. by rewrite H. Qed.

Lemma sameText_setText s w : sameText (setText s w) w.
Proof. done. Qed.

Lemma sameText_setSelectionBuffer b w : sameText (setSelectionBuffer b w) w.
Proof. done. Qed.

Lemma sameText_setLayers ls w : sameText (setLayers ls w) w.
Proof. done. Qed.

Lemma sameText_setActiveLayerIndex i w : sameText (setActiveLayerIndex i w) w.
Proof. done. Qed.

Lemma sameText_setLayerListWidget q w : sameText (setLayerListWidget q w) w.
Proof. done. Qed.

Lemma sameText_setBrush n c w : sameText (setBrush n c w) w.
Proof. done. Qed.

Lemma sameText_setZoomFactor z w : sameText (setZoomFactor z w) w.
Proof. done. Qed.

Lemma sameText_storeActiveLayer L w : sameText (storeActiveLayer L w) w.
Proof. done. Qed.

Lemma sameText_setCanvas c w :
  textItems c = textItems (canvas w) ->
  activeTextIndex c = activeTextIndex (canvas w) ->
  sameText (setCanvas c w) w.
Proof. by split. Qed.

Lemma sameText_setCanvas_any c w1 w :
  textItems c = textItems (canvas w) ->
  activeTextIndex c = activeTextIndex (canvas w) ->
  sameText (setCanvas c w1) w.
Proof. by split. Qed.

Lemma sameText_compositeLayers w : sameText (compositeLayers w) w.
Proof. unfold compositeLayers. by destruct (layers w). Qed.

Lemma sameText_onActive g w : sameText (onActive g w) w.
Proof. unfold onActive. by destruct (activeLayer w). Qed.

Lemma sameText_pushUndo w : sameText (pushUndoForActiveLayer w) w.
Proof. apply sameText_onActive. Qed.

Lemma sameText_clearRedo w : sameText (clearRedoForActiveLayer w) w.
Proof. apply sameText_onActive. Qed.

Lemma sameText_paintActive f w : sameText (paintActive f w) w.
Proof. apply sameText_onActive. Qed.

Lemma sameText_paintTarget f w : sameText (paintTarget f w) w.
Proof.
  unfold paintTarget. destruct (targetImg (canvas w)) as [t|]; [| done].
  by destruct (layers w !! t).
Qed.

Lemma sameText_ensureTarget w : sameText (ensureTargetSizeMatchesWidget w) w.
Proof.
  unfold ensureTargetSizeMatchesWidget.
  destruct (targetImg (canvas w)) as [t|]; [| done].
  destruct (layers w !! t); [| done]. by destruct (_ || _).
Qed.

Lemma sameText_setTargetToActive w : sameText (setTargetToActive w) w.
Proof.
  unfold setTargetToActive, setTargetImage.
  eapply sameText_trans; [apply sameText_ensureTarget | done].
Qed.

Ltac text_step :=
  first
    [ apply sameText_refl
    | eapply sameText_trans; [apply sameText_setText |]
    | eapply sameText_trans; [apply sameText_compositeLayers |]
    | eapply sameText_trans; [apply sameText_setSelectionBuffer |]
    | eapply sameText_trans; [apply sameText_setLayers |]
    | eapply sameText_trans; [apply sameText_setActiveLayerIndex |]
    | eapply sameText_trans; [apply sameText_setLayerListWidget |]
    | eapply sameText_trans; [apply sameText_setBrush |]
    | eapply sameText_trans; [apply sameText_setZoomFactor |]
    | eapply sameText_trans; [apply sameText_storeActiveLayer |]
    | eapply sameText_trans; [apply sameText_pushUndo |]
    | eapply sameText_trans; [apply sameText_clearRedo |]
    | eapply sameText_trans; [apply sameText_paintActive |]
    | eapply sameText_trans; [apply sameText_paintTarget |]
    | eapply sameText_trans; [apply sameText_ensureTarget |]
    | eapply sameText_trans; [apply sameText_setTargetToActive |]
    | eapply sameText_trans;
        [apply sameText_setCanvas; reflexivity |] ].

Ltac text := repeat text_step.

Lemma edits_keep_text b w :
  sameText (undo w) w /\ sameText (redo w) w /\ sameText (clearCanvas w) w /\
  sameText (rotateLeft w) w /\ sameText (rotateRight w) w /\
  sameText (flipHorizontal w) w /\ sameText (flipVertical w) w /\
  sameText (grayscale b w) w /\ sameText (invertColors b w) w /\
  sameText (copySelection w) w.
Proof.
  unfold undo, redo, clearCanvas, rotateLeft, rotateRight, flipHorizontal,
    flipVertical, grayscale, invertColors, copySelection.
  split_and!; break_match; text.
Qed.

Lemma clipboard_keeps_text w w' :
  cutSelection w = Some w' \/ pasteSelection w = Some w' -> sameText w' w.
Proof.
  unfold cutSelection, pasteSelection.
  intros [H | H]; revert H; break_match; intros [= <-]; text.
Qed.

Lemma layers_keep_text numberText r na oa f l w :
  (forall w', addLayer w = Some w' -> sameText w' w) /\
  (forall w' n, removeLayer w = Some (w', n) -> sameText w' w) /\
  (forall w' n, deleteLayer w = Some (w', n) -> sameText w' w) /\
  sameText (activateLayer r w) w /\
  sameText (duplicateLayer w) w /\
  (forall w', renameLayer na w = Some w' -> sameText w' w) /\
  (forall w', changeLayerOpacity numberText oa w = Some w' -> sameText w' w) /\
  (forall w' n, openFile f l w = Some (w', n) -> sameText w' w) /\
  sameText (fst (openPNGAsNewLayer f l w)) w.
Proof.
  unfold addLayer, removeLayer, deleteLayer, activateLayer, duplicateLayer,
    renameLayer, changeLayerOpacity, openFile, openPNGAsNewLayer.
  split_and!;
    match goal with
    | |- forall w' n, _ = Some (w', n) -> _ =>
        intros w' n; break_match; intros [= <- <-]
    | |- forall w', _ = Some w' -> _ =>
        intros w'; break_match; intros [= <-]
    | |- _ => break_match
    end; simpl; text.
Qed.

Lemma onLayerContextMenu_keeps_text numberText row selected na oa w w' n :
  onLayerContextMenu numberText row selected na oa w = Some (w', n) ->
  sameText w' w.
Proof.
  unfold onLayerContextMenu.
  destruct row as [uiIndex|]; [| by intros [= <- <-]].
  destruct (decide _); [by intros [= <- <-] |].
  destruct selected as [action|]; [| by intros [= <- <-]].
  cbv zeta. destruct (activeLayer _); [| done].
  set (w1 := setTargetToActive _).
  assert (H1 : sameText w1 w) by (unfold w1; text).
  pose proof (layers_keep_text numberText 0 na oa "" None w1)
    as (_ & _ & Hdel & _ & Hdup & Hren & Hop & _).
  destruct action.
  - intros [= <- <-]. by eapply sameText_trans.
  - intros H. eapply sameText_trans; [by eapply Hdel | done].
  - destruct (renameLayer na w1) as [w2|] eqn:E; [| done].
    intros [= <- <-]. eapply sameText_trans; [by apply Hren | done].
  - destruct (changeLayerOpacity numberText oa w1) as [w2|] eqn:E; [| done].
    intros [= <- <-]. eapply sameText_trans; [by apply Hop | done].
Qed.

Lemma tools_keep_text fixedText colorName t label v z c f saved w :
  sameText (selectTool t label w) w /\
  sameText (changeBrushSize v w) w /\
  sameText (setZoom z w) w /\
  sameText (zoomIn fixedText w) w /\
  sameText (zoomOut fixedText w) w /\
  sameText (chooseColor colorName c w) w /\
  sameText (setColorFromButton colorName c w) w /\
  sameText (fst (saveFile f saved w)) w /\
  sameText (resizeEvent w) w.
Proof.
  unfold selectTool, changeBrushSize, zoomIn, zoomOut, chooseColor,
    setColorFromButton, saveFile, resizeEvent, setZoom, setTool, setPenWidth,
    setPenColor, setEraserMode.
  split_and!; break_match; simpl; text.
Qed.

Lemma mouseReleaseEvent_keeps_text ev w w' :
  mouseReleaseEvent ev w = Some w' -> sameText w' w.
Proof.
  unfold mouseReleaseEvent, onStrokeFinished.
  destruct (_ && _); [| by intros [= <-]].
  destruct (targetImage w); [| done].
  destruct (if bool_decide _ then _ else _) as [r poly].
  intros [= <-]. text.
Qed.

Lemma hitTextItem_spec p ts : forall i0,
  match hitTextItem ts i0 p with
  | Some k =>
      exists i t, k = (i0 + i)%nat /\ ts !! i = Some t /\
        textItemContains t p = true /\
        forall j t', (i < j)%nat -> ts !! j = Some t' ->
                     textItemContains t' p = false
  | None => forall j t, ts !! j = Some t -> textItemContains t p = false
  end.
Proof.
  induction ts as [|t ts IH]; intros i0; simpl; [done |].
  specialize (IH (S i0)).
  destruct (hitTextItem ts (S i0) p) as [k|].
  - destruct IH as (i & t' & -> & Hi & Hc & Hlast).
    exists (S i), t'. split_and!; [lia | done | done |].
    intros [|j] t'' Hj Hlk; [lia |]. apply (Hlast j); [lia | done].
  - destruct (textItemContains t p) eqn:Hc.
    + exists 0%nat, t. split_and!; [lia | done | done |].
      intros [|j] t' Hj Hlk; [lia |]. by apply (IH j).
    + intros [|j] t' Hlk; simpl in Hlk; [by injection Hlk as <- |].
      by apply (IH j).
Qed.

Lemma hitTextItem_lt p ts i :
  hitTextItem ts 0 p = Some i -> (i < length ts)%nat.
Proof.
  intros H. pose proof (hitTextItem_spec p ts 0) as Hs. rewrite H in Hs.
  destruct Hs as (j & t & -> & Hj & _). by eapply lookup_lt_Some.
Qed.

Lemma firstTextItem_lt p ts : forall i0 i,
  firstTextItem ts i0 p = Some i -> (i < i0 + length ts)%nat.
Proof.
  induction ts as [|t ts IH]; intros i0 i; simpl; [done |].
  destruct (textItemContains t p).
  - intros [= <-]. lia.
  - intros H. apply IH in H. lia.
Qed.

Lemma mousePressEvent_text ev entry w :
  textIndexValid w -> textIndexValid (mousePressEvent ev entry w).
Proof.
  intros Hv. unfold mousePressEvent.
  destruct (targetImage w); [| done].
  destruct (negb _); [done |].
  destruct (bool_decide (widgetToImage _ _ _ = _)); [done |].
  destruct (bool_decide (currentTool _ = _)).
  - destruct (hitTextItem _ _ _) as [i|] eqn:Hhit.
    + apply hitTextItem_lt in Hhit.
      unfold textIndexValid. simpl. rewrite length_alter. lia.
    + destruct entry as [[txt bounds]|];
        [destruct (decide (txt = "")) |];
        unfold textIndexValid; simpl; rewrite ?length_app; simpl; lia.
  - eapply textIndexValid_sameText; [| exact Hv].
    unfold onStrokeStarted. text.
    apply sameText_setCanvas; by destruct (currentTool _).
Qed.

Lemma mouseMoveEvent_text stroke ev w w' :
  textIndexValid w -> mouseMoveEvent stroke ev w = Some w' ->
  textIndexValid w'.
Proof.
  intros Hv. unfold mouseMoveEvent, onStrokeFinished.
  destruct (_ && _ && _).
  - destruct (targetImage w); [| done].
    destruct (bool_decide _); [by intros [= <-] |].
    destruct (_ !! _); [| done]. intros [= <-].
    unfold textIndexValid in *. simpl. by rewrite length_alter.
  - intros H. eapply textIndexValid_sameText; [| exact Hv].
    revert H. break_match; intros [= <-]; text;
      apply sameText_setCanvas_any; reflexivity.
Qed.

Lemma commitTextItems_text drawText w :
  textIndexValid w -> textIndexValid (commitTextItems drawText w).
Proof.
  intros Hv. unfold commitTextItems, onStrokeFinished.
  destruct (targetImage w); [| done].
  destruct (textItems (canvas w)) eqn:E; [done |].
  eapply (textIndexValid_sameText _ (setCanvas (setTextItems [] (-1) _) _));
    [text |].
  unfold textIndexValid. simpl. lia.
Qed.

Lemma toolbar_text drawText w :
  textIndexValid w ->
  textIndexValid (selectBrush drawText w) /\
  textIndexValid (selectEraser drawText w) /\
  textIndexValid (selectText drawText w).
Proof.
  intros Hv. pose proof (commitTextItems_text drawText w Hv) as Hc.
  unfold selectBrush, selectEraser, selectText, setTool, setPenWidth,
    setPenColor, setEraserMode.
  split_and!; (eapply textIndexValid_sameText; [| exact Hc]); simpl; text.
Qed.

Lemma mouseDoubleClickEvent_text ev answer w :
  textIndexValid w -> textIndexValid (mouseDoubleClickEvent ev answer w).
Proof.
  intros Hv. unfold mouseDoubleClickEvent.
  break_match; try done.
  unfold textIndexValid in *. simpl. by rewrite length_alter.
Qed.

Lemma removed_rows (w : MainWindow) :
  consistent w -> 1 < layerCount w ->
  let idx := activeLayerIndex w in
  let w1 := setLayers (delete (Z.to_nat idx) (layers w)) w in
  let q := layerListWidget w1 in
  Z.to_nat (layerCount w1 - idx)
    = (length (layers w) - 1 - Z.to_nat idx)%nat /\
  Z.to_nat (Z.of_nat (length (items q)) - 1 - idx)
    = (length (layers w) - 1 - Z.to_nat idx)%nat /\
  (0 <=? layerCount w1 - idx) && (layerCount w1 - idx <? Z.of_nat (length (items q)))
    = true /\
  (0 <=? Z.of_nat (length (items q)) - 1 - idx) = true /\
  layerCount w1 - 1 = Z.of_nat (length (delete (Z.to_nat idx) (layers w))) - 1.
Proof.
  intros (Hr & Ht & Hq) Hn. cbv zeta. unfold layerCount in *. simpl.
  rewrite Hq, length_reverse, length_fmap.
  rewrite length_delete by (apply lookup_lt_is_Some; lia).
  repeat split; try lia.
  apply andb_true_iff. split; [apply Z.leb_le | apply Z.ltb_lt]; lia.
Qed.

Lemma removeLayer_consistent w :
  consistent w ->
  exists w' n, removeLayer w = Some (w', n) /\ consistent w'.
Proof.
  intros Hc. unfold removeLayer.
  destruct (layerCount w <=? 1) eqn:E; [by eexists w, _ |].
  apply Z.leb_gt in E.
  destruct (consistent_activeLayer w Hc) as [L HL].
  destruct (activeLayer_Some _ _ HL) as [_ ->].
  destruct (removed_rows w Hc E) as (H1 & _ & H2 & _ & H3).
  cbv zeta in *. rewrite H2, H1.
  assert (Hi : (Z.to_nat (activeLayerIndex w) < length (layers w))%nat)
    by (destruct Hc as (? & _); unfold layerCount in *; lia).
  assert (Hn : (1 < length (layers w))%nat) by (unfold layerCount in E; lia).
  pose proof (fun s => consistent_removed w _ s Hc Hi Hn) as Hfin.
  destruct (consistent_activeLayer _ (Hfin "")) as [L' HL'].
  change (activeLayer (setText "" ?x)) with (activeLayer x) in HL'.
  match goal with
  | |- context [match activeLayer ?x with _ => _ end] =>
      assert (HX : activeLayer x = Some L') by exact HL'; rewrite HX
  end.
  eexists _, _. split; [reflexivity |]. exact (Hfin _).
Qed.

Lemma deleteLayer_consistent w :
  consistent w ->
  exists w' n, deleteLayer w = Some (w', n) /\ consistent w'.
Proof.
  intros Hc. unfold deleteLayer.
  destruct (layerCount w <=? 1) eqn:E; [by eexists w, _ |].
  apply Z.leb_gt in E.
  destruct (consistent_activeLayer w Hc) as [L HL].
  destruct (activeLayer_Some _ _ HL) as [_ ->].
  destruct (removed_rows w Hc E) as (_ & H1 & _ & H2 & H3).
  cbv zeta in *. rewrite H2, H1.
  assert (Hi : (Z.to_nat (activeLayerIndex w) < length (layers w))%nat)
    by (destruct Hc as (? & _); unfold layerCount in *; lia).
  assert (Hn : (1 < length (layers w))%nat) by (unfold layerCount in E; lia).
  pose proof (fun s => consistent_removed w _ s Hc Hi Hn) as Hfin.
  destruct (consistent_activeLayer _ (Hfin "")) as [L' HL'].
  change (activeLayer (setText "" ?x)) with (activeLayer x) in HL'.
  match goal with
  | |- context [match activeLayer ?x with _ => _ end] =>
      assert (HX : activeLayer x = Some L') by exact HL'; rewrite HX
  end.
  eexists _, _. split; [reflexivity |]. exact (Hfin _).
Qed.

Lemma reverse_insert {A} (l : list A) i x :
  (i < length l)%nat ->
  reverse (<[i := x]> l) = <[(length l - 1 - i)%nat := x]> (reverse l).
Proof.
  intros Hi. apply list_eq. intros j.
  destruct (decide (j < length l)%nat) as [Hj|Hj].
  - rewrite reverse_lookup by (rewrite length_insert; lia).
    rewrite length_insert.
    destruct (decide (j = length l - 1 - i)%nat) as [-> | Hne].
    + rewrite list_lookup_insert_eq by (rewrite length_reverse; lia).
      replace (length l - S (length l - 1 - i))%nat with i by lia.
      by apply list_lookup_insert_eq.
    + rewrite !list_lookup_insert_ne by lia.
      by rewrite reverse_lookup by lia.
  - rewrite !lookup_ge_None_2; [done | |];
      rewrite ?length_insert, ?length_reverse, ?length_insert; lia.
Qed.

Lemma renameLayer_consistent answer w :
  consistent w ->
  exists w', renameLayer answer w = Some w' /\ consistent w'.
Proof.
  intros Hc. destruct (consistent_activeLayer w Hc) as [L HL].
  destruct (activeLayer_Some _ _ HL) as [Hl _].
  pose proof Hc as (Hr & Ht & Hq).
  unfold renameLayer. rewrite HL.
  destruct answer as [newName|]; [| by exists w].
  destruct (decide _); [by exists w |]. cbv zeta.
  assert (Hlen : length (items (layerListWidget w)) = length (layers w))
    by (rewrite Hq, length_reverse; apply length_fmap).
  simpl. rewrite Hlen.
  replace (_ || _) with false
    by (symmetry; apply orb_false_iff; unfold layerCount in Hr; split;
        [apply Z.ltb_ge | apply Z.leb_gt]; lia).
  eexists. split; [reflexivity |].
  unfold consistent, layerCount in *. simpl.
  rewrite length_insert. split; [done |]. split; [done |].
  rewrite list_fmap_insert, Hq. simpl.
  rewrite reverse_insert by (rewrite length_fmap; lia).
  rewrite length_fmap. f_equal. lia.
Qed.

Lemma changeLayerOpacity_consistent numberText answer w :
  consistent w ->
  exists w', changeLayerOpacity numberText answer w = Some w' /\ consistent w'.
Proof.
  intros Hc. destruct (consistent_activeLayer w Hc) as [L HL].
  unfold changeLayerOpacity. rewrite HL.
  destruct answer as [op|]; [| by exists w].
  eexists. split; [reflexivity |].
  eapply consistent_sameShape; [| exact Hc]. shape.
  by eapply sameShape_store.
Qed.

Lemma activeLayer_in_range w :
  0 <= activeLayerIndex w < layerCount w -> is_Some (activeLayer w).
Proof.
  intros Hr. unfold activeLayer, activeOutOfRange.
  replace (_ || _) with false
    by (symmetry; apply orb_false_iff; split;
        [apply Z.ltb_ge | apply Z.leb_gt]; lia).
  apply lookup_lt_is_Some. unfold layerCount in Hr. lia.
Qed.

Lemma onLayerContextMenu_consistent numberText row selected na oa w :
  consistent w ->
  exists w' n,
    onLayerContextMenu numberText row selected na oa w = Some (w', n) /\
    consistent w'.
Proof.
  intros Hc. pose proof Hc as (Hr & Ht & Hq).
  unfold onLayerContextMenu.
  destruct row as [uiIndex|]; [| by exists w, []].
  destruct (decide _) as [|Hrow]; [by exists w, [] |].
  destruct selected as [action|]; [| by exists w, []].
  assert (Hlen : length (items (layerListWidget w)) = length (layers w))
    by (rewrite Hq, length_reverse; apply length_fmap).
  set (w1 := setActiveLayerIndex _ w).
  assert (Hr1 : 0 <= activeLayerIndex w1 < layerCount w1)
    by (unfold w1, layerCount in *; simpl; lia).
  destruct (activeLayer_in_range w1 Hr1) as [L1 ->].
  assert (H1 : consistent (setTargetToActive w1))
    by (by apply consistent_setTargetToActive).
  cbv zeta. destruct action.
  - eexists _, _. split; [reflexivity |]. by apply duplicateLayer_consistent.
  - by apply deleteLayer_consistent.
  - destruct (renameLayer_consistent na _ H1) as (w' & -> & Hw').
    by eexists _, _.
  - destruct (changeLayerOpacity_consistent numberText oa _ H1)
      as (w' & -> & Hw').
    by eexists _, _.
Qed.

Lemma initialWindow_consistent : consistent initialWindow.
Proof.
  unfold initialWindow. cbv zeta.
  eapply (consistent_sameShape _ (setTargetToActive _)); [shape |].
  apply consistent_setTargetToActive; [| reflexivity].
  unfold layerCount. simpl. lia.
Qed.

Lemma more_handlers_shape fixedText colorName c f saved ev answer w :
  sameShape (zoomIn fixedText w) w /\
  sameShape (zoomOut fixedText w) w /\
  sameShape (chooseColor colorName c w) w /\
  sameShape (setColorFromButton colorName c w) w /\
  sameShape (fst (saveFile f saved w)) w /\
  sameShape (mouseDoubleClickEvent ev answer w) w /\
  sameShape (resizeEvent w) w.
Proof.
  unfold zoomIn, zoomOut, chooseColor, setColorFromButton, saveFile,
    mouseDoubleClickEvent, resizeEvent, setZoom, setPenColor.
  split_and!; break_match; simpl; shape.
Qed.

(** One step of a session from a consistent window. *)
Lemma handle_step stroke drawText numberText fixedText colorName (e : Event) (w : MainWindow) :
  consistent w -> textIndexValid w ->
  exists w', handle stroke drawText numberText fixedText colorName e w = Some w' /\ consistent w'.
Proof.
  intros Hc Hv.
  pose proof (consistent_activeLayer w Hc) as [L HL].
  pose proof (consistent_targetImage w Hc) as [img Himg].
  assert (Hkeep : forall w', sameShape w' w -> consistent w')
    by (intros w' H; by eapply consistent_sameShape).
  destruct e; simpl.
  - eexists. split; [done |]. apply Hkeep, sameShape_undo.
  - eexists. split; [done |]. apply Hkeep, sameShape_redo.
  - eexists. split; [done |]. apply Hkeep, sameShape_clearCanvas.
  - eexists. split; [done |]. apply Hkeep, sameShape_transforms.
  - eexists. split; [done |]. apply Hkeep, sameShape_transforms.
  - eexists. split; [done |]. apply Hkeep, sameShape_transforms.
  - eexists. split; [done |]. apply Hkeep, sameShape_transforms.
  - eexists. split; [done |]. apply Hkeep, sameShape_filters.
  - eexists. split; [done |]. apply Hkeep, sameShape_filters.
  - eexists. split; [done |]. apply Hkeep, sameShape_copySelection.
  - destruct (cutSelection_shape w) as (w' & -> & Hs); [by eexists |].
    eexists. split; [done |]. by apply Hkeep.
  - destruct (pasteSelection_shape w) as (w' & -> & Hs); [by eexists |].
    eexists. split; [done |]. by apply Hkeep.
  - by apply addLayer_consistent.
  - destruct (removeLayer_consistent w Hc) as (w' & n & -> & Hw').
    by eexists.
  - eexists. split; [done |]. by apply activateLayer_consistent.
  - match goal with
    | |- context [onLayerContextMenu ?f ?r ?s ?a ?o w] =>
        destruct (onLayerContextMenu_consistent f r s a o w Hc)
          as (w' & n & -> & Hw')
    end.
    by eexists.
  - match goal with
    | |- context [openFile ?f ?l w] =>
        destruct (openFile_shape f l w Hc) as (w' & n & -> & Hs)
    end.
    eexists. split; [done |]. by apply Hkeep.
  - eexists. split; [done |]. by apply openPNGAsNewLayer_consistent.
  - eexists. split; [done |]. apply Hkeep, mousePressEvent_shape.
  - match goal with
    | |- context [mouseMoveEvent stroke ?ev w] =>
        destruct (mouseMoveEvent_shape stroke ev w) as (w' & -> & Hs);
          [by eexists | exact Hv |]
    end.
    eexists. split; [done |]. by apply Hkeep.
  - match goal with
    | |- context [mouseReleaseEvent ?ev w] =>
        destruct (mouseReleaseEvent_shape ev w) as (w' & -> & Hs);
          [by eexists |]
    end.
    eexists. split; [done |]. by apply Hkeep.
  - eexists. split; [done |]. apply Hkeep, (toolbar_shape drawText BRUSH "" 0 0%float).
  - eexists. split; [done |]. apply Hkeep, (toolbar_shape drawText BRUSH "" 0 0%float).
  - eexists. split; [done |]. apply Hkeep, (toolbar_shape drawText BRUSH "" 0 0%float).
  - eexists. split; [done |].
    match goal with
    | |- consistent (selectTool ?t ?l _) =>
        apply Hkeep, (toolbar_shape drawText t l 0 0%float)
    end.
  - eexists. split; [done |].
    match goal with
    | |- consistent (changeBrushSize ?v _) =>
        apply Hkeep, (toolbar_shape drawText BRUSH "" v 0%float)
    end.
  - eexists. split; [done |].
    match goal with
    | |- consistent (setZoom ?z _) =>
        apply Hkeep, (toolbar_shape drawText BRUSH "" 0 z)
    end.
  - eexists. split; [done |].
    apply Hkeep, (more_handlers_shape fixedText colorName None "" true
                    (leftPress 0 0) None).
  - eexists. split; [done |].
    apply Hkeep, (more_handlers_shape fixedText colorName None "" true
                    (leftPress 0 0) None).
  - eexists. split; [done |].
    match goal with
    | |- consistent (chooseColor _ ?c _) =>
        apply Hkeep, (more_handlers_shape fixedText colorName c "" true
                        (leftPress 0 0) None)
    end.
  - eexists. split; [done |].
    match goal with
    | |- consistent (setColorFromButton _ ?c _) =>
        apply Hkeep, (more_handlers_shape fixedText colorName c "" true
                        (leftPress 0 0) None)
    end.
  - eexists. split; [done |].
    match goal with
    | |- consistent (fst (saveFile ?f ?s _)) =>
        apply Hkeep, (more_handlers_shape fixedText colorName None f s
                        (leftPress 0 0) None)
    end.
  - eexists. split; [done |].
    match goal with
    | |- consistent (mouseDoubleClickEvent ?ev ?a _) =>
        apply Hkeep, (more_handlers_shape fixedText colorName None "" true
                        ev a)
    end.
  - eexists. split; [done |].
    apply Hkeep, (more_handlers_shape fixedText colorName None "" true
                    (leftPress 0 0) None).
Qed.

Lemma handle_text stroke drawText numberText fixedText colorName (e : Event)
    (w w' : MainWindow) :
  textIndexValid w ->
  handle stroke drawText numberText fixedText colorName e w = Some w' ->
  textIndexValid w'.
Proof.
  intros Hv.
  assert (Hkeep : forall a, sameText a w -> textIndexValid a)
    by (intros a H; by eapply textIndexValid_sameText).
  pose proof (edits_keep_text true w)
    as (Hundo & Hredo & Hclear & Hrl & Hrr & Hfh & Hfv & _ & _ & Hcopy).
  pose proof (layers_keep_text numberText 0 None None "" None w)
    as (Hadd & Hrem & _).
  destruct e; simpl.
  - intros [= <-]. by apply Hkeep.
  - intros [= <-]. by apply Hkeep.
  - intros [= <-]. by apply Hkeep.
  - intros [= <-]. by apply Hkeep.
  - intros [= <-]. by apply Hkeep.
  - intros [= <-]. by apply Hkeep.
  - intros [= <-]. by apply Hkeep.
  - intros [= <-].
    match goal with
    | |- textIndexValid (grayscale ?b _) =>
        pose proof (edits_keep_text b w) as (_ & _ & _ & _ & _ & _ & _ & Hg & _)
    end.
    by apply Hkeep.
  - intros [= <-].
    match goal with
    | |- textIndexValid (invertColors ?b _) =>
        pose proof (edits_keep_text b w)
          as (_ & _ & _ & _ & _ & _ & _ & _ & Hi & _)
    end.
    by apply Hkeep.
  - intros [= <-]. by apply Hkeep.
  - intros H. apply Hkeep, clipboard_keeps_text. by left.
  - intros H. apply Hkeep, clipboard_keeps_text. by right.
  - intros H. by apply Hkeep, Hadd.
  - destruct (removeLayer w) as [[w1 n]|] eqn:E; [| done].
    intros [= <-]. by eapply Hkeep, Hrem.
  - intros [= <-].
    match goal with
    | |- textIndexValid (activateLayer ?r _) =>
        pose proof (layers_keep_text numberText r None None "" None w)
          as (_ & _ & _ & Hact & _)
    end.
    by apply Hkeep.
  - match goal with
    | |- context [onLayerContextMenu ?f ?r ?s ?a ?o w] =>
        destruct (onLayerContextMenu f r s a o w) as [[w1 n]|] eqn:E;
          [| done]
    end.
    intros [= <-]. by eapply Hkeep, onLayerContextMenu_keeps_text.
  - match goal with
    | |- context [openFile ?f ?l w] =>
        pose proof (layers_keep_text numberText 0 None None f l w)
          as (_ & _ & _ & _ & _ & _ & _ & Hopen & _);
        destruct (openFile f l w) as [[w1 n]|] eqn:E; [| done]
    end.
    intros [= <-]. by eapply Hkeep, Hopen.
  - intros [= <-].
    match goal with
    | |- textIndexValid (fst (openPNGAsNewLayer ?f ?l _)) =>
        pose proof (layers_keep_text numberText 0 None None f l w)
          as (_ & _ & _ & _ & _ & _ & _ & _ & Hpng)
    end.
    by apply Hkeep.
  - intros [= <-]. by apply mousePressEvent_text.
  - by apply mouseMoveEvent_text.
  - intros H. by apply Hkeep, (mouseReleaseEvent_keeps_text ev).
  - intros [= <-]. by apply toolbar_text.
  - intros [= <-]. by apply toolbar_text.
  - intros [= <-]. by apply toolbar_text.
  - intros [= <-].
    match goal with
    | |- textIndexValid (selectTool ?t ?l _) =>
        apply Hkeep,
          (tools_keep_text fixedText colorName t l 0 0%float None "" true)
    end.
  - intros [= <-].
    match goal with
    | |- textIndexValid (changeBrushSize ?v _) =>
        apply Hkeep,
          (tools_keep_text fixedText colorName BRUSH "" v 0%float None "" true)
    end.
  - intros [= <-].
    match goal with
    | |- textIndexValid (setZoom ?z _) =>
        apply Hkeep,
          (tools_keep_text fixedText colorName BRUSH "" 0 z None "" true)
    end.
  - intros [= <-].
    apply Hkeep,
      (tools_keep_text fixedText colorName BRUSH "" 0 0%float None "" true).
  - intros [= <-].
    apply Hkeep,
      (tools_keep_text fixedText colorName BRUSH "" 0 0%float None "" true).
  - intros [= <-].
    match goal with
    | |- textIndexValid (chooseColor _ ?c _) =>
        apply Hkeep,
          (tools_keep_text fixedText colorName BRUSH "" 0 0%float c "" true)
    end.
  - intros [= <-].
    match goal with
    | |- textIndexValid (setColorFromButton _ ?c _) =>
        apply Hkeep,
          (tools_keep_text fixedText colorName BRUSH "" 0 0%float c "" true)
    end.
  - intros [= <-].
    match goal with
    | |- textIndexValid (fst (saveFile ?f ?s _)) =>
        apply Hkeep,
          (tools_keep_text fixedText colorName BRUSH "" 0 0%float None f s)
    end.
  - intros [= <-]. by apply mouseDoubleClickEvent_text.
  - intros [= <-].
    apply Hkeep,
      (tools_keep_text fixedText colorName BRUSH "" 0 0%float None "" true).
Qed.

Lemma initialWindow_text : textIndexValid initialWindow.
Proof.
  unfold initialWindow. cbv zeta.
  match goal with
  | |- textIndexValid (setText _ (compositeLayers (setTargetToActive ?w0))) =>
      apply (textIndexValid_sameText _ w0); [text |]
  end.
  unfold textIndexValid. simpl. lia.
Qed.

(** X7.  On a consistent window - at least one layer, the active index in
    range, the canvas drawing into the active layer, the panel listing the
    layer names top first - whose active text index is below the number
    of text items, no handler makes an undefined access, whatever the
    event and the answers of its dialogs, and the window it leaves is
    consistent again with its active text index again below the number of
    its text items.  The bound on the index is needed: a move with the
    text tool writes to [textItems[activeTextIndex]] after checking only
    that the index is not negative. *)
Theorem handle_consistent stroke drawText numberText fixedText colorName (e : Event)
    (w : MainWindow) :
  consistent w -> textIndexValid w ->
  exists w', handle stroke drawText numberText fixedText colorName e w = Some w' /\
             consistent w' /\ textIndexValid w'.
Proof.
  intros Hc Hv.
  destruct (handle_step stroke drawText numberText fixedText colorName e w Hc Hv)
    as (w' & E & Hc').
  exists w'. split_and!; [done | done |]. by eapply handle_text.
Qed.

Lemma handle_consistent_witness :
  (consistent twoTexts /\ textIndexValid twoTexts) /\
  exists w',
    handle (fun _ _ _ i => i) (fun _ i => i) (fun _ => "") (fun _ => "")
      (fun _ => "") (OnMouseMove (leftMove 2 2)) twoTexts = Some w' /\
    consistent w' /\ textIndexValid w'.
Proof.
  assert (H : consistent twoTexts /\ textIndexValid twoTexts).
  { unfold consistent, textIndexValid, layerCount.
    vm_compute. split; [repeat split; congruence | reflexivity]. }
  split; [exact H |]. destruct H. by apply handle_consistent.
Defined.

(** X8.  From the window the constructor builds, every session - any
    sequence of events with any dialog answers - runs to the end with no
    undefined access and ends in a consistent window. *)
Theorem run_from_initialWindow stroke drawText numberText fixedText colorName (es : list Event) :
  exists w,
    run stroke drawText numberText fixedText colorName es initialWindow = Some w /\ consistent w.
Proof.
  assert (H : forall es w, consistent w -> textIndexValid w ->
                exists w', run stroke drawText numberText fixedText colorName es w = Some w' /\
                           consistent w').
  { clear es. induction es as [|e es IH]; intros w Hc Hv; [by exists w |].
    simpl.
    destruct (handle_step stroke drawText numberText fixedText colorName e w Hc Hv)
      as (w1 & E & H1).
    rewrite E. apply IH; [done |]. by eapply handle_text. }
  apply H; [apply initialWindow_consistent | apply initialWindow_text].
Qed.

(** ** A new layer shows nothing *)

(** An image all of whose pixels are transparent. *)
Lemma pixel_blank i x y :
  Forall (Forall (eq transparent)) (scanLines i) -> pixel i x y = transparent.
Proof.
  intros H. unfold pixel. destruct (_ && _); [| done].
  destruct (scanLines i !! Z.to_nat y) as [row|] eqn:Hy.
  - rewrite (nth_lookup_Some _ _ _ _ Hy).
    destruct (row !! Z.to_nat x) as [c|] eqn:Hx.
    + rewrite (nth_lookup_Some _ _ _ _ Hx).
      rewrite Forall_lookup in H. specialize (H _ _ Hy).
      rewrite Forall_lookup in H. symmetry. by eapply H.
    + apply nth_overflow. by apply lookup_ge_None.
  - rewrite (nth_overflow (scanLines i)) by (by apply lookup_ge_None).
    by destruct (Z.to_nat x).
Qed.

Lemma blank_filled fmt w h :
  Forall (Forall (eq transparent)) (scanLines (filled fmt w h transparent)).
Proof.
  unfold filled, generate. destruct (_ || _); [constructor |]. simpl.
  unfold tabulate. rewrite Forall_map. apply Forall_forall. intros k _.
  rewrite Forall_map. by apply Forall_forall.
Qed.

Lemma drawImage_blank p src dst :
  Forall (Forall (eq transparent)) (scanLines src) ->
  drawImage 1%float p src dst = dst.
Proof.
  intros H. unfold drawImage. apply mapPixels_id. intros x y row c _ _.
  destruct (valid _ _ _); [| done].
  by rewrite blendPixel_one, (pixel_blank _ _ _ H), sourceOver_transparent.
Qed.

Lemma blank_paddedTo comp img :
  Forall (Forall (eq transparent)) (scanLines img) ->
  Forall (Forall (eq transparent)) (scanLines (paddedTo comp img)).
Proof.
  intros H. unfold paddedTo. destruct (_ || _); [| done].
  rewrite drawImage_blank by done. apply blank_filled.
Qed.

Lemma setTargetToActive_top w l :
  activeLayerIndex w = Z.of_nat (length (layers w)) - 1 ->
  forall ls, layers w = ls ++ [l] ->
  layers (setTargetToActive w) =
    ls ++ [setImage (paddedTo (composite (canvas w)) (image l)) l] /\
  activeLayerIndex (setTargetToActive w) = activeLayerIndex w /\
  composite (canvas (setTargetToActive w)) = composite (canvas w).
Proof.
  intros Hi ls Hl. unfold setTargetToActive, setTargetImage.
  rewrite Hl, length_app in Hi. simpl in Hi.
  assert (Hidx : Z.to_nat (activeLayerIndex w) = length ls) by lia.
  set (w1 := setCanvas _ w).
  assert (Hlk : layers w1 !! length ls = Some l).
  { unfold w1. simpl. rewrite Hl. by rewrite lookup_app_r, Nat.sub_diag. }
  destruct (ensureTargetSizeMatchesWidget_layers w1 (length ls) l)
    as (-> & -> & ->); [by unfold w1; simpl; rewrite Hidx | done |].
  unfold w1. simpl. rewrite Hl. repeat split.
  rewrite insert_app_r_alt, Nat.sub_diag by done. done.
Qed.

(** X9.  [addLayer] puts a layer on top that is transparent everywhere,
    with empty histories and full opacity, and makes it the active one;
    the layers below are kept as they are and the canvas shows what the
    layers below alone compose to. *)
Theorem addLayer_shows_nothing (w : MainWindow) :
  layers w <> [] ->
  exists w' l,
    addLayer w = Some w' /\
    layers w' = layers w ++ [l] /\
    activeLayer w' = Some l /\
    name l = layerName (layerCount w) /\
    undoStack l = [] /\ redoStack l = [] /\ opacity l = 1%float /\
    (forall x y, pixel (image l) x y = transparent) /\
    composite (canvas w') = composite (canvas (compositeLayers w)).
Proof.
  intros Hne. unfold addLayer.
  destruct (layers w) as [|l0 rest] eqn:Hl; [done |]. cbv zeta.
  set (nm := layerName (layerCount w)).
  set (l := mkLayer nm _ [] [] 1%float).
  set (w1 := setActiveLayerIndex _ _).
  assert (Hl1 : layers w1 = (l0 :: rest) ++ [l]) by done.
  assert (Hi1 : activeLayerIndex w1 = Z.of_nat (length (layers w1)) - 1)
    by done.
  destruct (setTargetToActive_top w1 l Hi1 _ Hl1) as (Hl2 & Hi2 & _).
  set (l' := setImage _ l) in Hl2.
  assert (Hblank : Forall (Forall (eq transparent)) (scanLines (image l')))
    by apply blank_paddedTo, blank_filled.
  eexists _, l'. split; [reflexivity |].
  destruct (sameDocument_setText ("Added " +:+ nm)
              (compositeLayers (setTargetToActive w1))) as [E1 E2].
  destruct (sameDocument_compositeLayers (setTargetToActive w1)) as [E3 E4].
  repeat split; try done.
  - by rewrite E1, E3, Hl2.
  - rewrite (activeLayer_sameDocument _ _ (sameDocument_setText _ _)),
      (activeLayer_sameDocument _ _ (sameDocument_compositeLayers _)).
    unfold activeLayer, activeOutOfRange, layerCount.
    rewrite Hl2, Hi2, Hi1, Hl1, !length_app. simpl length.
    replace (_ || _) with false
      by (symmetry; apply orb_false_iff; split;
          [apply Z.ltb_ge | apply Z.leb_gt]; lia).
    rewrite lookup_app_r by (simpl; lia).
    by replace (_ - _)%nat with 0%nat by (simpl; lia).
  - intros x y. by apply pixel_blank.
  - unfold compositeLayers at 1. rewrite Hl2. simpl.
    rewrite fold_left_app. simpl.
    rewrite (drawImage_blank _ (image l')) by done.
    unfold compositeLayers. by rewrite Hl.
Qed.

Lemma addLayer_shows_nothing_witness :
  exists w' l,
    addLayer twoLayers = Some w' /\
    layers w' = layers twoLayers ++ [l] /\
    activeLayer w' = Some l /\
    name l = layerName (layerCount twoLayers) /\
    undoStack l = [] /\ redoStack l = [] /\ opacity l = 1%float /\
    (forall x y, pixel (image l) x y = transparent) /\
    composite (canvas w') = composite (canvas (compositeLayers twoLayers)).
Proof. apply addLayer_shows_nothing. vm_compute. discriminate. Defined.

(** ** Flips and rotations undo each other *)

Lemma mirrored_mirrored hz vt i : mirrored hz vt (mirrored hz vt i) = i.
Proof.
  destruct i as [fmt rows]. unfold mirrored. simpl. f_equal.
  destruct hz, vt; rewrite ?rev_involutive, ?map_rev, ?rev_involutive,
    ?map_map; try done;
    rewrite <- (map_id rows) at 2; apply map_ext; intros; apply rev_involutive.
Qed.

Lemma generate_ext fmt w h f g :
  (forall x y, 0 <= x < w -> 0 <= y < h -> f x y = g x y) ->
  generate fmt w h f = generate fmt w h g.
Proof.
  intros H. unfold generate. destruct (_ || _); [done |]. f_equal.
  unfold tabulate. apply map_ext_in. intros ky Hy. apply in_seq in Hy.
  apply map_ext_in. intros kx Hx. apply in_seq in Hx.
  apply H; lia.
Qed.

Lemma format_generate fmt w h f :
  0 < w -> 0 < h -> format (generate fmt w h f) = fmt.
Proof.
  intros Hw Hh. unfold generate.
  by replace ((w <=? 0) || (h <=? 0)) with false
    by (symmetry; apply orb_false_iff; split; apply Z.leb_gt; lia).
Qed.

Lemma isNull_false i : isNull i = false -> 0 < width i /\ 0 < height i.
Proof.
  unfold isNull. intros H. apply orb_false_iff in H as [H1 H2].
  apply Z.leb_gt in H1, H2. done.
Qed.

(** A buffer is the table of its pixels. *)
Lemma generate_pixel i :
  wellFormed i -> isNull i = false ->
  generate (format i) (width i) (height i) (pixel i) = i.
Proof.
  intros Hwf Hn. destruct (isNull_false _ Hn) as [Hw Hh].
  unfold generate.
  replace ((width i <=? 0) || (height i <=? 0)) with false
    by (symmetry; apply orb_false_iff; split; apply Z.leb_gt; lia).
  assert (E : tabulate (height i)
                (fun y => tabulate (width i) (fun x => pixel i x y))
              = scanLines i); [| rewrite E; by destruct i].
  apply list_eq. intros y.
  destruct (scanLines i !! y) as [row|] eqn:Hy.
  - assert (Hlt : Z.of_nat y < height i).
    { unfold height. apply lookup_lt_Some in Hy. lia. }
    rewrite lookup_tabulate by done. f_equal.
    destruct (Hwf _ _ Hy) as [Hlen _].
    apply list_eq. intros x.
    destruct (row !! x) as [c|] eqn:Hx.
    + rewrite lookup_tabulate
        by (apply lookup_lt_Some in Hx; unfold QRgb in *; lia).
      f_equal. by eapply pixel_lookup.
    + apply lookup_ge_None. rewrite length_tabulate.
      apply lookup_ge_None in Hx. unfold QRgb in *. lia.
  - apply lookup_ge_None. rewrite length_tabulate.
    apply lookup_ge_None in Hy. unfold height. lia.
Qed.

Lemma rotated_rotated cw i :
  wellFormed i -> isNull i = false ->
  rotated cw (rotated (negb cw) i) = i.
Proof.
  intros Hwf Hn. destruct (isNull_false _ Hn) as [Hw Hh].
  unfold rotated at 1.
  assert (Hd : width (rotated (negb cw) i) = height i /\
               height (rotated (negb cw) i) = width i)
    by (by apply generate_dims).
  destruct Hd as [-> ->].
  assert (Hf : format (rotated (negb cw) i) = format i)
    by (by apply format_generate).
  rewrite Hf.
  transitivity (generate (format i) (width i) (height i) (pixel i));
    [| by apply generate_pixel].
  apply generate_ext. intros x y Hx Hy.
  unfold rotated. destruct cw; simpl.
  - rewrite pixel_generate by lia. f_equal. lia.
  - rewrite pixel_generate by lia. f_equal. lia.
Qed.

Lemma transform_onActive w :
  sameDocument (rotateLeft w)
    (onActive (fun L => setImage (rotated false (image L)) L) w) /\
  sameDocument (rotateRight w)
    (onActive (fun L => setImage (rotated true (image L)) L) w) /\
  sameDocument (flipHorizontal w)
    (onActive (fun L => setImage (mirrored true false (image L)) L) w) /\
  sameDocument (flipVertical w)
    (onActive (fun L => setImage (mirrored false true (image L)) L) w).
Proof.
  unfold rotateLeft, rotateRight, flipHorizontal, flipVertical.
  destruct (activeOutOfRange w) eqn:E.
  - unfold onActive, activeLayer. rewrite E.
    repeat split; apply sameDocument_refl.
  - repeat apply conj;
      (eapply sameDocument_trans; [apply sameDocument_setText |]);
      (eapply sameDocument_trans; [apply sameDocument_compositeLayers |]);
      rewrite paintActive_onActive; apply sameDocument_refl.
Qed.

Lemma transform_twice op1 f1 op2 f2 w L :
  (forall w, sameDocument (op1 w)
               (onActive (fun L => setImage (f1 (image L)) L) w)) ->
  (forall w, sameDocument (op2 w)
               (onActive (fun L => setImage (f2 (image L)) L) w)) ->
  activeLayer w = Some L ->
  f2 (f1 (image L)) = image L ->
  sameDocument (op2 (op1 w)) w.
Proof.
  intros H1 H2 HL E.
  eapply sameDocument_trans; [apply H2 |].
  eapply sameDocument_trans; [apply onActive_sameDocument, H1 |].
  eapply sameDocument_trans; [apply onActive_onActive |].
  split.
  - apply (onActive_id _ L); [done |].
    destruct L. unfold setImage in *. simpl in *. by rewrite E.
  - unfold onActive. by rewrite HL.
Qed.

Lemma image3x1_wellFormed : wellFormed image3x1.
Proof.
  intros y row Hy. destruct y as [|y]; simpl in Hy; [| done].
  injection Hy as <-. split; [reflexivity |]. intros x c Hx.
  destruct x as [|[|[|x]]]; simpl in Hx; [| | | done];
    injection Hx as <-; vm_compute; split; congruence.
Qed.

(** X10.  A flip done twice gives every layer back as it was; on a buffer
    with pixels, a quarter turn followed by the opposite one does too
    (the buffer of [h] x [w] in between is turned back into the buffer
    of [w] x [h]).  The histories and the other layers are not touched. *)
Theorem transforms_undo_each_other (w : MainWindow) (L : Layer) :
  activeLayer w = Some L ->
  sameDocument (flipHorizontal (flipHorizontal w)) w /\
  sameDocument (flipVertical (flipVertical w)) w /\
  (wellFormed (image L) -> isNull (image L) = false ->
   sameDocument (rotateRight (rotateLeft w)) w /\
   sameDocument (rotateLeft (rotateRight w)) w).
Proof.
  intros HL.
  pose proof transform_onActive as H.
  split; [| split; [| intros Hwf Hn; split]].
  - eapply (transform_twice _ _ _ _ w L); [apply H | apply H | done |].
    apply mirrored_mirrored.
  - eapply (transform_twice _ _ _ _ w L); [apply H | apply H | done |].
    apply mirrored_mirrored.
  - eapply (transform_twice _ _ _ _ w L); [apply H | apply H | done |].
    by apply (rotated_rotated true).
  - eapply (transform_twice _ _ _ _ w L); [apply H | apply H | done |].
    by apply (rotated_rotated false).
Qed.

Lemma transforms_undo_each_other_witness :
  let w := singleLayer image3x1 BRUSH 1%float in
  sameDocument (flipHorizontal (flipHorizontal w)) w /\
  sameDocument (flipVertical (flipVertical w)) w /\
  sameDocument (rotateRight (rotateLeft w)) w /\
  sameDocument (rotateLeft (rotateRight w)) w.
Proof.
  destruct (transforms_undo_each_other (singleLayer image3x1 BRUSH 1%float)
              (mkLayer "Background" image3x1 [] [] 1%float))
    as (H1 & H2 & H3); [reflexivity |].
  destruct H3 as [H3 H4]; [apply image3x1_wellFormed | reflexivity |].
  done.
Defined.

(** ** A gesture and its undo *)

Lemma compositeLayers_frame w :
  layers (compositeLayers w) = layers w /\
  activeLayerIndex (compositeLayers w) = activeLayerIndex w /\
  targetImg (canvas (compositeLayers w)) = targetImg (canvas w) /\
  currentTool (canvas (compositeLayers w)) = currentTool (canvas w).
Proof.
  unfold compositeLayers. destruct (layers w) eqn:E; [by rewrite E |].
  simpl. by rewrite E.
Qed.

Lemma midStroke_targetImage ls t Lb tool w :
  (t < length ls)%nat -> midStroke ls t Lb tool w ->
  exists img, layers w = <[t := setImage img Lb]> ls /\
              targetImage w = Some img.
Proof.
  intros Hlt (_ & Ht & _ & img & Hl). exists img. split; [done |].
  unfold targetImage. by rewrite Ht, Hl, list_lookup_insert_eq.
Qed.

Lemma midStroke_setCanvas ls t Lb tool c w :
  targetImg c = Some t -> currentTool c = tool ->
  midStroke ls t Lb tool w -> midStroke ls t Lb tool (setCanvas c w).
Proof. intros E1 E2 (?&?&?&?). by unfold midStroke. Qed.

Lemma midStroke_compositeLayers ls t Lb tool w :
  midStroke ls t Lb tool w -> midStroke ls t Lb tool (compositeLayers w).
Proof.
  intros (?&?&?&?). destruct (compositeLayers_frame w) as (E1 & E2 & E3 & E4).
  unfold midStroke. by rewrite E1, E2, E3, E4.
Qed.

Lemma midStroke_paintTarget ls t Lb tool f w :
  (t < length ls)%nat ->
  midStroke ls t Lb tool w -> midStroke ls t Lb tool (paintTarget f w).
Proof.
  intros Hlt (Hi & Ht & Htool & img & Hl). unfold paintTarget.
  rewrite Ht, Hl, list_lookup_insert_eq by done.
  repeat split; try done. exists (f img). simpl.
  by rewrite list_insert_insert_eq.
Qed.

Ltac stroke_step :=
  first
    [ assumption
    | apply midStroke_compositeLayers
    | apply midStroke_paintTarget; [assumption |]
    | apply midStroke_setCanvas; [simpl; congruence | simpl; congruence |] ].

Lemma mouseMoveEvent_midStroke stroke ev ls t Lb tool w :
  (t < length ls)%nat -> tool <> TEXT -> midStroke ls t Lb tool w ->
  exists w', mouseMoveEvent stroke ev w = Some w' /\ midStroke ls t Lb tool w'.
Proof.
  intros Hlt Htool H.
  destruct (midStroke_targetImage _ _ _ _ _ Hlt H) as (img & Hl & Hti).
  pose proof H as (_ & Htg & Hct & _).
  unfold mouseMoveEvent, onStrokeFinished. rewrite Hti.
  rewrite (bool_decide_eq_false_2 (currentTool (canvas w) = TEXT))
    by congruence.
  cbn [andb].
  break_match; eexists; (split; [reflexivity |]); repeat stroke_step.
Qed.

Lemma mouseReleaseEvent_midStroke ev ls t Lb tool w :
  (t < length ls)%nat -> midStroke ls t Lb tool w ->
  exists w', mouseReleaseEvent ev w = Some w' /\ midStroke ls t Lb tool w'.
Proof.
  intros Hlt H.
  destruct (midStroke_targetImage _ _ _ _ _ Hlt H) as (img & Hl & Hti).
  pose proof H as (_ & Htg & Hct & _).
  unfold mouseReleaseEvent, onStrokeFinished. rewrite Hti.
  destruct (_ && _); [| by exists w].
  destruct (if bool_decide _ then _ else _) as [r poly].
  eexists. split; [reflexivity |]. repeat stroke_step.
Qed.

Lemma onStrokeStarted_frame w L :
  activeLayer w = Some L ->
  canvas (onStrokeStarted w) = canvas w /\
  activeLayerIndex (onStrokeStarted w) = activeLayerIndex w /\
  layers (onStrokeStarted w) =
    <[Z.to_nat (activeLayerIndex w) := setRedoStack [] (pushLayer L)]> (layers w).
Proof.
  intros HL. unfold onStrokeStarted.
  rewrite clearRedo_onActive, pushUndo_onActive.
  unfold onActive. rewrite HL, (activeLayer_store _ _ _ HL). simpl.
  by rewrite list_insert_insert_eq.
Qed.

Lemma mousePressEvent_midStroke ev entry w L :
  activeLayer w = Some L ->
  targetImg (canvas w) = Some (Z.to_nat (activeLayerIndex w)) ->
  currentTool (canvas w) <> TEXT ->
  button ev = LeftButton ->
  widgetToImage (canvas w) (pos ev) (size (image L)) <> OUT_OF_BOUNDS ->
  midStroke (layers w) (Z.to_nat (activeLayerIndex w))
    (setRedoStack [] (pushLayer L)) (currentTool (canvas w))
    (mousePressEvent ev entry w).
Proof.
  intros HL Ht Htool Hb Hin. unfold mousePressEvent.
  rewrite (targetImage_active _ _ HL Ht).
  rewrite (bool_decide_eq_true_2 _ Hb), (bool_decide_eq_false_2 _ Hin),
    (bool_decide_eq_false_2 _ Htool).
  cbn [negb].
  destruct (activeLayer_Some _ _ HL) as [Hlk Hr].
  apply orb_false_iff in Hr as [Hr _]. apply Z.ltb_ge in Hr.
  set (c := match currentTool _ with RECT_SELECT => _ | _ => _ end).
  assert (Hc : targetImg c = targetImg (canvas w) /\
               currentTool c = currentTool (canvas w)).
  { unfold c. simpl.
    destruct (currentTool (canvas w)) eqn:E; simpl; by rewrite ?E. }
  destruct (onStrokeStarted_frame (setCanvas c w) L HL) as (E1 & E2 & E3).
  clearbody c. destruct Hc as [Hc1 Hc2]. unfold midStroke.
  rewrite E1, E2, E3. simpl. rewrite Hc1, Hc2, Z2Nat.id by done.
  repeat split; [done |]. by exists (image L).
Qed.

Lemma run_app stroke drawText numberText fixedText colorName es1 es2 w :
  run stroke drawText numberText fixedText colorName (es1 ++ es2) w =
  run stroke drawText numberText fixedText colorName es1 w ≫= run stroke drawText numberText fixedText colorName es2.
Proof.
  revert w. induction es1 as [|e es1 IH]; intros w; simpl; [done |].
  destruct (handle _ _ _ _ _ e w); [apply IH | done].
Qed.

Lemma moves_midStroke stroke drawText numberText fixedText colorName ls t Lb tool moves :
  (t < length ls)%nat -> tool <> TEXT ->
  forall w, midStroke ls t Lb tool w ->
  exists w',
    run stroke drawText numberText fixedText colorName (OnMouseMove <$> moves) w = Some w' /\
    midStroke ls t Lb tool w'.
Proof.
  intros Hlt Htool. induction moves as [|ev moves IH]; intros w H.
  - by exists w.
  - destruct (mouseMoveEvent_midStroke stroke ev _ _ _ _ _ Hlt Htool H)
      as (w1 & E & H1).
    destruct (IH w1 H1) as (w2 & E2 & H2).
    exists w2. split; [| done]. simpl. by rewrite E.
Qed.

(** X11.  A gesture with any tool but the text tool - a left press on the
    image, any moves, a release - followed by [undo] gives the active
    layer the buffer it had before the press, whatever was painted: the
    painted buffer is the one entry of its redo stack, its undo stack is
    as before the press when that one held fewer than 20 entries, and no
    other layer has changed. *)
Theorem gesture_then_undo stroke drawText numberText fixedText colorName (w : MainWindow)
    (L : Layer) (press : QMouseEvent) (entry : option (string * QRect))
    (moves : list QMouseEvent) (release : QMouseEvent) :
  activeLayer w = Some L ->
  targetImg (canvas w) = Some (Z.to_nat (activeLayerIndex w)) ->
  currentTool (canvas w) <> TEXT ->
  button press = LeftButton ->
  widgetToImage (canvas w) (pos press) (size (image L)) <> OUT_OF_BOUNDS ->
  exists w' painted U,
    run stroke drawText numberText fixedText colorName
      (OnMousePress press entry :: (OnMouseMove <$> moves)
         ++ [OnMouseRelease release; OnUndo]) w = Some w' /\
    layers w' =
      <[Z.to_nat (activeLayerIndex w) :=
          mkLayer (name L) (image L) U [painted] (opacity L)]> (layers w) /\
    activeLayerIndex w' = activeLayerIndex w /\
    (Z.of_nat (length (undoStack L)) < MAX_UNDO -> U = undoStack L).
Proof.
  intros HL Ht Htool Hb Hin.
  pose proof (mousePressEvent_midStroke press entry w L HL Ht Htool Hb Hin)
    as H0.
  destruct (activeLayer_Some _ _ HL) as [Hlk Hr].
  assert (Hlt : (Z.to_nat (activeLayerIndex w) < length (layers w))%nat)
    by (by eapply lookup_lt_Some).
  apply orb_false_iff in Hr as [Hr _]. apply Z.ltb_ge in Hr.
  destruct (moves_midStroke stroke drawText numberText fixedText colorName _ _ _ _ moves Hlt Htool
              _ H0) as (w1 & E1 & H1).
  destruct (mouseReleaseEvent_midStroke release _ _ _ _ _ Hlt H1)
    as (w2 & E2 & H2).
  destruct H2 as (Hi & _ & _ & painted & Hl2).
  assert (HL2 : activeLayer w2
                = Some (setImage painted (setRedoStack [] (pushLayer L)))).
  { unfold activeLayer, activeOutOfRange, layerCount.
    rewrite Hi, Hl2, length_insert, Nat2Z.id.
    replace (_ || _) with false
      by (symmetry; apply orb_false_iff; split;
          [apply Z.ltb_ge | apply Z.leb_gt]; lia).
    by apply list_lookup_insert_eq. }
  exists (undo w2), painted, (removelast (undoStack (pushLayer L))).
  split; [| split; [| split]].
  - cbn [run handle]. rewrite run_app, E1. cbn [mbind option_bind run handle].
    by rewrite E2.
  - unfold undo. rewrite HL2.
    change (undoStack (setImage _ _)) with (undoStack (pushLayer L)).
    rewrite last_pushLayer.
    etrans; [apply (proj1 (sameDocument_setText _ _)) |].
    etrans; [apply (proj1 (sameDocument_compositeLayers _)) |].
    simpl. by rewrite Hi, Hl2, Nat2Z.id, list_insert_insert_eq.
  - destruct (sameShape_undo w2) as (_ & -> & _). rewrite Hi. lia.
  - intros Hlen. unfold pushLayer. simpl.
    replace (MAX_UNDO <? _) with false
      by (symmetry; apply Z.ltb_ge; rewrite length_app; simpl; lia).
    apply removelast_last.
Qed.

Lemma gesture_then_undo_witness :
  exists w' painted U,
    run floodStroke (fun _ i => i) (fun _ => "") (fun _ => "") (fun _ => "")
      (OnMousePress (leftPress 0 0) None
         :: (OnMouseMove <$> [leftMove 1 1; leftMove 2 2])
         ++ [OnMouseRelease (leftRelease 2 2); OnUndo])
      (singleLayer image3x3 BRUSH 1%float) = Some w' /\
    layers w' =
      <[0%nat := mkLayer "Background" image3x3 U [painted] 1%float]>
        (layers (singleLayer image3x3 BRUSH 1%float)) /\
    activeLayerIndex w' = 0 /\
    (Z.of_nat (length (@nil QImage)) < MAX_UNDO -> U = []).
Proof.
  apply (gesture_then_undo floodStroke (fun _ i => i) (fun _ => "")
           (fun _ => "") (fun _ => "")
           (singleLayer image3x3 BRUSH 1%float)
           (mkLayer "Background" image3x3 [] [] 1%float)).
  - vm_compute; reflexivity.
  - vm_compute; reflexivity.
  - vm_compute; discriminate.
  - vm_compute; reflexivity.
  - vm_compute; discriminate.
Defined.

(** ** The text tool *)

(** X12.  A left press with the text tool on a point [p] of the image
    never touches a layer or its histories.  When text items lie under
    [p], the one typed last among them - the topmost - becomes the active
    item and is marked selected, and the prompt is not used; when none
    does, an accepted non-empty text is appended as a new item at [p] in
    the pen colour and becomes the active one, and a cancelled or empty
    prompt leaves the items alone with no active item. *)
Theorem text_press_picks_topmost (ev : QMouseEvent)
    (entry : option (string * QRect)) (w : MainWindow) (target : QImage) :
  targetImage w = Some target ->
  currentTool (canvas w) = TEXT ->
  button ev = LeftButton ->
  widgetToImage (canvas w) (pos ev) (size target) <> OUT_OF_BOUNDS ->
  let p := widgetToImage (canvas w) (pos ev) (size target) in
  let ts := textItems (canvas w) in
  let w' := mousePressEvent ev entry w in
  layers w' = layers w /\
  ((exists i t,
      ts !! i = Some t /\ textItemContains t p = true /\
      (forall j t', (i < j)%nat -> ts !! j = Some t' ->
                    textItemContains t' p = false) /\
      activeTextIndex (canvas w') = Z.of_nat i /\
      textItems (canvas w') = <[i := selectTextItem t]> ts /\
      lastPoint (canvas w') = p)
   \/
   ((forall j t, ts !! j = Some t -> textItemContains t p = false) /\
    match entry with
    | Some (txt, bounds) =>
        if decide (txt = "")
        then textItems (canvas w') = ts /\ activeTextIndex (canvas w') = -1
        else textItems (canvas w')
               = ts ++ [mkTextItem txt p "Arial,24" (penColor (canvas w))
                          bounds false] /\
             activeTextIndex (canvas w') = Z.of_nat (length ts)
    | None => textItems (canvas w') = ts /\ activeTextIndex (canvas w') = -1
    end)).
Proof.
  intros Hti Htool Hb Hin p ts w'. unfold w', mousePressEvent.
  rewrite Hti, (bool_decide_eq_true_2 _ Hb), (bool_decide_eq_false_2 _ Hin),
    (bool_decide_eq_true_2 _ Htool).
  cbn [negb]. fold p. fold ts.
  pose proof (hitTextItem_spec p ts 0) as Hhit.
  destruct (hitTextItem ts 0 p) as [k|].
  - destruct Hhit as (i & t & -> & Hi & Hc & Hlast).
    split; [done |]. left. exists i, t. simpl.
    split_and!; try done.
    apply list_eq. intros j.
    destruct (decide (j = i)) as [-> |].
    + rewrite list_lookup_alter_eq, Hi, list_lookup_insert_eq; [done |].
      by eapply lookup_lt_Some.
    + by rewrite list_lookup_alter_ne, list_lookup_insert_ne.
  - destruct entry as [[txt bounds]|]; [destruct (decide (txt = "")) |];
      (split; [done |]); right; (split; [done |]); simpl; try done.
    split; [done |]. rewrite length_app. simpl. lia.
Qed.

Lemma text_press_picks_topmost_witness :
  let p := mkQPoint 1 1 in
  let ts := textItems (canvas twoTexts) in
  let w' := mousePressEvent (leftPress 1 1) None twoTexts in
  layers w' = layers twoTexts /\
  ((exists i t,
      ts !! i = Some t /\ textItemContains t p = true /\
      (forall j t', (i < j)%nat -> ts !! j = Some t' ->
                    textItemContains t' p = false) /\
      activeTextIndex (canvas w') = Z.of_nat i /\
      textItems (canvas w') = <[i := selectTextItem t]> ts /\
      lastPoint (canvas w') = p)
   \/
   ((forall j t, ts !! j = Some t -> textItemContains t p = false) /\
    textItems (canvas w') = ts /\ activeTextIndex (canvas w') = -1)).
Proof.
  apply (text_press_picks_topmost (leftPress 1 1) None twoTexts image3x3).
  - vm_compute; reflexivity.
  - vm_compute; reflexivity.
  - vm_compute; reflexivity.
  - vm_compute; discriminate.
Defined.

(** ** Removing a layer *)

(** What [removeLayer] and [deleteLayer] leave with two layers or more. *)
Lemma removeLayer_result (w : MainWindow) :
  consistent w -> 1 < layerCount w ->
  exists w' ls T,
    removeLayer w = Some (w', []) /\
    deleteLayer w = Some (w', []) /\
    delete (Z.to_nat (activeLayerIndex w)) (layers w) = ls ++ [T] /\
    layers w' = ls ++ [setImage (paddedTo (composite (canvas w)) (image T)) T] /\
    activeLayerIndex w' = layerCount w - 2 /\
    statusLabel w' = "Layer removed, active: " +:+ name T.
Proof.
  intros Hc E.
  destruct (consistent_activeLayer w Hc) as [L HL].
  destruct (activeLayer_Some _ _ HL) as [Hlk Hr].
  destruct (removed_rows w Hc E) as (H1 & H1' & H2 & H2' & H3).
  cbv zeta in *.
  assert (Hi : (Z.to_nat (activeLayerIndex w) < length (layers w))%nat)
    by (by eapply lookup_lt_Some).
  assert (Hlen : length (delete (Z.to_nat (activeLayerIndex w)) (layers w))
                 = (length (layers w) - 1)%nat)
    by (rewrite length_delete; [done | by eexists]).
  assert (Hsnoc : exists ls T,
             delete (Z.to_nat (activeLayerIndex w)) (layers w) = ls ++ [T]).
  { destruct (delete _ (layers w)) as [|T ls _] using rev_ind.
    - unfold layerCount in E. simpl in Hlen. lia.
    - by exists ls, T. }
  destruct Hsnoc as (ls & T & Hsnoc).
  set (w3 := setLayerListWidget
               (mkQListWidget
                  (delete (length (layers w) - 1 - Z.to_nat (activeLayerIndex w))%nat
                     (items (layerListWidget w))) 0)
               (setActiveLayerIndex
                  (Z.of_nat (length (delete (Z.to_nat (activeLayerIndex w))
                                       (layers w))) - 1)
                  (setLayers (delete (Z.to_nat (activeLayerIndex w)) (layers w))
                     w))).
  assert (Hi3 : activeLayerIndex w3 = Z.of_nat (length (layers w3)) - 1)
    by done.
  destruct (setTargetToActive_top w3 T Hi3 ls Hsnoc) as (Hl4 & Hi4 & _).
  change (composite (canvas w3)) with (composite (canvas w)) in Hl4.
  set (T' := setImage _ T) in Hl4.
  assert (HL4 : activeLayer (compositeLayers (setTargetToActive w3)) = Some T').
  { rewrite (activeLayer_sameDocument _ _ (sameDocument_compositeLayers _)).
    unfold activeLayer, activeOutOfRange, layerCount.
    rewrite Hl4, Hi4, Hi3. change (layers w3) with
      (delete (Z.to_nat (activeLayerIndex w)) (layers w)).
    rewrite Hsnoc, !length_app. simpl length.
    replace (_ || _) with false
      by (symmetry; apply orb_false_iff; split;
          [apply Z.ltb_ge | apply Z.leb_gt]; lia).
    rewrite lookup_app_r by lia.
    by replace (_ - _)%nat with 0%nat by lia. }
  exists (setText ("Layer removed, active: " +:+ name T')
            (compositeLayers (setTargetToActive w3))), ls, T.
  split_and!.
  - unfold removeLayer.
    replace (layerCount w <=? 1) with false by (symmetry; by apply Z.leb_gt).
    rewrite Hr. cbv zeta. rewrite H2, H1, H3.
    match goal with
    | |- context [match activeLayer ?x with _ => _ end] =>
        assert (HX : activeLayer x = Some T') by exact HL4; rewrite HX
    end.
    reflexivity.
  - unfold deleteLayer.
    replace (layerCount w <=? 1) with false by (symmetry; by apply Z.leb_gt).
    rewrite Hr. cbv zeta. rewrite H2', H1', H3.
    match goal with
    | |- context [match activeLayer ?x with _ => _ end] =>
        assert (HX : activeLayer x = Some T') by exact HL4; rewrite HX
    end.
    reflexivity.
  - done.
  - etrans; [apply (proj1 (sameDocument_setText _ _)) |].
    etrans; [apply (proj1 (sameDocument_compositeLayers _)) |]. done.
  - etrans; [apply (proj2 (sameDocument_setText _ _)) |].
    etrans; [apply (proj2 (sameDocument_compositeLayers _)) |].
    rewrite Hi4, Hi3.
    change (layers w3) with (delete (Z.to_nat (activeLayerIndex w)) (layers w)).
    rewrite Hlen. unfold layerCount in *. lia.
  - done.
Qed.

(** X13.  With two layers or more, each buffer covering the displayed
    composite, the "Remove Layer" button and the "Delete Layer" entry of
    the context menu do the same thing: the active layer goes, the layers
    left are kept as they are and in their order, the top one of them
    becomes the active layer and is named in the status line; no notice
    is shown. *)
Theorem removeLayer_removes_active (w : MainWindow) :
  consistent w -> 1 < layerCount w ->
  Forall (fun l => width (composite (canvas w)) <= width (image l) /\
                   height (composite (canvas w)) <= height (image l))
         (layers w) ->
  exists w' T,
    removeLayer w = Some (w', []) /\
    deleteLayer w = Some (w', []) /\
    layers w' = delete (Z.to_nat (activeLayerIndex w)) (layers w) /\
    last (layers w') = Some T /\
    activeLayer w' = Some T /\
    activeLayerIndex w' = layerCount w - 2 /\
    statusLabel w' = "Layer removed, active: " +:+ name T.
Proof.
  intros Hc E Hcov.
  destruct (removeLayer_result w Hc E)
    as (w' & ls & T & Hr & Hd & Hdel & Hl & Hi & Hs).
  assert (HT : T ∈ layers w).
  { apply (list_elem_of_delete_inv _ (Z.to_nat (activeLayerIndex w))).
    rewrite Hdel. apply elem_of_app. right. by apply list_elem_of_singleton. }
  rewrite Forall_forall in Hcov. destruct (Hcov T HT) as [Hw Hh].
  assert (Hpad : paddedTo (composite (canvas w)) (image T) = image T).
  { unfold paddedTo.
    by replace (_ || _) with false
      by (symmetry; apply orb_false_iff; split; apply Z.ltb_ge; lia). }
  rewrite Hpad, setImage_same, <- Hdel in Hl.
  assert (Hlen : length (layers w') = (length (layers w) - 1)%nat).
  { rewrite Hl, length_delete; [done |].
    apply lookup_lt_is_Some. destruct Hc as (? & _).
    unfold layerCount in *. lia. }
  exists w', T. split_and!; try done.
  - rewrite Hl, Hdel. apply last_snoc.
  - unfold activeLayer, activeOutOfRange, layerCount in *.
    rewrite Hi, Hlen.
    replace (_ || _) with false
      by (symmetry; apply orb_false_iff; split;
          [apply Z.ltb_ge | apply Z.leb_gt]; lia).
    rewrite Hl, Hdel.
    replace (Z.to_nat _) with (length ls).
    + by rewrite lookup_app_r, Nat.sub_diag.
    + apply (f_equal length) in Hdel.
      rewrite length_app in Hdel. simpl in Hdel.
      rewrite <- Hl, Hlen in Hdel. lia.
Qed.

Lemma removeLayer_removes_active_witness :
  exists w' T,
    removeLayer twoLayers = Some (w', []) /\
    deleteLayer twoLayers = Some (w', []) /\
    layers w'
      = delete (Z.to_nat (activeLayerIndex twoLayers)) (layers twoLayers) /\
    last (layers w') = Some T /\
    activeLayer w' = Some T /\
    activeLayerIndex w' = layerCount twoLayers - 2 /\
    statusLabel w' = "Layer removed, active: " +:+ name T.
Proof.
  apply removeLayer_removes_active.
  - unfold consistent, layerCount. simpl. repeat split; lia.
  - vm_compute. reflexivity.
  - repeat constructor; vm_compute; discriminate.
Defined.

(** ** Growing the target to the size of the display *)

Lemma valid_pixel_word i x y :
  wellFormed i -> valid i x y = true -> 0 <= pixel i x y < 2 ^ 32.
Proof.
  intros Hwf Hv. apply valid_iff in Hv as [Hx Hy].
  destruct (Z_of_nat_complete x) as [nx ->]; [lia |].
  destruct (Z_of_nat_complete y) as [ny ->]; [lia |].
  destruct (lookup_lt_is_Some_2 (scanLines i) ny) as [row Hrow];
    [unfold height in Hy; lia |].
  destruct (Hwf _ _ Hrow) as [Hlen Hword].
  destruct (lookup_lt_is_Some_2 row nx) as [c Hc];
    [unfold QRgb in *; lia |].
  rewrite (pixel_lookup _ _ _ _ _ Hrow Hc). by eapply Hword.
Qed.

Lemma pixel_mapPixels_generate f fmt w h g x y :
  0 <= x < w -> 0 <= y < h ->
  pixel (mapPixels f (generate fmt w h g)) x y = f x y (g x y).
Proof.
  intros Hx Hy. unfold generate.
  replace ((w <=? 0) || (h <=? 0)) with false
    by (symmetry; apply orb_false_iff; split; apply Z.leb_gt; lia).
  destruct (Z_of_nat_complete x) as [nx ->]; [lia |].
  destruct (Z_of_nat_complete y) as [ny ->]; [lia |].
  apply (pixel_lookup _ nx ny
           (imap (fun x' c => f (Z.of_nat x') (Z.of_nat ny) c)
                 (tabulate w (fun x' => g x' (Z.of_nat ny))))).
  - unfold mapPixels. simpl.
    by rewrite list_lookup_imap, lookup_tabulate by lia.
  - by rewrite list_lookup_imap, lookup_tabulate by lia.
Qed.

Lemma paddedTo_pixels comp img :
  wellFormed img -> isNull img = false ->
  width (paddedTo comp img) = Z.max (width img) (width comp) /\
  height (paddedTo comp img) = Z.max (height img) (height comp) /\
  forall x y, valid (paddedTo comp img) x y = true ->
    pixel (paddedTo comp img) x y
      = if valid img x y then pixel img x y else transparent.
Proof.
  intros Hwf Hn. destruct (isNull_false _ Hn) as [Hw Hh].
  unfold paddedTo. destruct (_ || _) eqn:E.
  - set (W := Z.max (width img) (width comp)).
    set (H := Z.max (height img) (height comp)).
    assert (HW : 0 < W) by lia. assert (HH : 0 < H) by lia.
    unfold drawImage. rewrite width_mapPixels, height_mapPixels.
    destruct (generate_dims Format_ARGB32_Premultiplied W H
                (fun _ _ => transparent) HW HH) as [Ew Eh].
    unfold filled. split; [done |]. split; [done |].
    intros x y Hv. apply valid_iff in Hv.
    rewrite width_mapPixels, height_mapPixels, Ew, Eh in Hv.
    rewrite pixel_mapPixels_generate by lia. simpl.
    rewrite !Z.sub_0_r.
    destruct (valid img x y) eqn:Hv'; [| done].
    rewrite blendPixel_one. apply sourceOver_on_transparent.
    by apply valid_pixel_word.
  - apply orb_false_iff in E as [E1 E2]. apply Z.ltb_ge in E1, E2.
    split; [lia |]. split; [lia |]. intros x y ->. done.
Qed.

(** X14.  When the canvas is given a target that has pixels,
    [ensureTargetSizeMatchesWidget] changes at most the buffer of that one
    layer: the buffer it leaves is as wide and as high as the larger of
    the old buffer and the displayed composite, every pixel of the old
    buffer is where it was, bit for bit, and every pixel added is
    transparent. *)
Theorem target_grows_keeping_pixels (w : MainWindow) (t : nat) (L : Layer) :
  targetImg (canvas w) = Some t ->
  layers w !! t = Some L ->
  wellFormed (image L) -> isNull (image L) = false ->
  exists img,
    layers (ensureTargetSizeMatchesWidget w) = <[t := setImage img L]> (layers w) /\
    canvas (ensureTargetSizeMatchesWidget w) = canvas w /\
    width img = Z.max (width (image L)) (width (composite (canvas w))) /\
    height img = Z.max (height (image L)) (height (composite (canvas w))) /\
    forall x y, valid img x y = true ->
      pixel img x y
        = if valid (image L) x y then pixel (image L) x y else transparent.
Proof.
  intros Ht Hl Hwf Hn.
  destruct (ensureTargetSizeMatchesWidget_layers w t L Ht Hl) as (E1 & E2 & _).
  destruct (paddedTo_pixels (composite (canvas w)) (image L) Hwf Hn)
    as (Hw & Hh & Hp).
  by exists (paddedTo (composite (canvas w)) (image L)).
Qed.

Lemma target_grows_keeping_pixels_witness :
  exists img,
    layers (ensureTargetSizeMatchesWidget (singleLayer3x1Under3x3)) =
      <[0%nat := setImage img (mkLayer "Background" image3x1 [] [] 1%float)]>
        (layers singleLayer3x1Under3x3) /\
    canvas (ensureTargetSizeMatchesWidget singleLayer3x1Under3x3)
      = canvas singleLayer3x1Under3x3 /\
    width img = Z.max (width image3x1) (width image3x3) /\
    height img = Z.max (height image3x1) (height image3x3) /\
    forall x y, valid img x y = true ->
      pixel img x y
        = if valid image3x1 x y then pixel image3x1 x y else transparent.
Proof.
  apply (target_grows_keeping_pixels singleLayer3x1Under3x3 0
           (mkLayer "Background" image3x1 [] [] 1%float)).
  - reflexivity.
  - reflexivity.
  - apply image3x1_wellFormed.
  - reflexivity.
Defined.

(** ** A rectangle dragged backwards *)

(** X15.  A rectangle selection whose corner reached by the drag lies to
    the left of, or above, the corner where the drag began is kept as it
    is, not normalized: it counts as a selection, but [copySelection]
    stores an image with no pixels, and the [pasteSelection] that follows
    changes nothing at all - no snapshot, no pixel, no status text.
    (The null rectangle, of width and height 0, is left out: Qt's [copy]
    gives the whole image for it.) *)
Theorem backward_selection_copies_nothing (w : MainWindow) :
  currentTool (canvas w) = RECT_SELECT ->
  hasSelection (canvas w) = true ->
  rectIsNull (selectionRect (canvas w)) = false ->
  x2 (selectionRect (canvas w)) < x1 (selectionRect (canvas w)) \/
  y2 (selectionRect (canvas w)) < y1 (selectionRect (canvas w)) ->
  selectionBuffer (copySelection w) = nullImage /\
  statusLabel (copySelection w) = "Selection copied" /\
  pasteSelection (copySelection w) = Some (copySelection w).
Proof.
  intros Htool Hsel Hnn Hback.
  assert (Hbuf : getSelectionImage w = nullImage).
  { unfold getSelectionImage. destruct (targetImage w) as [target|]; [| done].
    rewrite Hsel, Htool. simpl. unfold copyRect. rewrite Hnn.
    destruct (isNull target); [done |].
    apply generate_null. unfold rwidth, rheight. lia. }
  unfold copySelection. rewrite Hsel. simpl. rewrite Hbuf.
  split; [done |]. split; [done |].
  unfold pasteSelection. by simpl.
Qed.

Lemma backward_selection_copies_nothing_witness :
  selectionRect (canvas selectBackwards3x3) = mkQRect 2 2 0 0 /\
  selectionBuffer (copySelection selectBackwards3x3) = nullImage /\
  statusLabel (copySelection selectBackwards3x3) = "Selection copied" /\
  pasteSelection (copySelection selectBackwards3x3)
    = Some (copySelection selectBackwards3x3).
Proof.
  split; [vm_compute; reflexivity |].
  apply backward_selection_copies_nothing.
  - vm_compute; reflexivity.
  - vm_compute; reflexivity.
  - vm_compute; reflexivity.
  - left. vm_compute. reflexivity.
Defined.

(** ** The rows of the layer panel *)

(** X16.  On a consistent window, activating row [r] of the layer panel
    makes the layer whose name that row shows the active one and the
    target of the canvas, and names it in the status line; a row that is
    not in the panel changes nothing. *)
Theorem activateLayer_follows_row (w : MainWindow) (r : nat) (nm : string) :
  consistent w ->
  items (layerListWidget w) !! r = Some nm ->
  (exists L,
     activeLayer (activateLayer (Z.of_nat r) w) = Some L /\ name L = nm /\
     activeLayerIndex (activateLayer (Z.of_nat r) w)
       = layerCount w - 1 - Z.of_nat r /\
     targetImage (activateLayer (Z.of_nat r) w) = Some (image L) /\
     statusLabel (activateLayer (Z.of_nat r) w) = "Active layer: " +:+ nm) /\
  (forall uiRow, uiRow < 0 \/ layerCount w <= uiRow ->
                 activateLayer uiRow w = w).
Proof.
  intros (Hr & Ht & Hq) Hrow. split.
  - rewrite Hq in Hrow. apply reverse_lookup_Some in Hrow as [Hrow Hlt].
    rewrite length_fmap in Hrow, Hlt.
    unfold activateLayer.
    set (idx := layerCount w - 1 - Z.of_nat r).
    assert (Hidx : 0 <= idx < layerCount w)
      by (unfold idx, layerCount; lia).
    replace ((idx <? 0) || (layerCount w <=? idx)) with false
      by (symmetry; apply orb_false_iff; split;
          [apply Z.ltb_ge | apply Z.leb_gt]; lia).
    cbv zeta. set (w1 := setTargetToActive (setActiveLayerIndex idx w)).
    destruct (sameShape_setTargetToActive (setActiveLayerIndex idx w))
      as (Hn & Hi & Htg & _). fold w1 in Hn, Hi, Htg. simpl in Hn, Hi, Htg.
    assert (Hr1 : 0 <= activeLayerIndex w1 < layerCount w1).
    { rewrite Hi. unfold layerCount in *. by rewrite (names_length _ _ Hn). }
    destruct (activeLayer_in_range w1 Hr1) as [L1 HL1].
    rewrite HL1.
    destruct (activeLayer_Some _ _ HL1) as [Hlk _].
    assert (Hname : name L1 = nm).
    { apply (list_lookup_fmap_Some_2 name) in Hlk.
      rewrite Hn, Hi in Hlk.
      replace (Z.to_nat idx) with (length (layers w) - S r)%nat in Hlk
        by (unfold idx, layerCount; lia).
      congruence. }
    exists L1. split_and!; try done.
    + apply (targetImage_active w1 L1 HL1). by rewrite Htg, Hi.
    + simpl. by rewrite Hname.
  - intros uiRow Hout. unfold activateLayer.
    replace ((_ <? 0) || _) with true; [done |].
    symmetry. apply orb_true_iff. rewrite Z.ltb_lt, Z.leb_le. lia.
Qed.

Lemma activateLayer_follows_row_witness :
  (exists L,
     activeLayer (activateLayer (Z.of_nat 1) twoLayers) = Some L /\
     name L = "Background" /\
     activeLayerIndex (activateLayer (Z.of_nat 1) twoLayers)
       = layerCount twoLayers - 1 - Z.of_nat 1 /\
     targetImage (activateLayer (Z.of_nat 1) twoLayers) = Some (image L) /\
     statusLabel (activateLayer (Z.of_nat 1) twoLayers)
       = "Active layer: " +:+ "Background") /\
  (forall uiRow, uiRow < 0 \/ layerCount twoLayers <= uiRow ->
                 activateLayer uiRow twoLayers = twoLayers).
Proof.
  apply activateLayer_follows_row.
  - unfold consistent, layerCount. simpl. repeat split; lia.
  - reflexivity.
Defined.

(** ** Committing the text items *)

Lemma commitTextItems_commits drawText w L :
  activeLayer w = Some L ->
  targetImg (canvas w) = Some (Z.to_nat (activeLayerIndex w)) ->
  textItems (canvas w) <> [] ->
  layers (commitTextItems drawText w) =
    <[Z.to_nat (activeLayerIndex w) :=
        setImage (fold_left (fun i t => drawText t i) (textItems (canvas w))
                    (image L)) L]> (layers w) /\
  activeLayerIndex (commitTextItems drawText w) = activeLayerIndex w /\
  textItems (canvas (commitTextItems drawText w)) = [] /\
  activeTextIndex (canvas (commitTextItems drawText w)) = -1 /\
  targetImg (canvas (commitTextItems drawText w)) = targetImg (canvas w).
Proof.
  intros HL Ht Hts. unfold commitTextItems, onStrokeFinished.
  rewrite (targetImage_active _ _ HL Ht).
  destruct (textItems (canvas w)) as [|t0 ts] eqn:E; [done |].
  destruct (activeLayer_Some _ _ HL) as [Hlk _].
  match goal with
  | |- context [compositeLayers ?x] =>
      destruct (compositeLayers_frame x) as (E1 & E2 & E3 & _);
      rewrite E1, E2, E3;
      assert (Ec : textItems (canvas (compositeLayers x)) = [] /\
                   activeTextIndex (canvas (compositeLayers x)) = -1)
        by (unfold compositeLayers; by destruct (layers x));
      destruct Ec as [-> ->]
  end.
  unfold paintTarget. rewrite Ht, Hlk. simpl.
  by rewrite Ht.
Qed.

(** X17.  With text items pending, the tool bar's brush, eraser and text
    actions draw the items into the buffer of the active layer, first
    typed first drawn, and drop them; they take no undo snapshot and leave
    the redo stack alone, so the histories of the layer are as before and
    hold no buffer without the text. *)
Theorem text_commit_takes_no_snapshot
    (drawText : TextItem -> QImage -> QImage) (w : MainWindow) (L : Layer) :
  activeLayer w = Some L ->
  targetImg (canvas w) = Some (Z.to_nat (activeLayerIndex w)) ->
  textItems (canvas w) <> [] ->
  Forall (fun op : MainWindow -> MainWindow =>
            activeLayer (op w)
              = Some (mkLayer (name L)
                        (fold_left (fun i t => drawText t i)
                           (textItems (canvas w)) (image L))
                        (undoStack L) (redoStack L) (opacity L)) /\
            textItems (canvas (op w)) = [] /\
            activeTextIndex (canvas (op w)) = -1)
    [selectBrush drawText; selectEraser drawText; selectText drawText].
Proof.
  intros HL Ht Hts.
  destruct (commitTextItems_commits drawText w L HL Ht Hts)
    as (Hl & Hi & Hti & Hai & _).
  destruct (activeLayer_Some _ _ HL) as [Hlk Hr].
  assert (Ha : activeLayer (commitTextItems drawText w)
               = Some (mkLayer (name L)
                         (fold_left (fun i t => drawText t i)
                            (textItems (canvas w)) (image L))
                         (undoStack L) (redoStack L) (opacity L))).
  { unfold activeLayer, activeOutOfRange, layerCount in *.
    rewrite Hl, Hi, length_insert, Hr.
    apply list_lookup_insert_eq. by eapply lookup_lt_Some. }
  repeat constructor; simpl; done.
Qed.

Lemma text_commit_takes_no_snapshot_witness :
  Forall (fun op : MainWindow -> MainWindow =>
            activeLayer (op twoTexts)
              = Some (mkLayer "Background"
                        (fold_left (fun i t => dotText t i)
                           (textItems (canvas twoTexts)) image3x3)
                        [] [] 1%float) /\
            textItems (canvas (op twoTexts)) = [] /\
            activeTextIndex (canvas (op twoTexts)) = -1)
    [selectBrush dotText; selectEraser dotText; selectText dotText].
Proof.
  apply (text_commit_takes_no_snapshot dotText twoTexts
           (mkLayer "Background" image3x3 [] [] 1%float)).
  - vm_compute; reflexivity.
  - vm_compute; reflexivity.
  - vm_compute; discriminate.
Defined.

(** ** Editing a text item *)

Lemma firstTextItem_spec p ts : forall i0,
  match firstTextItem ts i0 p with
  | Some k =>
      exists i t, k = (i0 + i)%nat /\ ts !! i = Some t /\
        textItemContains t p = true /\
        forall j t', (j < i)%nat -> ts !! j = Some t' ->
                     textItemContains t' p = false
  | None => forall j t, ts !! j = Some t -> textItemContains t p = false
  end.
Proof.
  induction ts as [|t ts IH]; intros i0; simpl; [done |].
  destruct (textItemContains t p) eqn:Hc.
  - exists 0%nat, t. split_and!; [lia | done | done |]. intros j t' Hj. lia.
  - specialize (IH (S i0)).
    destruct (firstTextItem ts (S i0) p) as [k|].
    + destruct IH as (i & t' & -> & Hi & Hc' & Hfirst).
      exists (S i), t'. split_and!; [lia | done | done |].
      intros [|j] t'' Hj Hlk; simpl in Hlk; [by injection Hlk as <- |].
      apply (Hfirst j); [lia | done].
    + intros [|j] t' Hlk; simpl in Hlk; [by injection Hlk as <- |].
      by apply (IH j).
Qed.

(** X18.  A double click with the text tool edits the text item typed
    first among those under the point - the bottom one, where a press
    selects the one typed last: with the dialog accepted that item takes
    the text, colour, font and bounding rectangle of the dialog and keeps
    its position and selection mark, every other item, the active item,
    and every layer stay as they are; with no item under the point, or the
    dialog rejected, nothing changes. *)
Theorem double_click_edits_first (ev : QMouseEvent) (e : TextEdit)
    (w : MainWindow) (target : QImage) :
  targetImage w = Some target ->
  currentTool (canvas w) = TEXT ->
  let p := widgetToImage (canvas w) (pos ev) (size target) in
  let ts := textItems (canvas w) in
  let w' := mouseDoubleClickEvent ev (Some e) w in
  mouseDoubleClickEvent ev None w = w /\
  layers w' = layers w /\
  activeTextIndex (canvas w') = activeTextIndex (canvas w) /\
  ((exists i t,
      ts !! i = Some t /\ textItemContains t p = true /\
      (forall j t', (j < i)%nat -> ts !! j = Some t' ->
                    textItemContains t' p = false) /\
      textItems (canvas w') = <[i := editTextItem e t]> ts)
   \/
   ((forall j t, ts !! j = Some t -> textItemContains t p = false) /\
    w' = w)).
Proof.
  intros Hti Htool p ts w'. unfold w', mouseDoubleClickEvent.
  rewrite Hti, (bool_decide_eq_true_2 _ Htool). cbn [negb]. fold p. fold ts.
  pose proof (firstTextItem_spec p ts 0) as Hhit.
  destruct (firstTextItem ts 0 p) as [k|].
  - destruct Hhit as (i & t & -> & Hi & Hc & Hfirst).
    split_and!; try done. left. exists i, t. simpl. split_and!; try done.
    apply list_eq. intros j.
    destruct (decide (j = i)) as [-> |].
    + rewrite list_lookup_alter_eq, Hi, list_lookup_insert_eq; [done |].
      by eapply lookup_lt_Some.
    + by rewrite list_lookup_alter_ne, list_lookup_insert_ne.
  - split_and!; try done. by right.
Qed.

Lemma double_click_edits_first_witness :
  let e := mkTextEdit "c" red "Arial,12" (mkQRect 0 0 0 0) in
  let p := mkQPoint 1 1 in
  let ts := textItems (canvas twoTexts) in
  let w' := mouseDoubleClickEvent (leftPress 1 1) (Some e) twoTexts in
  hitTextItem ts 0 p = Some 1%nat /\
  mouseDoubleClickEvent (leftPress 1 1) None twoTexts = twoTexts /\
  layers w' = layers twoTexts /\
  activeTextIndex (canvas w') = activeTextIndex (canvas twoTexts) /\
  ((exists i t,
      ts !! i = Some t /\ textItemContains t p = true /\
      (forall j t', (j < i)%nat -> ts !! j = Some t' ->
                    textItemContains t' p = false) /\
      textItems (canvas w') = <[i := editTextItem e t]> ts)
   \/
   ((forall j t, ts !! j = Some t -> textItemContains t p = false) /\
    w' = twoTexts)).
Proof.
  intros e p ts w'. split; [vm_compute; reflexivity |].
  apply (double_click_edits_first (leftPress 1 1) e twoTexts image3x3).
  - vm_compute; reflexivity.
  - vm_compute; reflexivity.
Defined.
